(** * Midnight Murder: the lobby state machine of [server.ts]

    A shallow embedding of the server-side game engine: the [Lobby]
    aggregate, the role assigner, the clue synthesizer, and the socket
    handlers ([create_lobby], [join_lobby], [leave_lobby], [start_game],
    [move], [task_completed], [lock_task], [steal_clue], [vote],
    [guess_witness], [start_voting], [disconnect]) as functions on the
    registry [lobbies].

    Conventions.
    - The registry [lobbies : Record<string, Lobby>] is a [gmap string Lobby.t]
      of its own properties.  The [votes] object of the vote handler is an
      association list of its own properties in insertion order;
      [Object.entries] may enumerate them in another order (integer-like
      keys come first), which does not change the outcome of the handler
      ([scan_order_irrelevant]).  Both are plain objects: a key they do not
      hold is looked up in [Object.prototype] ([inherited]).
    - A handler is a function from the registry to the new registry and
      the list of messages it emits (callback replies, broadcasts, timers);
      a handler that ends in an uncaught [TypeError] emits [type_error].
    - An array element found by [find] and then written to is updated in
      place, at the position of the first match ([updateFirst]).
    - [socket.id] is the explicit argument [sid] of every handler.
    - [Math.random()], [uuidv4()] and [Date.now()] are inputs of the handler
      that calls them.  A draw of [Math.random()] used as
      [Math.floor(Math.random() * n)] is a natural number [r], read modulo
      [n], so that the index ranges over exactly [0 .. n-1].
    - [number] fields holding coordinates are rationals.
    - Membership of socket.io rooms ([socket.join], [socket.leave]) only
      routes broadcasts and is not part of the state. *)

From stdpp Require Import base strings list gmap pretty.
From Stdlib Require Import Ascii Permutation QArith ZArith.
Close Scope Q_scope.
#[local] Set Warnings "-clear-no-such-hyp".
Open Scope string_scope.
Open Scope nat_scope.
Open Scope list_scope.
Open Scope stdpp_scope.

(** ** JavaScript array and value helpers *)

(** [Math.floor(Math.random() * n)] for the draw [r]. *)
Definition floorRandom (r n : nat) : nat :=
  match n with
  | O => 0
  | S _ => r mod n
  end.

(** [xs[Math.floor(Math.random() * xs.length)]]; [None] is [undefined]. *)
Definition randomElement {A : Type} (r : nat) (xs : list A) : option A :=
  xs !! floorRandom r (length xs).

(** [xs.findIndex(f)]; [None] is [-1]. *)
Fixpoint findIndex {A : Type} (f : A → bool) (xs : list A) : option nat :=
  match xs with
  | [] => None
  | x :: xs' => if f x then Some 0 else S <$> findIndex f xs'
  end.

(** The effect of [const o = xs.find(f); if (o) { mutate o }] on the
    array: the first element satisfying [f] is replaced by [g] of it. *)
Fixpoint updateFirst {A : Type} (f : A → bool) (g : A → A) (xs : list A) : list A :=
  match xs with
  | [] => []
  | x :: xs' => if f x then g x :: xs' else x :: updateFirst f g xs'
  end.

(** [xs.some(f)] and [xs.every(f)]. *)
Definition some {A : Type} (f : A → bool) (xs : list A) : bool := existsb f xs.
Definition every {A : Type} (f : A → bool) (xs : list A) : bool := forallb f xs.

(** Truthiness of a [string | null]: [null] and the empty string are falsy. *)
Definition truthy (o : option string) : bool :=
  match o with
  | None => false
  | Some s => negb (String.eqb s EmptyString)
  end.

(** ** Plain objects used as maps

    [lobbies] and [votes] are created as [{}]: a key they do not hold is
    looked up in [Object.prototype].  These are the names found there, all
    of them functions but [__proto__], an accessor that reads as
    [Object.prototype] itself and whose setter ignores a value that is not
    an object. *)
Definition inheritedMembers : list string :=
  ["constructor"; "__defineGetter__"; "__defineSetter__"; "hasOwnProperty";
   "__lookupGetter__"; "__lookupSetter__"; "isPrototypeOf"; "propertyIsEnumerable";
   "toString"; "valueOf"; "__proto__"; "toLocaleString"].

(** [key] names a member inherited from [Object.prototype]. *)
Definition inherited (key : string) : bool :=
  existsb (String.eqb key) inheritedMembers.

(** ** Data model *)

Module Role.
Inductive t := killer | witness | investigator | forensics.

Definition eqb (a b : t) : bool :=
  match a, b with
  | killer, killer | witness, witness
  | investigator, investigator | forensics, forensics => true
  | _, _ => false
  end.

#[global] Instance eq_dec : EqDecision t.
Proof. solve_decision. Defined.
End Role.

Module TaskType.
Inductive t := word_fuse | wordle | backwards_feud | taxi_jam.
End TaskType.

Module Status.
Inductive t := lobby | playing | discussion | voting | witness_guessing | game_over.

Definition eqb (a b : t) : bool :=
  match a, b with
  | lobby, lobby | playing, playing | discussion, discussion
  | voting, voting | witness_guessing, witness_guessing
  | game_over, game_over => true
  | _, _ => false
  end.
End Status.

Module Winner.
Inductive t := killer | investigators.
End Winner.

Module Attributes.
Record t := mk {
  handedness : string;
  hairColor : string;
  shoeType : string;
  tshirtDesign : string;
  occupation : string;
  height : string;
  accessory : string
}.
End Attributes.

Module Player.
Record t := mk {
  id : string;
  name : string;
  role : option Role.t;
  attributes : Attributes.t;
  isHost : bool;
  votedFor : option string;
  x : Q;
  y : Q;
  color : string;
  hasStolenClue : bool
}.

Definition with_role (r : option Role.t) (p : t) : t :=
  mk (id p) (name p) r (attributes p) (isHost p) (votedFor p) (x p) (y p)
     (color p) (hasStolenClue p).

Definition with_isHost (b : bool) (p : t) : t :=
  mk (id p) (name p) (role p) (attributes p) b (votedFor p) (x p) (y p)
     (color p) (hasStolenClue p).

Definition with_votedFor (v : option string) (p : t) : t :=
  mk (id p) (name p) (role p) (attributes p) (isHost p) v (x p) (y p)
     (color p) (hasStolenClue p).

Definition with_position (x' y' : Q) (p : t) : t :=
  mk (id p) (name p) (role p) (attributes p) (isHost p) (votedFor p) x' y'
     (color p) (hasStolenClue p).

Definition with_hasStolenClue (b : bool) (p : t) : t :=
  mk (id p) (name p) (role p) (attributes p) (isHost p) (votedFor p) (x p) (y p)
     (color p) b.

(** [p.id === sid] and [p.role === "killer"]. *)
Definition has_id (sid : string) (p : t) : bool := String.eqb (id p) sid.

Definition is_killer (p : t) : bool :=
  match role p with
  | Some Role.killer => true
  | _ => false
  end.

Definition is_witness (p : t) : bool :=
  match role p with
  | Some Role.witness => true
  | _ => false
  end.
End Player.

Module Clue.
Record t := mk {
  id : string;
  text : string;
  isTampered : bool;
  foundBy : string
}.

Definition with_isTampered (b : bool) (c : t) : t :=
  mk (id c) (text c) b (foundBy c).
End Clue.

Module GameTask.
Record t := mk {
  id : string;
  x : Z;
  y : Z;
  type : TaskType.t;
  completed : bool;
  lockedFor : list string
}.

Definition with_completed (b : bool) (k : t) : t :=
  mk (id k) (x k) (y k) (type k) b (lockedFor k).

Definition with_lockedFor (ls : list string) (k : t) : t :=
  mk (id k) (x k) (y k) (type k) (completed k) ls.

Definition has_id (taskId : string) (k : t) : bool := String.eqb (id k) taskId.
End GameTask.

Module Lobby.
Record t := mk {
  id : string;
  status : Status.t;
  players : list Player.t;
  clues : list Clue.t;
  tasks : list GameTask.t;
  startTime : option Z;
  endTime : option Z;
  winner : option Winner.t
}.

Definition with_status (s : Status.t) (l : t) : t :=
  mk (id l) s (players l) (clues l) (tasks l) (startTime l) (endTime l) (winner l).

Definition with_players (ps : list Player.t) (l : t) : t :=
  mk (id l) (status l) ps (clues l) (tasks l) (startTime l) (endTime l) (winner l).

Definition with_clues (cs : list Clue.t) (l : t) : t :=
  mk (id l) (status l) (players l) cs (tasks l) (startTime l) (endTime l) (winner l).

Definition with_tasks (ks : list GameTask.t) (l : t) : t :=
  mk (id l) (status l) (players l) (clues l) ks (startTime l) (endTime l) (winner l).

Definition with_startTime (z : option Z) (l : t) : t :=
  mk (id l) (status l) (players l) (clues l) (tasks l) z (endTime l) (winner l).

Definition with_endTime (z : option Z) (l : t) : t :=
  mk (id l) (status l) (players l) (clues l) (tasks l) (startTime l) z (winner l).

Definition with_winner (w : option Winner.t) (l : t) : t :=
  mk (id l) (status l) (players l) (clues l) (tasks l) (startTime l) (endTime l) w.
End Lobby.

(** The registry [lobbies]. *)
Abbreviation Lobbies := (gmap string Lobby.t).

(** ** Sources of nondeterminism

    One handler run sees the results of its calls of [Math.random()],
    [uuidv4()] and [Date.now()], numbered from 0 in call order.  The k-th
    call of [Math.random()] is presented in the three forms the code uses
    it in: [random k] for [Math.floor(Math.random() * n)], [randomQ k]
    for its numeric value, and [randomCode k] for
    [Math.random().toString(36).substring(2, 8).toUpperCase()]. *)

Module Env.
Record t := mk {
  random : nat → nat;
  randomQ : nat → Q;
  randomCode : nat → string;
  uuidv4 : nat → string;
  now : nat → Z
}.

(** The environment after [n] further calls of [Math.random()]. *)
Definition skip (n : nat) (env : t) : t :=
  mk (λ k, random env (n + k)) (λ k, randomQ env (n + k))
     (λ k, randomCode env (n + k)) (uuidv4 env) (now env).
End Env.

(** ** Vocabulary tables *)

Definition HANDEDNESS : list string := ["Left"; "Right"].
Definition HAIR_COLORS : list string := ["Black"; "Brown"; "Blonde"; "Red"; "Gray"].
Definition SHOE_TYPES : list string :=
  ["Boots"; "Running Shoes"; "Flip Flops"; "Loafers"; "Sneakers"; "High Heels"].
Definition TSHIRT_DESIGNS : list string :=
  ["Plain"; "Striped"; "Polka Dot"; "Graphic"; "Tie-Dye"; "Plaid"; "Camo";
   "Floral"; "Abstract"; "Geometric"].
Definition OCCUPATIONS : list string :=
  ["Teacher"; "Doctor"; "Engineer"; "Artist"; "Chef"; "Police"; "Firefighter";
   "Musician"; "Writer"; "Actor"; "Scientist"; "Athlete"; "Pilot"; "Lawyer";
   "Farmer"].
Definition ACCESSORIES : list string :=
  ["Glasses"; "Hat"; "Watch"; "Necklace"; "Earrings"; "None"].
Definition PLAYER_COLORS : list string :=
  ["#ef4444"; "#3b82f6"; "#10b981"; "#f59e0b"; "#8b5cf6"; "#ec4899"; "#14b8a6";
   "#f97316"; "#64748b"; "#84cc16"].

Definition CLUE_MAP : list (string * list string) :=
  [("Left", ["Southpaw"; "Sinister"; "Scissors"]);
   ("Right", ["Standard"; "Dexterous"; "Common"]);
   ("Black", ["Midnight"; "Raven"; "Darkness"]);
   ("Brown", ["Earth"; "Chestnut"; "Chocolate"]);
   ("Blonde", ["Golden"; "Sunlight"; "Straw"]);
   ("Red", ["Fire"; "Crimson"; "Ginger"]);
   ("Gray", ["Silver"; "Wisdom"; "Ash"]);
   ("Boots", ["Winter"; "Heavy"; "Mud"]);
   ("Running Shoes", ["Athletic"; "Laces"; "Track"]);
   ("Flip Flops", ["Summer"; "Beach"; "Toes"]);
   ("Loafers", ["Casual"; "Slip-on"; "Leather"]);
   ("Sneakers", ["Street"; "Comfort"; "Rubber"]);
   ("High Heels", ["Formal"; "Tall"; "Click-clack"]);
   ("Plain", ["Simple"; "Basic"; "Unadorned"]);
   ("Striped", ["Lines"; "Zebra"; "Parallel"]);
   ("Polka Dot", ["Spots"; "Circles"; "Retro"]);
   ("Graphic", ["Picture"; "Logo"; "Print"]);
   ("Tie-Dye", ["Colorful"; "Hippie"; "Swirl"]);
   ("Plaid", ["Lumberjack"; "Squares"; "Flannel"]);
   ("Camo", ["Hidden"; "Military"; "Forest"]);
   ("Floral", ["Nature"; "Garden"; "Blossom"]);
   ("Abstract", ["Artistic"; "Confusing"; "Shapes"]);
   ("Geometric", ["Math"; "Angles"; "Sharp"]);
   ("Teacher", ["Chalk"; "Grades"; "School"]);
   ("Doctor", ["Stethoscope"; "Medicine"; "Hospital"]);
   ("Engineer", ["Math"; "Build"; "Design"]);
   ("Artist", ["Paint"; "Canvas"; "Creative"]);
   ("Chef", ["Kitchen"; "Food"; "Knife"]);
   ("Police", ["Badge"; "Law"; "Siren"]);
   ("Firefighter", ["Hose"; "Rescue"; "Flames"]);
   ("Musician", ["Notes"; "Instrument"; "Stage"]);
   ("Writer", ["Pen"; "Paper"; "Words"]);
   ("Actor", ["Stage"; "Drama"; "Camera"]);
   ("Scientist", ["Lab"; "Microscope"; "Research"]);
   ("Athlete", ["Sweat"; "Sports"; "Medal"]);
   ("Pilot", ["Sky"; "Airplane"; "Clouds"]);
   ("Lawyer", ["Court"; "Suit"; "Judge"]);
   ("Farmer", ["Tractor"; "Crops"; "Dirt"]);
   ("Glasses", ["Vision"; "Lenses"; "Frames"]);
   ("Hat", ["Headwear"; "Shade"; "Cap"]);
   ("Watch", ["Time"; "Wrist"; "Tick"]);
   ("Necklace", ["Jewelry"; "Chain"; "Pendant"]);
   ("Earrings", ["Piercing"; "Lobes"; "Studs"]);
   ("None", ["Bare"; "Minimalist"; "Empty"])].

(** [table[key]] on a table used as a map; [None] is [undefined]. *)
Fixpoint property {A : Type} (key : string) (table : list (string * A)) : option A :=
  match table with
  | [] => None
  | (k, v) :: table' => if String.eqb k key then Some v else property key table'
  end.

(** ** [parseInt] and the height bucket *)

Definition isWhiteSpace (c : ascii) : bool :=
  let n := nat_of_ascii c in
  Nat.eqb n 9 || Nat.eqb n 10 || Nat.eqb n 11 || Nat.eqb n 12 || Nat.eqb n 13
  || Nat.eqb n 32.

Fixpoint trimStart (s : string) : string :=
  match s with
  | String c s' => if isWhiteSpace c then trimStart s' else s
  | EmptyString => EmptyString
  end.

(** The value of a character as a digit in radix up to 36. *)
Definition digitValue (c : ascii) : option Z :=
  let n := Z.of_nat (nat_of_ascii c) in
  if ((48 <=? n) && (n <=? 57))%Z then Some (n - 48)%Z
  else if ((97 <=? n) && (n <=? 122))%Z then Some (n - 87)%Z
  else if ((65 <=? n) && (n <=? 90))%Z then Some (n - 55)%Z
  else None.

(** The longest prefix of digits of [radix], as a number; [acc] is [None]
    until a digit has been read. *)
Fixpoint readDigits (radix : Z) (acc : option Z) (s : string) : option Z :=
  match s with
  | EmptyString => acc
  | String c s' =>
      match digitValue c with
      | Some d =>
          if (d <? radix)%Z
          then readDigits radix (Some (default 0 acc * radix + d)%Z) s'
          else acc
      | None => acc
      end
  end.

(** [parseInt(s)] without a radix argument, on ASCII input; [None] is [NaN]. *)
Definition parseInt (s : string) : option Z :=
  let s := trimStart s in
  let '(sign, s) :=
    match s with
    | String "-" s' => ((-1)%Z, s')
    | String "+" s' => (1%Z, s')
    | _ => (1%Z, s)
    end in
  let '(radix, s) :=
    match s with
    | String "0" (String "x" s') | String "0" (String "X" s') => (16%Z, s')
    | _ => (10%Z, s)
    end in
  Z.mul sign <$> readDigits radix None s.

(** [s.split(sep)[0]] for a one-character separator. *)
Fixpoint splitHead (sep : ascii) (s : string) : string :=
  match s with
  | EmptyString => EmptyString
  | String c s' => if Ascii.eqb c sep then EmptyString else String c (splitHead sep s')
  end.

Definition getHeightClue (heightStr : string) : string :=
  match parseInt (splitHead "'" heightStr) with
  | Some feet =>
      if (feet <? 5)%Z then "Short"
      else if (feet =? 5)%Z then "Average"
      else if (5 <? feet)%Z then "Tall"
      else "Unknown"
  | None => "Unknown"
  end.

(** ** Attribute generator *)

(** [table[Math.floor(Math.random() * table.length)]] on one of the
    constant, non-empty tables above. *)
Definition randomEntry (r : nat) (table : list string) : string :=
  default EmptyString (randomElement r table).

Definition doubleQuote : string := String (ascii_of_nat 34) EmptyString.

Definition generateAttributes (env : Env.t) : Attributes.t :=
  let heightInches := floorRandom (Env.random env 0) 37 + 48 in
  let feet := heightInches / 12 in
  let inches := heightInches mod 12 in
  Attributes.mk
    (randomEntry (Env.random env 1) HANDEDNESS)
    (randomEntry (Env.random env 2) HAIR_COLORS)
    (randomEntry (Env.random env 3) SHOE_TYPES)
    (randomEntry (Env.random env 4) TSHIRT_DESIGNS)
    (randomEntry (Env.random env 5) OCCUPATIONS)
    (pretty feet +:+ "'" +:+ pretty inches +:+ doubleQuote)
    (randomEntry (Env.random env 6) ACCESSORIES).

(** [Object.entries(attributes)], in property order. *)
Definition attributeEntries (a : Attributes.t) : list (string * string) :=
  [("handedness", Attributes.handedness a);
   ("hairColor", Attributes.hairColor a);
   ("shoeType", Attributes.shoeType a);
   ("tshirtDesign", Attributes.tshirtDesign a);
   ("occupation", Attributes.occupation a);
   ("height", Attributes.height a);
   ("accessory", Attributes.accessory a)].

(** ** Role assigner *)

(** [[xs[i], xs[j]] = [xs[j], xs[i]]].  Both indices are in range wherever
    the shuffle calls it. *)
Definition swap {A : Type} (i j : nat) (xs : list A) : list A :=
  match xs !! j, xs !! i with
  | Some a, Some b => <[j := b]> (<[i := a]> xs)
  | _, _ => xs
  end.

(** The role pool before shuffling. *)
Definition rolePool (n : nat) : list Role.t :=
  let roles := [Role.killer; Role.witness; Role.investigator] in
  let roles := if 4 <=? n then roles ++ [Role.forensics] else roles in
  roles ++ repeat Role.investigator (n - length roles).

(** The loop [for (let i = roles.length - 1; i > 0; i--)], entered with
    loop variable [i]. *)
Fixpoint shuffle (env : Env.t) (i : nat) (roles : list Role.t) : list Role.t :=
  match i with
  | O => roles
  | S i' =>
      let j := floorRandom (Env.random env 0) (i + 1) in
      shuffle (Env.skip 1 env) i' (swap i j roles)
  end.

Definition shuffledRoles (env : Env.t) (n : nat) : list Role.t :=
  let roles := rolePool n in
  shuffle env (length roles - 1) roles.

Definition assignRoles (env : Env.t) (players : list Player.t) : list Player.t :=
  let roles := shuffledRoles env (length players) in
  imap (λ i p, Player.with_role (roles !! i) p) players.

(** The number of [Math.random()] calls made by [assignRoles]. *)
Definition assignRolesCalls (players : list Player.t) : nat :=
  length (rolePool (length players)) - 1.

(** ** Task pool generator *)

Definition types : list TaskType.t :=
  [TaskType.word_fuse; TaskType.wordle; TaskType.backwards_feud; TaskType.taxi_jam].

(** The task pushed by iteration [i] of the loop ([types] is not empty, so
    the draw of the type always finds one). *)
Definition generateTask (env : Env.t) (i : nat) : GameTask.t :=
  GameTask.mk
    (Env.uuidv4 env i)
    (Z.of_nat (floorRandom (Env.random env (3 * i)) 1600) + 200)%Z
    (Z.of_nat (floorRandom (Env.random env (3 * i + 1)) 1600) + 200)%Z
    (default TaskType.word_fuse (randomElement (Env.random env (3 * i + 2)) types))
    false
    [].

Definition generateTasks (env : Env.t) : list GameTask.t :=
  map (generateTask env) (seq 0 15).

(** ** Clue synthesizer *)

(** The text derived from the chosen player's attributes: the part of
    [generateClue] after [targetPlayer] is fixed. *)
Definition clueFor (env : Env.t) (attributes : Attributes.t) : option string :=
  let attrs := map fst (attributeEntries attributes) in
  match randomElement (Env.random env 0) attrs with
  | None => None
  | Some randomAttr =>
      match property randomAttr (attributeEntries attributes) with
      | None => None
      | Some val =>
          if String.eqb randomAttr "height" then Some (getHeightClue val)
          else
            match property val CLUE_MAP with
            | Some (c :: cs) => randomElement (Env.random env 1) (c :: cs)
            | _ => Some val
            end
      end
  end.

(** [generateClue(lobby, isTampered)].  [None] stands for the [TypeError]
    raised when [targetPlayer] is [undefined], that is, when the lobby has
    no player. *)
Definition generateClue (env : Env.t) (lobby : Lobby.t) (isTampered : bool) : option string :=
  let '(targetPlayer, env) :=
    if isTampered then
      let nonKillers :=
        List.filter (λ p, negb (Player.is_killer p)) (Lobby.players lobby) in
      (match randomElement (Env.random env 0) nonKillers with
       | Some p => Some p
       | None => head (Lobby.players lobby)
       end, Env.skip 1 env)
    else
      (match List.find Player.is_killer (Lobby.players lobby) with
       | Some p => Some p
       | None => head (Lobby.players lobby)
       end, env) in
  match targetPlayer with
  | None => None
  | Some targetPlayer => clueFor env (Player.attributes targetPlayer)
  end.

(** ** Messages sent by the server *)

(** The payload of a request callback. *)
Inductive Reply :=
| joined (lobbyId playerId : string)
| error (msg : string)
| message (msg : string).

(** The named events, with the snapshot they carry. *)
Inductive Event :=
| lobby_update (lobby : Lobby.t)
| game_started (lobby : Lobby.t)
| task_update (tasks : list GameTask.t)
| clue_found (clues : list Clue.t)
| player_moved (id : string) (x y : Q)
| left_lobby.

Inductive Effect :=
| callback (r : Reply)                      (* callback(...) *)
| to_room (lobbyId : string) (e : Event)    (* io.to(lobbyId).emit(...) *)
| to_others (lobbyId : string) (e : Event)  (* socket.to(lobbyId).volatile.emit(...) *)
| to_socket (e : Event)                     (* socket.emit(...) *)
| set_timeout (lobbyId : string) (ms : Z)   (* setTimeout(..., ms) *)
| type_error.                               (* an uncaught TypeError ends the handler *)

(** ** Handlers: lobby membership

    In every handler [lobbies[lobbyId]] is an own property of [lobbies], a
    lobby, when there is one; otherwise it is [undefined], or, for the name
    of an inherited member, a truthy value with no [status] and no
    [players].  The handlers that go on to compare [lobby.status] with a
    status name do on such a value what they do on [undefined];
    [join_lobby], [leave_lobby] and [start_game] do not.  (The codes drawn
    by [create_lobby] are upper-case and at most six characters long, so
    that no lobby is stored under an inherited name.) *)

Definition create_lobby (env : Env.t) (sid name : string) (lobbies : Lobbies)
  : Lobbies * list Effect :=
  let lobbyId := Env.randomCode env 0 in
  let lobby :=
    Lobby.mk lobbyId Status.lobby
      [Player.mk sid name None (generateAttributes (Env.skip 1 env)) true None
         1000%Q 1000%Q (default EmptyString (PLAYER_COLORS !! 0)) false]
      [] [] None None None in
  (<[lobbyId := lobby]> lobbies,
   [callback (joined lobbyId sid); to_room lobbyId (lobby_update lobby)]).

(** The loop [while (lobby.players.some(p => p.name === finalName))] of
    [join_lobby], entered with [finalName] and [counter]; [fuel] bounds the
    number of iterations, and [length players] of them are always enough
    ([uniqueName_free] below). *)
Fixpoint uniqueName (fuel : nat) (players : list Player.t) (name finalName : string)
    (counter : nat) : string :=
  if some (λ p, String.eqb (Player.name p) finalName) players then
    match fuel with
    | O => finalName
    | S fuel' =>
        uniqueName fuel' players name (name +:+ " " +:+ pretty counter) (S counter)
    end
  else finalName.

Definition join_lobby (env : Env.t) (sid lobbyId name : string) (lobbies : Lobbies)
  : Lobbies * list Effect :=
  match lobbies !! lobbyId with
  | None =>
      if inherited lobbyId
      then (* [!lobby] is false, and [lobby.status] is [undefined] *)
        (lobbies, [callback (error "Game already in progress")])
      else (lobbies, [callback (error "Lobby not found")])
  | Some lobby =>
      if negb (Status.eqb (Lobby.status lobby) Status.lobby)
      then (lobbies, [callback (error "Game already in progress")])
      else
        let players := Lobby.players lobby in
        let finalName := uniqueName (length players) players name name 1 in
        let player :=
          Player.mk sid finalName None (generateAttributes env) false None
            (1000 + Env.randomQ env 7 * 100 - 50)%Q
            (1000 + Env.randomQ env 8 * 100 - 50)%Q
            (default EmptyString
               (PLAYER_COLORS !! (length players mod length PLAYER_COLORS)))
            false in
        let lobby := Lobby.with_players (players ++ [player]) lobby in
        (<[lobbyId := lobby]> lobbies,
         [callback (joined lobbyId sid); to_room lobbyId (lobby_update lobby)])
  end.

(** [lobby.players[0].isHost = true]. *)
Definition promoteFirst (players : list Player.t) : list Player.t :=
  alter (Player.with_isHost true) 0 players.

Definition leave_lobby (sid lobbyId : string) (lobbies : Lobbies)
  : Lobbies * list Effect :=
  match lobbies !! lobbyId with
  | None =>
      if inherited lobbyId
      then (* [lobby.players] is [undefined]: [.findIndex] throws *)
        (lobbies, [type_error])
      else (lobbies, [])
  | Some lobby =>
      match findIndex (Player.has_id sid) (Lobby.players lobby) with
      | None => (lobbies, [])
      | Some playerIndex =>
          let players := delete playerIndex (Lobby.players lobby) in
          if length players =? 0
          then (delete lobbyId lobbies, [to_socket left_lobby])
          else
            let players :=
              if Status.eqb (Lobby.status lobby) Status.lobby
              then promoteFirst players else players in
            let lobby := Lobby.with_players players lobby in
            (<[lobbyId := lobby]> lobbies,
             [to_socket left_lobby; to_room lobbyId (lobby_update lobby)])
      end
  end.

(** The body of the loop of [disconnect] for one lobby: the lobby that
    remains ([None] when it is deleted) and what is broadcast. *)
Definition disconnect_lobby (sid : string) (lobby : Lobby.t)
  : option Lobby.t * list Event :=
  match findIndex (Player.has_id sid) (Lobby.players lobby) with
  | None => (Some lobby, [])
  | Some playerIndex =>
      if Status.eqb (Lobby.status lobby) Status.lobby then
        let players := delete playerIndex (Lobby.players lobby) in
        if length players =? 0 then (None, [])
        else
          let lobby := Lobby.with_players (promoteFirst players) lobby in
          (Some lobby, [lobby_update lobby])
      else (Some lobby, [])
  end.

(** [for (const lobbyId in lobbies)]: every lobby is treated on its own;
    the broadcasts come in the enumeration order of the registry. *)
Definition disconnect (sid : string) (lobbies : Lobbies) : Lobbies * list Effect :=
  (omap (λ lobby, fst (disconnect_lobby sid lobby)) lobbies,
   flat_map (λ '(lobbyId, lobby), to_room lobbyId <$> snd (disconnect_lobby sid lobby))
     (map_to_list lobbies)).

(** ** Handlers: game start and movement *)

(** [lobby.players.find(p => p.id === socket.id)?.isHost] as a condition. *)
Definition callerIsHost (sid : string) (lobby : Lobby.t) : bool :=
  match List.find (Player.has_id sid) (Lobby.players lobby) with
  | Some p => Player.isHost p
  | None => false
  end.

(** The assignments of [start_game], in program order. *)
Definition start_game_steps (env : Env.t) (lobby : Lobby.t) : list (Lobby.t → Lobby.t) :=
  [ (λ l, Lobby.with_players (assignRoles env (Lobby.players l)) l);
    Lobby.with_tasks
      (generateTasks (Env.skip (assignRolesCalls (Lobby.players lobby)) env));
    Lobby.with_status Status.playing;
    Lobby.with_startTime (Some (Env.now env 0));
    Lobby.with_endTime (Some (Env.now env 1 + 5 * 60 * 1000)%Z) ].

(** The states a lobby goes through under a list of assignments. *)
Fixpoint trace (steps : list (Lobby.t → Lobby.t)) (l : Lobby.t) : list Lobby.t :=
  match steps with
  | [] => [l]
  | f :: steps' => l :: trace steps' (f l)
  end.

Definition run (steps : list (Lobby.t → Lobby.t)) (l : Lobby.t) : Lobby.t :=
  foldl (λ l f, f l) l steps.

Definition start_game (env : Env.t) (sid lobbyId : string) (lobbies : Lobbies)
  : Lobbies * list Effect :=
  match lobbies !! lobbyId with
  | None =>
      if inherited lobbyId
      then (* [lobby.players] is [undefined]: [.find] throws *)
        (lobbies, [type_error])
      else (lobbies, [])
  | Some lobby =>
      if callerIsHost sid lobby then
        if length (Lobby.players lobby) <? 3 then (lobbies, [])
        else
          let lobby := run (start_game_steps env lobby) lobby in
          (<[lobbyId := lobby]> lobbies,
           [to_room lobbyId (game_started lobby);
            set_timeout lobbyId (5 * 60 * 1000)%Z])
      else (lobbies, [])
  end.

(** The callback scheduled by [start_game]. *)
Definition timeout (lobbyId : string) (lobbies : Lobbies) : Lobbies * list Effect :=
  match lobbies !! lobbyId with
  | None => (lobbies, [])
  | Some lobby =>
      if Status.eqb (Lobby.status lobby) Status.playing then
        let lobby := Lobby.with_status Status.discussion lobby in
        (<[lobbyId := lobby]> lobbies, [to_room lobbyId (lobby_update lobby)])
      else (lobbies, [])
  end.

Definition move (sid lobbyId : string) (x y : Q) (lobbies : Lobbies)
  : Lobbies * list Effect :=
  match lobbies !! lobbyId with
  | None => (lobbies, [])
  | Some lobby =>
      if Status.eqb (Lobby.status lobby) Status.playing then
        match List.find (Player.has_id sid) (Lobby.players lobby) with
        | None => (lobbies, [])
        | Some _ =>
            let players :=
              updateFirst (Player.has_id sid) (Player.with_position x y)
                (Lobby.players lobby) in
            (<[lobbyId := Lobby.with_players players lobby]> lobbies,
             [to_others lobbyId (player_moved sid x y)])
        end
      else (lobbies, [])
  end.

(** ** Handlers: tasks and clues *)

(** [task.completed = true], for the task found for [taskId]. *)
Definition completeTask (taskId : string) (lobby : Lobby.t) : Lobby.t :=
  Lobby.with_tasks
    (updateFirst (GameTask.has_id taskId) (GameTask.with_completed true)
       (Lobby.tasks lobby))
    lobby.

Definition task_completed (env : Env.t) (sid lobbyId taskId : string) (lobbies : Lobbies)
  : Lobbies * list Effect :=
  match lobbies !! lobbyId with
  | None => (lobbies, [])
  | Some lobby =>
      if Status.eqb (Lobby.status lobby) Status.playing then
        match List.find (GameTask.has_id taskId) (Lobby.tasks lobby) with
        | None => (lobbies, [])
        | Some task =>
            if negb (GameTask.completed task) then
              let lobby := completeTask taskId lobby in
              match List.find (Player.has_id sid) (Lobby.players lobby) with
              | None => (<[lobbyId := lobby]> lobbies, [])
              | Some player =>
                  let isTampered := Player.is_killer player in
                  match generateClue env lobby isTampered with
                  | None => (* an exception ends the handler; not reached,
                               the lobby has a player *)
                      (<[lobbyId := lobby]> lobbies, [])
                  | Some clueText =>
                      let clue :=
                        Clue.mk (Env.uuidv4 env 0) clueText isTampered (Player.id player) in
                      let lobby := Lobby.with_clues (Lobby.clues lobby ++ [clue]) lobby in
                      (<[lobbyId := lobby]> lobbies,
                       [to_room lobbyId (task_update (Lobby.tasks lobby));
                        to_room lobbyId (clue_found (Lobby.clues lobby))])
                  end
              end
            else (lobbies, [])
        end
      else (lobbies, [])
  end.

(** [xs.includes(s)]. *)
Definition includes (s : string) (xs : list string) : bool :=
  existsb (String.eqb s) xs.

Definition lock_task (sid lobbyId taskId : string) (lobbies : Lobbies)
  : Lobbies * list Effect :=
  match lobbies !! lobbyId with
  | None => (lobbies, [])
  | Some lobby =>
      if Status.eqb (Lobby.status lobby) Status.playing then
        match List.find (GameTask.has_id taskId) (Lobby.tasks lobby) with
        | None => (lobbies, [])
        | Some task =>
            if negb (includes sid (GameTask.lockedFor task)) then
              let tasks :=
                updateFirst (GameTask.has_id taskId)
                  (λ k, GameTask.with_lockedFor (GameTask.lockedFor k ++ [sid]) k)
                  (Lobby.tasks lobby) in
              (<[lobbyId := Lobby.with_tasks tasks lobby]> lobbies,
               [to_room lobbyId (task_update tasks)])
            else (lobbies, [])
        end
      else (lobbies, [])
  end.

(** The positions in [xs], counted from [i], of the elements that
    [xs.filter(f)] keeps.  The filtered array holds the very objects of
    [xs], so that a write to its k-th element is a write to [xs] at the
    k-th of these positions. *)
Fixpoint filterIndices {A : Type} (f : A → bool) (i : nat) (xs : list A) : list nat :=
  match xs with
  | [] => []
  | x :: xs' =>
      if f x then i :: filterIndices f (S i) xs' else filterIndices f (S i) xs'
  end.

(** [c.foundBy === targetPlayerId && !c.isTampered]. *)
Definition stealable (targetPlayerId : string) (c : Clue.t) : bool :=
  String.eqb (Clue.foundBy c) targetPlayerId && negb (Clue.isTampered c).

Definition steal_clue (env : Env.t) (sid lobbyId targetPlayerId : string)
    (lobbies : Lobbies) : Lobbies * list Effect :=
  match lobbies !! lobbyId with
  | None => (lobbies, [callback (error "Game not active")])
  | Some lobby =>
      if negb (Status.eqb (Lobby.status lobby) Status.playing)
      then (lobbies, [callback (error "Game not active")])
      else
        match List.find (Player.has_id sid) (Lobby.players lobby) with
        | None => (lobbies, [callback (error "Only the killer can do this")])
        | Some thief =>
            if negb (Player.is_killer thief)
            then (lobbies, [callback (error "Only the killer can do this")])
            else if Player.hasStolenClue thief
            then (lobbies, [callback (error "Already used steal ability")])
            else
              match List.find (Player.has_id targetPlayerId) (Lobby.players lobby) with
              | None => (lobbies, [callback (error "Target not found")])
              | Some target =>
                  let targetClues :=
                    filterIndices (stealable targetPlayerId) 0 (Lobby.clues lobby) in
                  (* thief.hasStolenClue = true *)
                  let players :=
                    updateFirst (Player.has_id sid) (Player.with_hasStolenClue true)
                      (Lobby.players lobby) in
                  if 0 <? length targetClues then
                    match randomElement (Env.random env 0) targetClues with
                    | None => (* not reached: [targetClues] is not empty *)
                        (lobbies, [])
                    | Some clue =>
                        let clues :=
                          alter (Clue.with_isTampered true) clue (Lobby.clues lobby) in
                        let lobby :=
                          Lobby.with_players players (Lobby.with_clues clues lobby) in
                        (<[lobbyId := lobby]> lobbies,
                         [to_room lobbyId (clue_found (Lobby.clues lobby));
                          to_room lobbyId (lobby_update lobby);
                          callback (message
                            ("Clue from " +:+ Player.name target +:+ " tampered!"))])
                    end
                  else
                    match generateClue env lobby true with
                    | None => (* an exception ends the handler; not reached,
                                 the lobby has a player *)
                        (lobbies, [])
                    | Some fakeClueText =>
                        let clue :=
                          Clue.mk (Env.uuidv4 env 0) fakeClueText true targetPlayerId in
                        let lobby :=
                          Lobby.with_players players
                            (Lobby.with_clues (Lobby.clues lobby ++ [clue]) lobby) in
                        (<[lobbyId := lobby]> lobbies,
                         [to_room lobbyId (clue_found (Lobby.clues lobby));
                          to_room lobbyId (lobby_update lobby);
                          callback (message
                            ("Fake clue planted on " +:+ Player.name target +:+ "!"))])
                    end
              end
        end
  end.

(** ** Handlers: voting and the final guess *)

(** What the [votes] object holds under a key: a count, or the string that
    [+ 1] makes of a function or an object. *)
Inductive Stored := number (n : nat) | text.

(** [(votes[k] || 0) + 1], where [own] is the own property of [votes]
    under [k], if it has one: without it [votes[k]] is [undefined], or for
    an inherited name a function or an object, and adding 1 to that is a
    string concatenation, as is adding 1 to the string. *)
Definition bumped (k : string) (own : option Stored) : Stored :=
  match own with
  | Some (number n) => number (n + 1)
  | Some text => text
  | None => if inherited k then text else number (0 + 1)
  end.

(** [votes[k] = v] for a key other than [__proto__]; the properties of
    [votes] are kept in insertion order. *)
Fixpoint assign (k : string) (v : Stored) (votes : list (string * Stored))
  : list (string * Stored) :=
  match votes with
  | [] => [(k, v)]
  | (k', v') :: votes' =>
      if String.eqb k' k then (k', v) :: votes'
      else (k', v') :: assign k v votes'
  end.

(** [votes[k] = (votes[k] || 0) + 1].  Under [__proto__] the assignment
    calls the inherited setter with a string, which does nothing. *)
Definition increment (k : string) (votes : list (string * Stored))
  : list (string * Stored) :=
  if String.eqb k "__proto__" then votes
  else assign k (bumped k (property k votes)) votes.

(** The [forEach] that fills [votes]. *)
Definition tallyStep (votes : list (string * Stored)) (p : Player.t)
  : list (string * Stored) :=
  match Player.votedFor p with
  | Some v => if truthy (Some v) then increment v votes else votes
  | None => votes
  end.

Definition tally (players : list Player.t) : list (string * Stored) :=
  foldl tallyStep [] players.

(** The state [(maxVotes, suspectedId, tie)] of the scan of
    [Object.entries(votes)], and one iteration of its loop. *)
Definition Scan : Type := nat * option string * bool.

Definition scanStep (st : Scan) (entry : string * Stored) : Scan :=
  let '(maxVotes, suspectedId, tie) := st in
  match entry with
  | (id, number count) =>
      if maxVotes <? count then (count, Some id, false)
      else if count =? maxVotes then (maxVotes, suspectedId, true)
      else st
  | (id, text) =>
      (* [count > maxVotes] compares NaN, and [count === maxVotes] a string
         with a number: both are false *)
      st
  end.

Definition scan (votes : list (string * Stored)) : Scan :=
  foldl scanStep (0, None, false) votes.

(** [suspectedId !== killer?.id], between a [string | null] and a
    [string | undefined]. *)
Definition differs (suspectedId : option string) (killer : option Player.t) : bool :=
  match suspectedId, killer with
  | Some s, Some k => negb (String.eqb s (Player.id k))
  | _, _ => true
  end.

(** The resolution, run once every player has a truthy [votedFor]. *)
Definition resolve (lobby : Lobby.t) : Lobby.t :=
  let votes := tally (Lobby.players lobby) in
  let '(maxVotes, suspectedId, tie) := scan votes in
  let killer := List.find Player.is_killer (Lobby.players lobby) in
  if tie || differs suspectedId killer
  then Lobby.with_status Status.game_over (Lobby.with_winner (Some Winner.killer) lobby)
  else Lobby.with_status Status.witness_guessing lobby.

(** [player.votedFor = targetPlayerId], for the player found for [sid]. *)
Definition recordVote (sid targetPlayerId : string) (lobby : Lobby.t) : Lobby.t :=
  Lobby.with_players
    (updateFirst (Player.has_id sid) (Player.with_votedFor (Some targetPlayerId))
       (Lobby.players lobby))
    lobby.

Definition vote (sid lobbyId targetPlayerId : string) (lobbies : Lobbies)
  : Lobbies * list Effect :=
  match lobbies !! lobbyId with
  | None => (lobbies, [])
  | Some lobby =>
      if Status.eqb (Lobby.status lobby) Status.voting then
        match List.find (Player.has_id sid) (Lobby.players lobby) with
        | None => (lobbies, [])
        | Some _ =>
            let lobby := recordVote sid targetPlayerId lobby in
            if every (λ p, truthy (Player.votedFor p)) (Lobby.players lobby) then
              let resolved := resolve lobby in
              (<[lobbyId := resolved]> lobbies,
               [to_room lobbyId (lobby_update lobby);
                to_room lobbyId (lobby_update resolved)])
            else
              (<[lobbyId := lobby]> lobbies, [to_room lobbyId (lobby_update lobby)])
        end
      else (lobbies, [])
  end.

Definition guess_witness (sid lobbyId targetPlayerId : string) (lobbies : Lobbies)
  : Lobbies * list Effect :=
  match lobbies !! lobbyId with
  | None => (lobbies, [])
  | Some lobby =>
      if Status.eqb (Lobby.status lobby) Status.witness_guessing then
        match List.find (Player.has_id sid) (Lobby.players lobby) with
        | None => (lobbies, [])
        | Some player =>
            if Player.is_killer player then
              let target :=
                List.find (Player.has_id targetPlayerId) (Lobby.players lobby) in
              let winner :=
                match target with
                | Some t => if Player.is_witness t then Winner.killer
                            else Winner.investigators
                | None => Winner.investigators
                end in
              let lobby :=
                Lobby.with_status Status.game_over
                  (Lobby.with_winner (Some winner) lobby) in
              (<[lobbyId := lobby]> lobbies, [to_room lobbyId (lobby_update lobby)])
            else (lobbies, [])
        end
      else (lobbies, [])
  end.

Definition start_voting (sid lobbyId : string) (lobbies : Lobbies)
  : Lobbies * list Effect :=
  match lobbies !! lobbyId with
  | None => (lobbies, [])
  | Some lobby =>
      if Status.eqb (Lobby.status lobby) Status.discussion then
        if callerIsHost sid lobby then
          let lobby := Lobby.with_status Status.voting lobby in
          (<[lobbyId := lobby]> lobbies, [to_room lobbyId (lobby_update lobby)])
        else (lobbies, [])
      else (lobbies, [])
  end.

(** ** The server as a transition system *)

(** What a connection can send, plus the firing of a timer. *)
Inductive Request :=
| req_create_lobby (name : string)
| req_join_lobby (lobbyId name : string)
| req_leave_lobby (lobbyId : string)
| req_start_game (lobbyId : string)
| req_move (lobbyId : string) (x y : Q)
| req_task_completed (lobbyId taskId : string)
| req_lock_task (lobbyId taskId : string)
| req_steal_clue (lobbyId targetPlayerId : string)
| req_vote (lobbyId targetPlayerId : string)
| req_guess_witness (lobbyId targetPlayerId : string)
| req_start_voting (lobbyId : string)
| req_disconnect
| req_timeout (lobbyId : string).

Definition handle (env : Env.t) (sid : string) (req : Request) (lobbies : Lobbies)
  : Lobbies * list Effect :=
  match req with
  | req_create_lobby name => create_lobby env sid name lobbies
  | req_join_lobby lobbyId name => join_lobby env sid lobbyId name lobbies
  | req_leave_lobby lobbyId => leave_lobby sid lobbyId lobbies
  | req_start_game lobbyId => start_game env sid lobbyId lobbies
  | req_move lobbyId x y => move sid lobbyId x y lobbies
  | req_task_completed lobbyId taskId => task_completed env sid lobbyId taskId lobbies
  | req_lock_task lobbyId taskId => lock_task sid lobbyId taskId lobbies
  | req_steal_clue lobbyId targetPlayerId =>
      steal_clue env sid lobbyId targetPlayerId lobbies
  | req_vote lobbyId targetPlayerId => vote sid lobbyId targetPlayerId lobbies
  | req_guess_witness lobbyId targetPlayerId =>
      guess_witness sid lobbyId targetPlayerId lobbies
  | req_start_voting lobbyId => start_voting sid lobbyId lobbies
  | req_disconnect => disconnect sid lobbies
  | req_timeout lobbyId => timeout lobbyId lobbies
  end.

Inductive reachable : Lobbies → Prop :=
| reachable_init : reachable ∅
| reachable_step env sid req lobbies :
    reachable lobbies → reachable (handle env sid req lobbies).1.

(** ** Notions used to state the properties *)

(** The multiset the specification fixes for [n] players. *)
Definition expectedRoles (n : nat) : list Role.t :=
  if n =? 3 then [Role.killer; Role.witness; Role.investigator]
  else [Role.killer; Role.witness; Role.forensics] ++ repeat Role.investigator (n - 3).

Definition countRole (r : Role.t) (players : list Player.t) : nat :=
  length (List.filter (λ p, bool_decide (Player.role p = Some r)) players).

(** The number of players whose recorded vote is [id]. *)
Definition votesFor (id : string) (players : list Player.t) : nat :=
  length (List.filter (λ p, bool_decide (Player.votedFor p = Some id)) players).

(** The votes the tally counts for [id]: none for the empty string, and
    none for the name of an inherited member. *)
Definition counted (id : string) (players : list Player.t) : nat :=
  if String.eqb id EmptyString || inherited id then 0 else votesFor id players.

(** [a] is a plurality target: it has a vote and nobody has more. *)
Definition isTop (players : list Player.t) (a : string) : Prop :=
  0 < votesFor a players ∧ ∀ b, votesFor b players ≤ votesFor a players.

(** There is a tie for the top count. *)
Definition tied (players : list Player.t) : Prop :=
  ∃ a b, a ≠ b ∧ isTop players a ∧ isTop players b.

(** No tie, and the plurality target is the killer's id. *)
Definition accusationHits (players : list Player.t) : Prop :=
  ¬ tied players ∧
  ∃ k, List.find Player.is_killer players = Some k ∧ isTop players (Player.id k).

(** Every player has a vote that is neither [null] nor the empty string. *)
Definition allVoted (players : list Player.t) : Prop :=
  ∀ p, p ∈ players → ∃ v, Player.votedFor p = Some v ∧ v ≠ EmptyString.

(** No recorded vote is for the name of a member that objects inherit
    from [Object.prototype]. *)
Definition plainVotes (players : list Player.t) : Prop :=
  ∀ p v, p ∈ players → Player.votedFor p = Some v → inherited v = false.

(** [text] is a clue the synthesizer can derive from [attributes]. *)
Definition describes (attributes : Attributes.t) (text : string) : Prop :=
  ∃ env, clueFor env attributes = Some text.

(** The player a clue is drawn from when the draw of [generateClue] finds
    nobody: [lobby.players[0]]. *)
Definition firstPlayer (lobby : Lobby.t) : option Player.t := head (Lobby.players lobby).

(** The ids of the players of a lobby, in order. *)
Definition playerIds (lobby : Lobby.t) : list string :=
  Player.id <$> Lobby.players lobby.

(** No two players of a lobby have the same id. *)
Definition uniqueIds (lobbies : Lobbies) : Prop :=
  ∀ code lobby, lobbies !! code = Some lobby → NoDup (playerIds lobby).

(** A join is fresh when the connection is not yet a player of the lobby. *)
Definition freshJoin (sid : string) (req : Request) (lobbies : Lobbies) : Prop :=
  match req with
  | req_join_lobby lobbyId _ =>
      ∀ lobby, lobbies !! lobbyId = Some lobby →
               List.find (Player.has_id sid) (Lobby.players lobby) = None
  | _ => True
  end.

(** The states reached when every join is fresh. *)
Inductive reachableFresh : Lobbies → Prop :=
| reachableFresh_init : reachableFresh ∅
| reachableFresh_step env sid req lobbies :
    reachableFresh lobbies →
    freshJoin sid req lobbies →
    reachableFresh (handle env sid req lobbies).1.

(** The number of players marked as host. *)
Definition hostCount (players : list Player.t) : nat :=
  length (List.filter Player.isHost players).

(** ** The steps of a lobby

    What a single request does to one lobby of the registry, read off the
    handlers branch by branch. *)

(** The lobby stored by [create_lobby]. *)
Definition newLobby (env : Env.t) (sid name : string) : Lobby.t :=
  Lobby.mk (Env.randomCode env 0) Status.lobby
    [Player.mk sid name None (generateAttributes (Env.skip 1 env)) true None
       1000%Q 1000%Q (default EmptyString (PLAYER_COLORS !! 0)) false]
    [] [] None None None.

(** The player pushed by [join_lobby]. *)
Definition joiner (env : Env.t) (sid name : string) (lobby : Lobby.t) : Player.t :=
  Player.mk sid
    (uniqueName (length (Lobby.players lobby)) (Lobby.players lobby) name name 1)
    None (generateAttributes env) false None
    (1000 + Env.randomQ env 7 * 100 - 50)%Q
    (1000 + Env.randomQ env 8 * 100 - 50)%Q
    (default EmptyString
       (PLAYER_COLORS !! (length (Lobby.players lobby) mod length PLAYER_COLORS)))
    false.

(** The players left when the one at [playerIndex] goes: the first of them
    is made host while the lobby is in status [lobby]. *)
Definition afterDeparture (playerIndex : nat) (lobby : Lobby.t) : list Player.t :=
  if Status.eqb (Lobby.status lobby) Status.lobby
  then promoteFirst (delete playerIndex (Lobby.players lobby))
  else delete playerIndex (Lobby.players lobby).

Inductive LobbyStep (sid : string) : Request → Lobby.t → Lobby.t → Prop :=
| step_join env lobbyId name l :
    Lobby.status l = Status.lobby →
    LobbyStep sid (req_join_lobby lobbyId name) l
      (Lobby.with_players (Lobby.players l ++ [joiner env sid name l]) l)
| step_leave lobbyId l i :
    findIndex (Player.has_id sid) (Lobby.players l) = Some i →
    delete i (Lobby.players l) ≠ [] →
    LobbyStep sid (req_leave_lobby lobbyId) l
      (Lobby.with_players (afterDeparture i l) l)
| step_disconnect l i :
    findIndex (Player.has_id sid) (Lobby.players l) = Some i →
    Lobby.status l = Status.lobby →
    delete i (Lobby.players l) ≠ [] →
    LobbyStep sid req_disconnect l (Lobby.with_players (afterDeparture i l) l)
| step_start_game env lobbyId l :
    callerIsHost sid l = true →
    3 ≤ length (Lobby.players l) →
    LobbyStep sid (req_start_game lobbyId) l (run (start_game_steps env l) l)
| step_timeout lobbyId l :
    Lobby.status l = Status.playing →
    LobbyStep sid (req_timeout lobbyId) l (Lobby.with_status Status.discussion l)
| step_move lobbyId x y l :
    Lobby.status l = Status.playing →
    is_Some (List.find (Player.has_id sid) (Lobby.players l)) →
    LobbyStep sid (req_move lobbyId x y) l
      (Lobby.with_players
         (updateFirst (Player.has_id sid) (Player.with_position x y) (Lobby.players l)) l)
| step_task_flag lobbyId taskId l task :
    Lobby.status l = Status.playing →
    List.find (GameTask.has_id taskId) (Lobby.tasks l) = Some task →
    GameTask.completed task = false →
    List.find (Player.has_id sid) (Lobby.players l) = None →
    LobbyStep sid (req_task_completed lobbyId taskId) l (completeTask taskId l)
| step_task_clue lobbyId taskId l task player clue :
    Lobby.status l = Status.playing →
    List.find (GameTask.has_id taskId) (Lobby.tasks l) = Some task →
    GameTask.completed task = false →
    List.find (Player.has_id sid) (Lobby.players l) = Some player →
    Clue.isTampered clue = Player.is_killer player →
    Clue.foundBy clue = Player.id player →
    LobbyStep sid (req_task_completed lobbyId taskId) l
      (Lobby.with_clues (Lobby.clues l ++ [clue]) (completeTask taskId l))
| step_lock_task lobbyId taskId l task :
    Lobby.status l = Status.playing →
    List.find (GameTask.has_id taskId) (Lobby.tasks l) = Some task →
    includes sid (GameTask.lockedFor task) = false →
    LobbyStep sid (req_lock_task lobbyId taskId) l
      (Lobby.with_tasks
         (updateFirst (GameTask.has_id taskId)
            (λ k, GameTask.with_lockedFor (GameTask.lockedFor k ++ [sid]) k)
            (Lobby.tasks l)) l)
| step_steal_tamper lobbyId target l thief i c :
    Lobby.status l = Status.playing →
    List.find (Player.has_id sid) (Lobby.players l) = Some thief →
    Player.is_killer thief = true →
    Player.hasStolenClue thief = false →
    Lobby.clues l !! i = Some c →
    stealable target c = true →
    LobbyStep sid (req_steal_clue lobbyId target) l
      (Lobby.with_players
         (updateFirst (Player.has_id sid) (Player.with_hasStolenClue true)
            (Lobby.players l))
         (Lobby.with_clues (<[i := Clue.with_isTampered true c]> (Lobby.clues l)) l))
| step_steal_plant lobbyId target l thief clue :
    Lobby.status l = Status.playing →
    List.find (Player.has_id sid) (Lobby.players l) = Some thief →
    Player.is_killer thief = true →
    Player.hasStolenClue thief = false →
    Clue.isTampered clue = true →
    Clue.foundBy clue = target →
    LobbyStep sid (req_steal_clue lobbyId target) l
      (Lobby.with_players
         (updateFirst (Player.has_id sid) (Player.with_hasStolenClue true)
            (Lobby.players l))
         (Lobby.with_clues (Lobby.clues l ++ [clue]) l))
| step_vote lobbyId target l :
    Lobby.status l = Status.voting →
    is_Some (List.find (Player.has_id sid) (Lobby.players l)) →
    every (λ p, truthy (Player.votedFor p)) (Lobby.players (recordVote sid target l))
      = false →
    LobbyStep sid (req_vote lobbyId target) l (recordVote sid target l)
| step_vote_resolve lobbyId target l :
    Lobby.status l = Status.voting →
    is_Some (List.find (Player.has_id sid) (Lobby.players l)) →
    every (λ p, truthy (Player.votedFor p)) (Lobby.players (recordVote sid target l))
      = true →
    LobbyStep sid (req_vote lobbyId target) l (resolve (recordVote sid target l))
| step_guess_witness lobbyId target l killer winner :
    Lobby.status l = Status.witness_guessing →
    List.find (Player.has_id sid) (Lobby.players l) = Some killer →
    Player.is_killer killer = true →
    LobbyStep sid (req_guess_witness lobbyId target) l
      (Lobby.with_status Status.game_over (Lobby.with_winner (Some winner) l))
| step_start_voting lobbyId l :
    Lobby.status l = Status.discussion →
    callerIsHost sid l = true →
    LobbyStep sid (req_start_voting lobbyId) l (Lobby.with_status Status.voting l).

(** The lobby a request is addressed to; [create_lobby] and [disconnect]
    name none. *)
Definition addressee (req : Request) : option string :=
  match req with
  | req_create_lobby _ | req_disconnect => None
  | req_join_lobby lobbyId _ | req_leave_lobby lobbyId | req_start_game lobbyId
  | req_move lobbyId _ _ | req_task_completed lobbyId _ | req_lock_task lobbyId _
  | req_steal_clue lobbyId _ | req_vote lobbyId _ | req_guess_witness lobbyId _
  | req_start_voting lobbyId | req_timeout lobbyId => Some lobbyId
  end.

(** How the lobby [l'] found under [code] after a request relates to the
    registry before it: it was there unchanged, it was just created, or it
    comes from the lobby under [code] by a step of the request. *)
Definition Acts (env : Env.t) (sid : string) (req : Request) (lobbies : Lobbies)
    (code : string) (l' : Lobby.t) : Prop :=
  lobbies !! code = Some l' ∨
  (∃ name, req = req_create_lobby name ∧ code = Env.randomCode env 0 ∧
           l' = newLobby env sid name) ∨
  (∃ l, lobbies !! code = Some l ∧ LobbyStep sid req l l' ∧
        (∀ lobbyId, addressee req = Some lobbyId → lobbyId = code)).

(** The arrows of the status diagram. *)
Definition arrow (a b : Status.t) : bool :=
  match a, b with
  | Status.lobby, Status.playing
  | Status.playing, Status.discussion
  | Status.discussion, Status.voting
  | Status.voting, Status.witness_guessing
  | Status.voting, Status.game_over
  | Status.witness_guessing, Status.game_over => true
  | _, _ => false
  end.

(** The names of the players of a lobby, in order. *)
Definition playerNames (lobby : Lobby.t) : list string :=
  Player.name <$> Lobby.players lobby.

(** What every lobby of the registry satisfies; [code] is its key. *)
Record WellFormed (code : string) (l : Lobby.t) : Prop := {
  wf_id : Lobby.id l = code;
  wf_players : Lobby.players l ≠ [];
  wf_names : NoDup (playerNames l);
  wf_hosts : hostCount (Lobby.players l) ≤ 1;
  wf_host_first :
    Lobby.status l = Status.lobby →
    ∃ p ps, Lobby.players l = p :: ps ∧ Player.isHost p = true;
  wf_no_roles :
    Lobby.status l = Status.lobby → ∀ p, p ∈ Lobby.players l → Player.role p = None;
  wf_roles :
    Lobby.status l ≠ Status.lobby →
    ∀ p, p ∈ Lobby.players l → is_Some (Player.role p);
  wf_killer : countRole Role.killer (Lobby.players l) ≤ 1;
  wf_witness : countRole Role.witness (Lobby.players l) ≤ 1;
  wf_winner : Lobby.status l = Status.game_over → is_Some (Lobby.winner l);
  wf_before_start :
    Lobby.status l = Status.lobby →
    Lobby.tasks l = [] ∧ Lobby.clues l = [] ∧ Lobby.winner l = None ∧
    Lobby.startTime l = None;
  wf_tasks : Lobby.status l ≠ Status.lobby → length (Lobby.tasks l) = 15;
  wf_locked : ∀ task, task ∈ Lobby.tasks l → NoDup (GameTask.lockedFor task)
}.

(** The registry after a sequence of requests, each with the connection
    that sends it and the environment it runs in. *)
Definition handleAll (reqs : list (Env.t * string * Request)) (lobbies : Lobbies)
  : Lobbies :=
  foldl (λ lobbies '(env, sid, req), (handle env sid req lobbies).1) lobbies reqs.

(** The game is under way and the accusation has not begun. *)
Definition beforeVote (s : Status.t) : bool :=
  match s with
  | Status.playing | Status.discussion => true
  | _ => false
  end.

(** What identifies a player to the others: the connection id, the name,
    the attributes and the colour. *)
Definition identity (p : Player.t) : string * string * Attributes.t * string :=
  (Player.id p, Player.name p, Player.attributes p, Player.color p).

(** ** Sample data *)

Module Sample.
Definition env : Env.t :=
  Env.mk (λ k, k) (λ _, 0%Q) (λ _, "ABC123") (λ k, "uuid-" +:+ pretty k) (λ _, 0%Z).

Definition attrsA : Attributes.t :=
  Attributes.mk "Left" "Black" "Boots" "Plain" "Teacher" ("5'7" +:+ doubleQuote) "Hat".
Definition attrsB : Attributes.t :=
  Attributes.mk "Right" "Red" "Loafers" "Camo" "Pilot" ("6'1" +:+ doubleQuote) "None".
Definition attrsC : Attributes.t :=
  Attributes.mk "Right" "Gray" "Sneakers" "Plaid" "Chef" ("4'11" +:+ doubleQuote) "Watch".

Definition player (id : string) (role : option Role.t) (attributes : Attributes.t)
    (isHost : bool) (votedFor : option string) : Player.t :=
  Player.mk id id role attributes isHost votedFor 1000%Q 1000%Q "#ef4444" false.

Definition lobbyOf (status : Status.t) (players : list Player.t)
    (clues : list Clue.t) (tasks : list GameTask.t) : Lobby.t :=
  Lobby.mk "ROOM" status players clues tasks None None None.

Definition only (lobby : Lobby.t) : Lobbies := {[ "ROOM" := lobby ]}.

(** Three players waiting in the lobby, [a] the host. *)
Definition waiting : Lobby.t :=
  lobbyOf Status.lobby
    [player "a" None attrsA true None; player "b" None attrsB false None;
     player "c" None attrsC false None] [] [].

(** Four players in the vote, [A] the killer; [D] has not voted yet. *)
Definition lastVote : Lobby.t :=
  lobbyOf Status.voting
    [player "A" (Some Role.killer) attrsA true (Some "B");
     player "B" (Some Role.witness) attrsB false (Some "A");
     player "C" (Some Role.investigator) attrsC false (Some "A");
     player "D" (Some Role.forensics) attrsB false None] [] [].

(** The same, with every vote so far on [B]. *)
Definition missVote : Lobby.t :=
  lobbyOf Status.voting
    [player "A" (Some Role.killer) attrsA true (Some "B");
     player "B" (Some Role.witness) attrsB false (Some "B");
     player "C" (Some Role.investigator) attrsC false (Some "B");
     player "D" (Some Role.forensics) attrsB false None] [] [].



Definition task1 : GameTask.t := GameTask.mk "t1" 300 400 TaskType.wordle false [].
Definition task2 : GameTask.t := GameTask.mk "t2" 500 600 TaskType.taxi_jam true [].

Definition playerA : Player.t := player "A" (Some Role.killer) attrsA true None.
Definition playerB : Player.t := player "B" (Some Role.witness) attrsB false None.
Definition playerC : Player.t := player "C" (Some Role.investigator) attrsC false None.

(** A game in progress: [t1] is open, [t2] is completed. *)
Definition playing3 : Lobby.t :=
  lobbyOf Status.playing [playerA; playerB; playerC] [] [task1; task2].

(** The same game after the killer has left it. *)
Definition killerGone : Lobby.t :=
  lobbyOf Status.playing [playerB; playerC] [] [task1; task2].

Definition clueB : Clue.t := Clue.mk "c1" "Midnight" false "B".
Definition clueC : Clue.t := Clue.mk "c2" "Tall" true "C".

(** A game in progress with one truthful clue found by [B] and one
    tampered clue attributed to [C]. *)
Definition withClues : Lobby.t :=
  lobbyOf Status.playing [playerA; playerB; playerC] [clueB; clueC] [task1; task2].

(** A run of the server: [a] creates a lobby, [b] and [c] join it under
    the same name, and [a] starts the game. *)
Definition afterCreate : Lobbies :=
  (handle env "a" (req_create_lobby "Alex") ∅).1.
Definition afterJoins : Lobbies :=
  (handle env "c" (req_join_lobby "ABC123" "Alex")
     (handle env "b" (req_join_lobby "ABC123" "Alex") afterCreate).1).1.
Definition afterStart : Lobbies :=
  (handle env "a" (req_start_game "ABC123") afterJoins).1.

(** A game that is over, [a] still the host. *)
Definition finished : Lobby.t :=
  Lobby.mk "ROOM" Status.game_over
    [player "a" (Some Role.killer) attrsA true (Some "b");
     player "b" (Some Role.witness) attrsB false (Some "a");
     player "c" (Some Role.investigator) attrsC false (Some "a")]
    [clueB] [task1; task2] (Some 0%Z) None (Some Winner.investigators).

(** The accusation hit the killer [A], who now names the witness. *)
Definition guessing : Lobby.t :=
  lobbyOf Status.witness_guessing
    [player "A" (Some Role.killer) attrsA true (Some "B");
     player "B" (Some Role.witness) attrsB false (Some "A");
     player "C" (Some Role.investigator) attrsC false (Some "A")] [] [].
End Sample.

(** * Properties *)

(** ** Generic facts on the array helpers *)

Lemma floorRandom_lt r n : 0 < n → floorRandom r n < n.
Proof.
  destruct n as [|n]; [lia|]. intros _. unfold floorRandom.
  apply Nat.mod_upper_bound. lia.
Qed.

Lemma randomElement_is_Some {A : Type} r (xs : list A) :
  xs ≠ [] → is_Some (randomElement r xs).
Proof.
  intros Hne. unfold randomElement. apply lookup_lt_is_Some.
  apply floorRandom_lt. destruct xs; [done | simpl; lia].
Qed.

Lemma randomElement_elem {A : Type} r (xs : list A) x :
  randomElement r xs = Some x → x ∈ xs.
Proof. unfold randomElement. apply list_elem_of_lookup_2. Qed.

Lemma find_updateFirst_length {A : Type} (f : A → bool) g (xs : list A) :
  length (updateFirst f g xs) = length xs.
Proof. induction xs as [|x xs IH]; simpl; [done|]. destruct (f x); simpl; congruence. Qed.

Lemma findIndex_Some {A : Type} (f : A → bool) (xs : list A) i :
  findIndex f xs = Some i →
  ∃ x, xs !! i = Some x ∧ f x = true ∧ List.find f xs = Some x.
Proof.
  revert i. induction xs as [|x xs IH]; intros i; simpl; [done|].
  destruct (f x) eqn:Hfx.
  - intros [= <-]. eauto.
  - destruct (findIndex f xs) as [j|]; simpl; [|done].
    intros [= <-]. destruct (IH j eq_refl) as (y & ? & ? & ?). eauto.
Qed.

Lemma findIndex_None {A : Type} (f : A → bool) (xs : list A) :
  findIndex f xs = None → List.find f xs = None.
Proof.
  induction xs as [|x xs IH]; simpl; [done|].
  destruct (f x); [done|]. destruct (findIndex f xs); simpl; [done | auto].
Qed.

Lemma find_is_Some_findIndex {A : Type} (f : A → bool) (xs : list A) x :
  List.find f xs = Some x → is_Some (findIndex f xs).
Proof.
  intros Hf. destruct (findIndex f xs) eqn:Hi; [eauto|].
  apply findIndex_None in Hi. congruence.
Qed.

(** ** Role assignment *)

Section roles.

Lemma swap_Permutation {A : Type} i j (xs : list A) : swap i j xs ≡ₚ xs.
Proof.
  unfold swap. destruct (xs !! j) as [a|] eqn:Hj; [|done].
  destruct (xs !! i) as [b|] eqn:Hi; [|done].
  by apply Permutation_insert_swap.
Qed.

Lemma shuffle_Permutation env i roles : shuffle env i roles ≡ₚ roles.
Proof.
  revert env roles. induction i as [|i IH]; intros env roles; simpl; [done|].
  rewrite IH. apply swap_Permutation.
Qed.

Lemma rolePool_length n : 3 ≤ n → length (rolePool n) = n.
Proof.
  intros Hn. unfold rolePool. destruct (4 <=? n) eqn:H4.
  - apply Nat.leb_le in H4. rewrite length_app, repeat_length. simpl. lia.
  - apply Nat.leb_gt in H4. rewrite length_app, repeat_length. simpl. lia.
Qed.

Lemma rolePool_expected n : 3 ≤ n → rolePool n ≡ₚ expectedRoles n.
Proof.
  intros Hn. unfold rolePool, expectedRoles.
  destruct (4 <=? n) eqn:H4.
  - apply Nat.leb_le in H4.
    replace (n =? 3) with false by (symmetry; apply Nat.eqb_neq; lia).
    replace (n - 3) with (S (n - 4)) by lia. simpl.
    do 2 constructor. apply perm_swap.
  - apply Nat.leb_gt in H4. assert (n = 3) as -> by lia. done.
Qed.

Lemma shuffledRoles_length env n : 3 ≤ n → length (shuffledRoles env n) = n.
Proof.
  intros Hn. unfold shuffledRoles.
  rewrite (Permutation_length (shuffle_Permutation _ _ _)).
  by apply rolePool_length.
Qed.

Lemma assignRoles_roles env players :
  3 ≤ length players →
  Player.role <$> assignRoles env players = Some <$> shuffledRoles env (length players).
Proof.
  intros Hn. unfold assignRoles.
  pose proof (shuffledRoles_length env _ Hn) as Hlen.
  apply list_eq. intros i.
  rewrite !list_lookup_fmap, list_lookup_imap.
  destruct (players !! i) as [p|] eqn:Hp; simpl.
  - destruct (shuffledRoles env (length players) !! i) eqn:Hr; [done|].
    apply lookup_lt_Some in Hp. apply lookup_ge_None in Hr. lia.
  - apply lookup_ge_None in Hp.
    rewrite (proj2 (lookup_ge_None _ _)); [done | lia].
Qed.

Lemma assignRoles_length env players :
  length (assignRoles env players) = length players.
Proof. unfold assignRoles. apply length_imap. Qed.

Lemma countRole_count_occ r players :
  countRole r players = count_occ (decide_rel (=)) (Player.role <$> players) (Some r).
Proof.
  unfold countRole. induction players as [|p ps IH]; [done|].
  rewrite fmap_cons. cbn [List.filter count_occ]. rewrite <- IH.
  unfold bool_decide, decide_rel.
  destruct (option_eq_dec (Player.role p) (Some r)); reflexivity.
Qed.

Lemma count_occ_expected r n :
  3 ≤ n →
  count_occ (decide_rel (=)) (Some <$> expectedRoles n) (Some r) =
  match r with
  | Role.killer | Role.witness => 1
  | Role.forensics => if n =? 3 then 0 else 1
  | Role.investigator => if n =? 3 then 1 else n - 3
  end.
Proof.
  intros Hn. unfold expectedRoles. destruct (n =? 3) eqn:H3.
  - destruct r; reflexivity.
  - assert (∀ k, count_occ (decide_rel (=))
               (Some <$> repeat Role.investigator k) (Some r)
             = if bool_decide (r = Role.investigator) then k else 0) as Hrep.
    { induction k as [|k IH]; [by case_bool_decide|].
      cbn [repeat]. rewrite fmap_cons. cbn [count_occ]. rewrite IH.
      destruct r; repeat case_bool_decide; repeat case_decide; congruence. }
    rewrite fmap_app, count_occ_app, Hrep.
    destruct r; cbn; repeat case_decide; try congruence;
      case_bool_decide; try congruence; lia.
Qed.

End roles.

(** C2.  When the host starts a game with at least three players, the
    handler stores the game under the lobby code with status [playing];
    the roles of its players, in order, are those given by [assignRoles]
    and form a permutation of the multiset fixed by the player count
    (killer, witness, investigator for three players; killer, witness,
    forensics and [n - 3] investigators for [n >= 4]); exactly one player
    is the killer and at most one the witness; and in the sequence of
    assignments of the handler the roles are in place from the first
    state on, while the status changes to [playing] only at the third. *)
Theorem start_game_assigns_roles env sid lobbyId (lobbies : Lobbies) lobby :
  lobbies !! lobbyId = Some lobby →
  callerIsHost sid lobby = true →
  3 ≤ length (Lobby.players lobby) →
  ∃ lobby',
    (start_game env sid lobbyId lobbies).1 !! lobbyId = Some lobby' ∧
    Lobby.status lobby' = Status.playing ∧
    Lobby.players lobby' = assignRoles env (Lobby.players lobby) ∧
    (Player.role <$> Lobby.players lobby')
      ≡ₚ (Some <$> expectedRoles (length (Lobby.players lobby))) ∧
    countRole Role.killer (Lobby.players lobby') = 1 ∧
    countRole Role.witness (Lobby.players lobby') ≤ 1 ∧
    (∀ i s, trace (start_game_steps env lobby) lobby !! i = Some s →
       (1 ≤ i → Lobby.players s = Lobby.players lobby') ∧
       (i < 3 → Lobby.status s = Lobby.status lobby) ∧
       (3 ≤ i → Lobby.status s = Status.playing)).
Proof.
  intros Hlobby Hhost Hn.
  assert ((Player.role <$> assignRoles env (Lobby.players lobby))
            ≡ₚ (Some <$> expectedRoles (length (Lobby.players lobby)))) as Hperm.
  { rewrite assignRoles_roles by done. apply fmap_Permutation.
    unfold shuffledRoles. rewrite shuffle_Permutation. by apply rolePool_expected. }
  exists (run (start_game_steps env lobby) lobby).
  split; [|split; [|split; [|split; [|split; [|split]]]]].
  - unfold start_game. rewrite Hlobby, Hhost.
    destruct (length (Lobby.players lobby) <? 3) eqn:Hlt.
    + apply Nat.ltb_lt in Hlt. lia.
    + cbn [fst]. apply lookup_insert_eq.
  - reflexivity.
  - reflexivity.
  - exact Hperm.
  - cbn [run start_game_steps foldl Lobby.players Lobby.with_players
         Lobby.with_tasks Lobby.with_status Lobby.with_startTime Lobby.with_endTime].
    rewrite countRole_count_occ.
    rewrite (proj1 (Permutation_count_occ _ _ _) Hperm).
    by rewrite count_occ_expected.
  - cbn [run start_game_steps foldl Lobby.players Lobby.with_players
         Lobby.with_tasks Lobby.with_status Lobby.with_startTime Lobby.with_endTime].
    rewrite countRole_count_occ.
    rewrite (proj1 (Permutation_count_occ _ _ _) Hperm).
    by rewrite count_occ_expected.
  - intros i s Hs.
    do 6 (destruct i as [|i]; [injection Hs as <-; repeat split; intros; (lia || reflexivity)|]).
    done.
Qed.

Lemma start_game_assigns_roles_witness :
  (Sample.only Sample.waiting !! "ROOM" = Some Sample.waiting ∧
   callerIsHost "a" Sample.waiting = true ∧
   3 ≤ length (Lobby.players Sample.waiting)) ∧
  ∃ lobby',
    (start_game Sample.env "a" "ROOM" (Sample.only Sample.waiting)).1 !! "ROOM"
      = Some lobby' ∧
    Lobby.status lobby' = Status.playing ∧
    Lobby.players lobby' = assignRoles Sample.env (Lobby.players Sample.waiting) ∧
    (Player.role <$> Lobby.players lobby')
      ≡ₚ (Some <$> expectedRoles (length (Lobby.players Sample.waiting))) ∧
    countRole Role.killer (Lobby.players lobby') = 1 ∧
    countRole Role.witness (Lobby.players lobby') ≤ 1 ∧
    (∀ i s, trace (start_game_steps Sample.env Sample.waiting) Sample.waiting !! i
              = Some s →
       (1 ≤ i → Lobby.players s = Lobby.players lobby') ∧
       (i < 3 → Lobby.status s = Lobby.status Sample.waiting) ∧
       (3 ≤ i → Lobby.status s = Status.playing)).
Proof.
  split; [split_and!; [reflexivity | reflexivity | simpl; lia]|].
  apply (start_game_assigns_roles Sample.env "a" "ROOM"
           (Sample.only Sample.waiting) Sample.waiting).
  - reflexivity.
  - reflexivity.
  - simpl. lia.
Defined.

(** ** Vote resolution *)

Section voting.

Ltac string_cases :=
  repeat match goal with
  | |- context [String.eqb ?a ?b] => destruct (String.eqb_spec a b)
  | H : context [String.eqb ?a ?b] |- _ => destruct (String.eqb_spec a b)
  end.

Lemma property_assign k k' v (votes : list (string * Stored)) :
  property k' (assign k v votes) =
  if decide (k = k') then Some v else property k' votes.
Proof.
  induction votes as [|[k0 v0] votes IH]; simpl.
  - string_cases; case_decide; simplify_eq; done.
  - string_cases; simpl; string_cases; simplify_eq; try rewrite IH;
      case_decide; simplify_eq; done.
Qed.

Lemma assign_keys k v (votes : list (string * Stored)) :
  (assign k v votes).*1 = if decide (k ∈ votes.*1) then votes.*1 else votes.*1 ++ [k].
Proof.
  induction votes as [|[k0 v0] votes IH].
  - rewrite decide_False; [done | set_solver].
  - cbn [assign]. string_cases; rewrite !fmap_cons; cbn [fst].
    + rewrite decide_True; [done | set_solver].
    + rewrite IH. destruct (decide (k ∈ votes.*1)).
      * rewrite decide_True; [done | set_solver].
      * rewrite decide_False; [done | set_solver].
Qed.

Lemma increment_NoDup k (votes : list (string * Stored)) :
  NoDup votes.*1 → NoDup (increment k votes).*1.
Proof.
  intros Hnd. unfold increment. destruct (String.eqb k "__proto__"); [done|].
  rewrite assign_keys. case_decide; [done|].
  apply NoDup_app. split_and!; [done | set_solver | apply NoDup_singleton].
Qed.

Lemma property_elem {A : Type} k (n : A) (votes : list (string * A)) :
  NoDup votes.*1 → (k, n) ∈ votes ↔ property k votes = Some n.
Proof.
  induction votes as [|[k0 n0] votes IH]; simpl; intros Hnd.
  - split; [by intros ?%elem_of_nil | done].
  - apply NoDup_cons in Hnd as [Hk0 Hnd]. string_cases; subst.
    + split.
      * intros [?|Hin]%elem_of_cons; [by simplify_eq|].
        exfalso. apply Hk0. apply list_elem_of_fmap. by exists (k, n).
      * intros [= ->]. left.
    + rewrite <- (IH Hnd). split.
      * intros [?|Hin]%elem_of_cons; [by simplify_eq | done].
      * by right.
Qed.

Lemma votesFor_cons id p players :
  votesFor id (p :: players) =
  (if decide (Player.votedFor p = Some id) then 1 else 0) + votesFor id players.
Proof.
  unfold votesFor. cbn [List.filter]. unfold bool_decide.
  destruct (decide_rel eq (Player.votedFor p) (Some id)) as [?|?];
    case_decide; simpl; congruence.
Qed.

(** One iteration of the [forEach], seen from the key [k]. *)
Lemma property_tallyStep k acc p :
  property k (tallyStep acc p) =
  if decide (Player.votedFor p = Some k ∧ k ≠ EmptyString ∧ k ≠ "__proto__")
  then Some (bumped k (property k acc))
  else property k acc.
Proof.
  unfold tallyStep, truthy. destruct (Player.votedFor p) as [v|] eqn:Hv.
  - destruct (String.eqb_spec v EmptyString) as [->|Hne]; simpl.
    { case_decide as Hk; [|done]. destruct Hk as ([= <-] & ? & _). done. }
    unfold increment. destruct (String.eqb_spec v "__proto__") as [->|Hproto].
    { case_decide as Hk; [|done]. destruct Hk as ([= <-] & _ & ?). done. }
    rewrite property_assign. destruct (decide (v = k)) as [->|Hvk].
    + by rewrite decide_True.
    + rewrite decide_False; [done|]. intros ([= ?] & _). done.
  - rewrite decide_False; [done|]. by intros [? _].
Qed.

(** The [forEach], seen from the key [k]: one [+ 1] for every vote for
    [k] that gets to the assignment. *)
Lemma property_foldl_tallyStep k acc players :
  property k (foldl tallyStep acc players) =
  Nat.iter
    (if String.eqb k EmptyString || String.eqb k "__proto__" then 0
     else votesFor k players)
    (λ own, Some (bumped k own)) (property k acc).
Proof.
  revert acc. induction players as [|p ps IH]; intros acc.
  { simpl. by destruct (_ || _). }
  cbn [foldl]. rewrite IH, property_tallyStep, votesFor_cons.
  destruct (String.eqb_spec k EmptyString) as [->|Hne]; simpl.
  { rewrite decide_False; [done|]. by intros (_ & ? & _). }
  destruct (String.eqb_spec k "__proto__") as [->|Hproto]; simpl.
  { rewrite decide_False; [done|]. by intros (_ & _ & ?). }
  destruct (decide (Player.votedFor p = Some k)) as [Hp|Hp].
  - rewrite decide_True by done. simpl.
    apply (Nat.iter_swap _ _ (λ own, Some (bumped k own))).
  - rewrite decide_False; [done|]. by intros [? _].
Qed.

Lemma iter_bumped k c :
  Nat.iter (S c) (λ own, Some (bumped k own)) None =
  Some (if inherited k then text else number (S c)).
Proof.
  induction c as [|c IH].
  - simpl. by destruct (inherited k).
  - rewrite Nat.iter_succ, IH. simpl. destruct (inherited k); [done|].
    do 2 f_equal. lia.
Qed.

Lemma foldl_tallyStep_NoDup acc players :
  NoDup acc.*1 → NoDup (foldl tallyStep acc players).*1.
Proof.
  revert acc. induction players as [|p ps IH]; intros acc Hnd; [done|].
  cbn [foldl]. apply IH. unfold tallyStep.
  destruct (Player.votedFor p); [|done].
  destruct (truthy _); [by apply increment_NoDup | done].
Qed.

Lemma tally_NoDup players : NoDup (tally players).*1.
Proof. apply foldl_tallyStep_NoDup. simpl. constructor. Qed.

(** What the tally holds under a key that has a vote: nothing for the
    empty string and for [__proto__], a string for the other inherited
    names, and the number of votes for any other key. *)
Lemma tally_elem k v players :
  (k, v) ∈ tally players ↔
  k ≠ EmptyString ∧ k ≠ "__proto__" ∧ 0 < votesFor k players ∧
  v = if inherited k then text else number (votesFor k players).
Proof.
  rewrite property_elem by apply tally_NoDup.
  unfold tally. rewrite property_foldl_tallyStep. simpl.
  destruct (String.eqb_spec k EmptyString) as [->|Hne]; simpl.
  { split; [done | by intros (? & _)]. }
  destruct (String.eqb_spec k "__proto__") as [->|Hproto]; simpl.
  { split; [done | by intros (_ & ? & _)]. }
  destruct (votesFor k players) as [|c] eqn:Hc.
  { simpl. split; [done | intros (_ & _ & ? & _); lia]. }
  rewrite iter_bumped. split.
  - intros [= <-]. split_and!; [done | done | lia | done].
  - by intros (_ & _ & _ & ->).
Qed.

(** The counts of the tally: for every id with a counted vote, the number
    of its votes. *)
Lemma tally_number k n players :
  (k, number n) ∈ tally players ↔ n = counted k players ∧ 0 < n.
Proof.
  rewrite tally_elem. unfold counted.
  destruct (String.eqb_spec k EmptyString) as [->|Hne]; simpl.
  { split; [by intros (? & _) | lia]. }
  destruct (inherited k) eqn:Hk.
  - split; [by intros (_ & _ & _ & ?) | lia].
  - split.
    + intros (_ & _ & ? & [= ->]). done.
    + intros [-> ?]. split_and!; try done. intros ->. done.
Qed.

(** The strings of the tally sit under inherited names. *)
Lemma tally_text k players :
  (k, text) ∈ tally players → inherited k = true ∧ 0 < votesFor k players.
Proof.
  rewrite tally_elem. intros (_ & _ & ? & Hv). split; [|done].
  by destruct (inherited k).
Qed.

Lemma scan_snoc votes entry : scan (votes ++ [entry]) = scanStep (scan votes) entry.
Proof. unfold scan. by rewrite foldl_app. Qed.

(** What the scan leaves in [(maxVotes, suspectedId, tie)]: it sees the
    counts and passes over the strings. *)
Lemma scan_spec (votes : list (string * Stored)) maxVotes suspectedId tie :
  NoDup votes.*1 →
  (∀ k n, (k, number n) ∈ votes → 0 < n) →
  scan votes = (maxVotes, suspectedId, tie) →
  ((∀ k n, (k, number n) ∉ votes) ∧
   maxVotes = 0 ∧ suspectedId = None ∧ tie = false) ∨
  (∃ k, suspectedId = Some k ∧ (k, number maxVotes) ∈ votes ∧
        (∀ k' n', (k', number n') ∈ votes → n' ≤ maxVotes) ∧
        (tie = true ↔ ∃ k', k' ≠ k ∧ (k', number maxVotes) ∈ votes)).
Proof.
  revert maxVotes suspectedId tie.
  induction votes as [|[k2 v2] votes IH] using rev_ind;
    intros maxVotes suspectedId tie Hnd Hpos Hscan.
  { left. injection Hscan as <- <- <-. split; [|done].
    intros k n. apply not_elem_of_nil. }
  rewrite fmap_app in Hnd. apply NoDup_app in Hnd as (Hnd & Hfresh & _).
  assert (∀ v, (k2, v) ∉ votes) as Hk2.
  { intros v Hin. apply (Hfresh k2); [|set_solver].
    apply list_elem_of_fmap. by exists (k2, v). }
  rewrite scan_snoc in Hscan.
  destruct (scan votes) as [[m s] t] eqn:Hsv.
  specialize (IH m s t Hnd).
  destruct v2 as [n2|].
  2: { (* a string: the scan passes over it *)
    simpl in Hscan. injection Hscan as <- <- <-.
    assert (∀ k n, (k, number n) ∈ votes ++ [(k2, text)] ↔ (k, number n) ∈ votes)
      as Hsame.
    { intros k n. rewrite elem_of_app, list_elem_of_singleton. naive_solver. }
    destruct IH as [(Hno & -> & -> & ->) | (k & -> & Hk & Hmax & Htie)];
      [intros k n ?; apply (Hpos k n); by apply Hsame | done | |].
    - left. split; [|done]. intros k n. rewrite Hsame. apply Hno.
    - right. exists k. split_and!; [done | by apply Hsame | |].
      + intros k' n' ?%Hsame. by apply (Hmax k').
      + rewrite Htie. by setoid_rewrite Hsame. }
  assert (0 < n2) as Hn2 by (apply (Hpos k2); set_solver).
  assert (∀ k n, (k, number n) ∈ votes ++ [(k2, number n2)] ↔
                 (k, number n) ∈ votes ∨ (k = k2 ∧ n = n2)) as Hin.
  { intros k n. rewrite elem_of_app, list_elem_of_singleton. naive_solver. }
  right.
  destruct IH as [(Hno & -> & -> & ->) | (k & -> & Hk & Hmax & Htie)];
    [intros k n ?; apply (Hpos k n); set_solver | done | |].
  - (* the first count *)
    simpl in Hscan. destruct n2 as [|n2]; [lia|]. simpl in Hscan.
    injection Hscan as <- <- <-.
    exists k2. split_and!; [done | apply Hin; by right | |].
    + intros k' n' [?%Hno | [_ ->]]%Hin; [done | lia].
    + split; [done|]. intros (k' & Hne & [?%Hno | [? _]]%Hin); done.
  - assert (0 < m) as Hm by (apply (Hpos k); set_solver).
    unfold scanStep in Hscan.
    destruct (m <? n2) eqn:Hlt; [|destruct (n2 =? m) eqn:Heq];
      injection Hscan as <- <- <-.
    + apply Nat.ltb_lt in Hlt. exists k2. split_and!; [done | apply Hin; by right | |].
      * intros k' n' [Hin'|[_ ->]]%Hin; [apply Hmax in Hin'; lia | lia].
      * split; [done|]. intros (k' & Hne & [Hin'|[? _]]%Hin); [|done].
        apply Hmax in Hin'. lia.
    + apply Nat.eqb_eq in Heq. subst n2.
      exists k. split_and!; [done | apply Hin; by left | |].
      * intros k' n' [Hin'|[_ ->]]%Hin; [by apply Hmax in Hin' | lia].
      * split; [intros _|done]. exists k2. split; [|apply Hin; by right].
        intros ->. by apply (Hk2 (number m)).
    + apply Nat.ltb_ge in Hlt. apply Nat.eqb_neq in Heq.
      exists k. split_and!; [done | apply Hin; by left | |].
      * intros k' n' [Hin'|[_ ->]]%Hin; [by apply Hmax in Hin' | lia].
      * rewrite Htie. split; intros (k' & Hne & Hin'); exists k'; (split; [done|]).
        -- apply Hin. by left.
        -- apply Hin in Hin' as [?|[_ ?]]; [done | lia].
Qed.

End voting.

Section resolution.

Lemma every_truthy_allVoted players :
  every (λ p, truthy (Player.votedFor p)) players = true ↔ allVoted players.
Proof.
  unfold every, allVoted. rewrite forallb_forall. split.
  - intros H p Hp. specialize (H p (proj1 (list_elem_of_In _ _) Hp)).
    unfold truthy in H. destruct (Player.votedFor p) as [v|]; [|done].
    exists v. split; [done|]. intros ->. done.
  - intros H p Hp. destruct (H p (proj2 (list_elem_of_In _ _) Hp)) as (v & -> & Hv).
    simpl. by destruct (String.eqb_spec v EmptyString).
Qed.

Lemma every_plainVotes players :
  every (λ p, match Player.votedFor p with
              | Some v => negb (inherited v)
              | None => true
              end) players = true →
  plainVotes players.
Proof.
  unfold every. rewrite forallb_forall. intros H p v Hp Hv.
  specialize (H p (proj1 (list_elem_of_In _ _) Hp)). rewrite Hv in H.
  by destruct (inherited v).
Qed.

Lemma votesFor_pos id players :
  0 < votesFor id players ↔ ∃ p, p ∈ players ∧ Player.votedFor p = Some id.
Proof.
  induction players as [|p ps IH].
  - split; [unfold votesFor; simpl; lia | intros (p & ?%elem_of_nil & _); done].
  - rewrite votesFor_cons. case_decide as Hp.
    + split; [|lia]. intros _. exists p. split; [left | done].
    + simpl. rewrite IH. split.
      * intros (q & ? & ?). exists q. split; [by right | done].
      * intros (q & [->|?]%elem_of_cons & ?); [done | eauto].
Qed.

Lemma allVoted_counted players id :
  allVoted players → plainVotes players →
  counted id players = votesFor id players.
Proof.
  intros Hall Hplain. unfold counted.
  destruct (votesFor id players) eqn:H0; [by destruct (_ || _)|].
  assert (0 < votesFor id players) as (p & Hp & Hv)%votesFor_pos by lia.
  destruct (Hall p Hp) as (v & ? & ?). assert (v = id) as -> by congruence.
  rewrite (Hplain p id Hp Hv).
  by destruct (String.eqb_spec id EmptyString).
Qed.

(** The scan of the tally finds a plurality target, and raises [tie]
    exactly when there is a tie for the top count. *)
Lemma scan_tally players maxVotes suspectedId tie :
  players ≠ [] →
  allVoted players →
  plainVotes players →
  scan (tally players) = (maxVotes, suspectedId, tie) →
  ∃ k, suspectedId = Some k ∧ isTop players k ∧
       (tie = true ↔ tied players) ∧
       (tie = false → ∀ a, isTop players a → a = k).
Proof.
  intros Hne Hall Hplain Hscan.
  assert (∀ k n, (k, number n) ∈ tally players ↔ n = votesFor k players ∧ 0 < n)
    as Helem.
  { intros k n. rewrite tally_number. by rewrite allVoted_counted. }
  destruct (scan_spec _ _ _ _ (tally_NoDup players)
              (λ k n H, proj2 (proj1 (Helem k n) H)) Hscan)
    as [(Hno & _) | (k & -> & Hk & Hmax & Htie)].
  { destruct players as [|p ps]; [done|].
    destruct (Hall p) as (v & Hv & _); [left|].
    destruct (Hno v (votesFor v (p :: ps))).
    apply Helem. split; [done|]. apply votesFor_pos. exists p. split; [left | done]. }
  apply Helem in Hk as [-> Hpos].
  assert (isTop players k) as Htop.
  { split; [done|]. intros b.
    destruct (votesFor b players) eqn:Hb; [lia|].
    apply (Hmax b). apply Helem. lia. }
  assert (∀ a, isTop players a → votesFor a players = votesFor k players) as Hsame.
  { intros a [_ Ha]. destruct Htop as [_ Hk]. specialize (Ha k). specialize (Hk a). lia. }
  assert (tie = true ↔ tied players) as Htied.
  { rewrite Htie. split.
    - intros (k' & Hne' & Hin). apply Helem in Hin as [Heq _].
      exists k', k. split_and!; [done | | done].
      split; [lia|]. intros b. rewrite <- Heq. apply Htop.
    - intros (a & b & Hab & Ha & Hb).
      destruct (decide (a = k)) as [->|Hak].
      + exists b. split; [done|]. apply Helem. rewrite (Hsame b Hb). split; [done|lia].
      + exists a. split; [done|]. apply Helem. rewrite (Hsame a Ha). split; [done|lia]. }
  exists k. split_and!; [done | done | done |].
  intros -> a Ha. destruct (decide (a = k)) as [|Hak]; [done|].
  assert (false = true); [|done]. apply Htied. exists a, k. done.
Qed.

(** The handler's resolution against the rule of the specification. *)
Lemma resolve_spec lobby :
  Lobby.players lobby ≠ [] →
  allVoted (Lobby.players lobby) →
  plainVotes (Lobby.players lobby) →
  (accusationHits (Lobby.players lobby) →
     resolve lobby = Lobby.with_status Status.witness_guessing lobby) ∧
  (¬ accusationHits (Lobby.players lobby) →
     resolve lobby =
     Lobby.with_status Status.game_over (Lobby.with_winner (Some Winner.killer) lobby)).
Proof.
  intros Hne Hall Hplain. unfold resolve.
  destruct (scan (tally (Lobby.players lobby))) as [[m s] t] eqn:Hscan.
  destruct (scan_tally _ _ _ _ Hne Hall Hplain Hscan)
    as (k & -> & Htop & Htie & Huniq).
  destruct t; simpl.
  - split; [|done]. intros [Hnt _]. destruct Hnt. by apply Htie.
  - assert (¬ tied (Lobby.players lobby)) as Hnt.
    { intros Ht. apply Htie in Ht. done. }
    destruct (List.find Player.is_killer (Lobby.players lobby)) as [k0|] eqn:Hk0; simpl.
    + destruct (String.eqb_spec k (Player.id k0)) as [->|Hk]; simpl.
      * split; [done|]. intros Hno. destruct Hno. split; [done|]. eauto.
      * split; [|done]. intros (_ & k1 & Heq & Htop1).
        assert (k1 = k0) as -> by congruence.
        destruct Hk. symmetry. by apply Huniq.
    + split; [|done]. intros (_ & k1 & ? & _). congruence.
Qed.

Lemma recordVote_players_nonempty sid target lobby p :
  List.find (Player.has_id sid) (Lobby.players lobby) = Some p →
  Lobby.players (recordVote sid target lobby) ≠ [].
Proof.
  unfold recordVote. simpl. destruct (Lobby.players lobby) as [|q qs]; [done|].
  simpl. by destruct (Player.has_id sid q).
Qed.

(** The two ways the handler can end once the vote is recorded. *)
Lemma vote_unfold sid lobbyId target (lobbies : Lobbies) lobby :
  lobbies !! lobbyId = Some lobby →
  Lobby.status lobby = Status.voting →
  is_Some (List.find (Player.has_id sid) (Lobby.players lobby)) →
  (vote sid lobbyId target lobbies).1 =
  <[lobbyId :=
      if every (λ p, truthy (Player.votedFor p))
           (Lobby.players (recordVote sid target lobby))
      then resolve (recordVote sid target lobby)
      else recordVote sid target lobby]> lobbies.
Proof.
  intros Hl Hst [p Hp]. unfold vote. rewrite Hl, Hst, Hp. simpl.
  by destruct (every _ _).
Qed.

End resolution.

(** C1.  In a lobby in status [voting], when after the caller's vote is
    recorded every player has a vote that is neither null nor the empty
    string nor the name of a member inherited from [Object.prototype], the
    handler tallies the votes by target id (the tally holds the number of
    votes of every id that has one, and nothing else) and resolves: with
    no tie for the top count and the killer's id as plurality target the
    status becomes [witness_guessing] (the winner stays as it was); with a
    tie for the top count, or a plurality target that is not the killer,
    the status becomes [game_over] and the winner the killer. *)
Theorem vote_resolution sid lobbyId target (lobbies : Lobbies) lobby :
  lobbies !! lobbyId = Some lobby →
  Lobby.status lobby = Status.voting →
  is_Some (List.find (Player.has_id sid) (Lobby.players lobby)) →
  allVoted (Lobby.players (recordVote sid target lobby)) →
  plainVotes (Lobby.players (recordVote sid target lobby)) →
  ∃ lobby',
    (vote sid lobbyId target lobbies).1 !! lobbyId = Some lobby' ∧
    Lobby.players lobby' = Lobby.players (recordVote sid target lobby) ∧
    (∀ id n, (id, number n) ∈ tally (Lobby.players lobby') ↔
             n = votesFor id (Lobby.players lobby') ∧ 0 < n) ∧
    (∀ id, (id, text) ∉ tally (Lobby.players lobby')) ∧
    (accusationHits (Lobby.players lobby') →
       Lobby.status lobby' = Status.witness_guessing ∧
       Lobby.winner lobby' = Lobby.winner lobby) ∧
    (¬ accusationHits (Lobby.players lobby') →
       Lobby.status lobby' = Status.game_over ∧
       Lobby.winner lobby' = Some Winner.killer).
Proof.
  intros Hl Hst [p Hp] Hall Hplain.
  rewrite (vote_unfold _ _ _ _ lobby) by eauto.
  rewrite (proj2 (every_truthy_allVoted _) Hall).
  exists (resolve (recordVote sid target lobby)).
  pose proof (recordVote_players_nonempty sid target lobby p Hp) as Hne.
  destruct (resolve_spec _ Hne Hall Hplain) as [Hhit Hmiss].
  assert (Lobby.players (resolve (recordVote sid target lobby))
          = Lobby.players (recordVote sid target lobby)) as Hplayers.
  { unfold resolve. destruct (scan _) as [[? ?] ?]. by destruct (_ || _). }
  rewrite Hplayers. split_and!.
  - apply lookup_insert_eq.
  - done.
  - intros id n. rewrite tally_number. by rewrite allVoted_counted.
  - intros id [Hid (q & Hq & Hv)%votesFor_pos]%tally_text.
    rewrite (Hplain q id Hq Hv) in Hid. done.
  - intros H. by rewrite (Hhit H).
  - intros H. by rewrite (Hmiss H).
Qed.

Lemma vote_resolution_witness :
  (Sample.only Sample.lastVote !! "ROOM" = Some Sample.lastVote ∧
   allVoted (Lobby.players (recordVote "D" "C" Sample.lastVote)) ∧
   plainVotes (Lobby.players (recordVote "D" "C" Sample.lastVote))) ∧
  ∃ lobby',
    (vote "D" "ROOM" "C" (Sample.only Sample.lastVote)).1 !! "ROOM" = Some lobby' ∧
    Lobby.players lobby' = Lobby.players (recordVote "D" "C" Sample.lastVote) ∧
    (∀ id n, (id, number n) ∈ tally (Lobby.players lobby') ↔
             n = votesFor id (Lobby.players lobby') ∧ 0 < n) ∧
    (∀ id, (id, text) ∉ tally (Lobby.players lobby')) ∧
    (accusationHits (Lobby.players lobby') →
       Lobby.status lobby' = Status.witness_guessing ∧
       Lobby.winner lobby' = Lobby.winner Sample.lastVote) ∧
    (¬ accusationHits (Lobby.players lobby') →
       Lobby.status lobby' = Status.game_over ∧
       Lobby.winner lobby' = Some Winner.killer).
Proof.
  assert (allVoted (Lobby.players (recordVote "D" "C" Sample.lastVote))) as Hall.
  { apply every_truthy_allVoted. reflexivity. }
  assert (plainVotes (Lobby.players (recordVote "D" "C" Sample.lastVote))) as Hplain.
  { apply every_plainVotes. reflexivity. }
  split; [split_and!; [reflexivity | exact Hall | exact Hplain]|].
  apply (vote_resolution "D" "ROOM" "C" (Sample.only Sample.lastVote) Sample.lastVote).
  - reflexivity.
  - reflexivity.
  - eexists. reflexivity.
  - exact Hall.
  - exact Hplain.
Defined.

(** The two cases named by the specification: votes A:2, B:1, C:1 with A
    the killer, and votes A:2, B:2 with A the killer. *)
Example vote_plurality_on_killer :
  Lobby.status <$> (vote "D" "ROOM" "C" (Sample.only Sample.lastVote)).1 !! "ROOM"
  = Some Status.witness_guessing.
Proof. reflexivity. Qed.

Example vote_tie_with_killer :
  (λ l, (Lobby.status l, Lobby.winner l))
    <$> (vote "D" "ROOM" "B" (Sample.only Sample.lastVote)).1 !! "ROOM"
  = Some (Status.game_over, Some Winner.killer).
Proof. reflexivity. Qed.

(** C1 as stated, with "non-null" as the condition on the recorded votes,
    fails: a vote for the empty string is recorded and is not null, but the
    handler does not count it as cast and leaves the lobby in [voting]. *)
Lemma vote_resolution_nonnull_counterexample :
  ¬ (∀ sid lobbyId target (lobbies : Lobbies) lobby,
       lobbies !! lobbyId = Some lobby →
       Lobby.status lobby = Status.voting →
       is_Some (List.find (Player.has_id sid) (Lobby.players lobby)) →
       (∀ p, p ∈ Lobby.players (recordVote sid target lobby) →
             Player.votedFor p ≠ None) →
       ∃ lobby',
         (vote sid lobbyId target lobbies).1 !! lobbyId = Some lobby' ∧
         (accusationHits (Lobby.players lobby') →
            Lobby.status lobby' = Status.witness_guessing) ∧
         (¬ accusationHits (Lobby.players lobby') →
            Lobby.status lobby' = Status.game_over ∧
            Lobby.winner lobby' = Some Winner.killer)).
Proof.
  intros H.
  destruct (H "D" "ROOM" EmptyString (Sample.only Sample.missVote) Sample.missVote)
    as (lobby' & Hl & _ & Hmiss).
  - reflexivity.
  - reflexivity.
  - eexists. reflexivity.
  - intros p Hp. simpl in Hp.
    repeat (apply elem_of_cons in Hp as [->|Hp]; [done|]).
    by apply elem_of_nil in Hp.
  - assert (lobby' = recordVote "D" EmptyString Sample.missVote) as ->.
    { vm_compute in Hl. injection Hl as <-. reflexivity. }
    destruct Hmiss as [Hst _]; [|discriminate Hst].
    intros (_ & k & Hk & Hpos & _).
    injection Hk as <-. vm_compute in Hpos. lia.
Qed.

Section unchecked_target.

Lemma find_updateFirst {A : Type} (f : A → bool) g (xs : list A) x :
  (∀ y, f (g y) = f y) →
  List.find f xs = Some x →
  List.find f (updateFirst f g xs) = Some (g x).
Proof.
  intros Hfg. induction xs as [|y ys IH]; simpl; [done|].
  destruct (f y) eqn:Hy; simpl.
  - intros [= <-]. by rewrite Hfg, Hy.
  - rewrite Hy. done.
Qed.


Lemma resolve_players lobby : Lobby.players (resolve lobby) = Lobby.players lobby.
Proof. unfold resolve. destruct (scan _) as [[? ?] ?]. by destruct (_ || _). Qed.


End unchecked_target.




(** ** Clues from task completions *)

Section clues.

#[local] Opaque CLUE_MAP.

Lemma clueFor_is_Some env attributes : is_Some (clueFor env attributes).
Proof.
  unfold clueFor, randomElement.
  change (length (map fst (attributeEntries attributes))) with 7.
  pose proof (floorRandom_lt (Env.random env 0) 7 ltac:(lia)) as Hlt.
  assert (∀ r val, is_Some (match property val CLUE_MAP with
                            | Some (c :: cs) => (c :: cs) !! floorRandom r (length (c :: cs))
                            | _ => Some val
                            end)) as Hphrase.
  { intros r val. destruct (property val CLUE_MAP) as [[|c cs]|]; eauto.
    apply lookup_lt_is_Some. apply floorRandom_lt. simpl. lia. }
  destruct (floorRandom (Env.random env 0) 7) as [|[|[|[|[|[|[|n]]]]]]];
    [cbn -[floorRandom]; first [apply Hphrase | eauto] ..| lia].
Qed.

(** [generateClue] returns a text whenever the lobby has a player, and the
    text is drawn from the attributes of the player it chose. *)
Lemma generateClue_spec env lobby isTampered :
  Lobby.players lobby ≠ [] →
  ∃ target text,
    generateClue env lobby isTampered = Some text ∧
    target ∈ Lobby.players lobby ∧
    describes (Player.attributes target) text ∧
    (isTampered = false →
       match List.find Player.is_killer (Lobby.players lobby) with
       | Some k => target = k
       | None => firstPlayer lobby = Some target
       end) ∧
    (isTampered = true →
       Player.is_killer target = false ∨
       ((∀ q, q ∈ Lobby.players lobby → Player.is_killer q = true) ∧
        firstPlayer lobby = Some target)).
Proof.
  intros Hne. unfold generateClue, firstPlayer.
  destruct (Lobby.players lobby) as [|p0 ps] eqn:Hps; [done|].
  destruct isTampered.
  - destruct (randomElement (Env.random env 0)
                (List.filter (λ p, negb (Player.is_killer p)) (p0 :: ps)))
      as [p|] eqn:Hpick.
    + apply randomElement_elem, list_elem_of_In, filter_In in Hpick as [Hin Hnk].
      destruct (clueFor_is_Some (Env.skip 1 env) (Player.attributes p)) as [text Htext].
      exists p, text. split_and!; [done | by apply list_elem_of_In | by eexists | done |].
      intros _. left. by destruct (Player.is_killer p).
    + destruct (clueFor_is_Some (Env.skip 1 env) (Player.attributes p0)) as [text Htext].
      exists p0, text. split_and!; [done | left | by eexists | done |].
      intros _. right. split; [|done].
      intros q Hq. destruct (Player.is_killer q) eqn:Hk; [done|].
      assert (q ∈ List.filter (λ p, negb (Player.is_killer p)) (p0 :: ps)) as Hin.
      { apply list_elem_of_In, filter_In. split; [by apply list_elem_of_In|].
        by rewrite Hk. }
      destruct (randomElement_is_Some (Env.random env 0)
                  (List.filter (λ p, negb (Player.is_killer p)) (p0 :: ps)))
        as [? ?]; [|congruence].
      intros Hnil. rewrite Hnil in Hin. by apply elem_of_nil in Hin.
  - destruct (List.find Player.is_killer (p0 :: ps)) as [k|] eqn:Hk.
    + destruct (clueFor_is_Some env (Player.attributes k)) as [text Htext].
      exists k, text. apply find_some in Hk as [Hin _].
      split_and!; [done | by apply list_elem_of_In | by eexists | done | done].
    + destruct (clueFor_is_Some env (Player.attributes p0)) as [text Htext].
      exists p0, text. split_and!; [done | left | by eexists | done | done].
Qed.

Lemma find_completeTask taskId lobby task :
  List.find (GameTask.has_id taskId) (Lobby.tasks lobby) = Some task →
  List.find (GameTask.has_id taskId) (Lobby.tasks (completeTask taskId lobby))
  = Some (GameTask.with_completed true task).
Proof. intros H. unfold completeTask. simpl. by apply find_updateFirst. Qed.

(** The handler on an open task, called by a player of the lobby. *)
Lemma task_completed_by_player env sid lobbyId taskId (lobbies : Lobbies)
    lobby task player :
  lobbies !! lobbyId = Some lobby →
  Lobby.status lobby = Status.playing →
  List.find (GameTask.has_id taskId) (Lobby.tasks lobby) = Some task →
  GameTask.completed task = false →
  List.find (Player.has_id sid) (Lobby.players lobby) = Some player →
  ∃ target text,
    generateClue env (completeTask taskId lobby) (Player.is_killer player) = Some text ∧
    target ∈ Lobby.players lobby ∧
    describes (Player.attributes target) text ∧
    (Player.is_killer player = false →
       match List.find Player.is_killer (Lobby.players lobby) with
       | Some k => target = k
       | None => firstPlayer lobby = Some target
       end) ∧
    (Player.is_killer player = true →
       Player.is_killer target = false ∨
       ((∀ q, q ∈ Lobby.players lobby → Player.is_killer q = true) ∧
        firstPlayer lobby = Some target)) ∧
    task_completed env sid lobbyId taskId lobbies =
    (let clue :=
       Clue.mk (Env.uuidv4 env 0) text (Player.is_killer player) (Player.id player) in
     let lobby' :=
       Lobby.with_clues (Lobby.clues lobby ++ [clue]) (completeTask taskId lobby) in
     (<[lobbyId := lobby']> lobbies,
      [to_room lobbyId (task_update (Lobby.tasks lobby'));
       to_room lobbyId (clue_found (Lobby.clues lobby'))])).
Proof.
  intros Hl Hst Ht Hc Hp.
  assert (Lobby.players (completeTask taskId lobby) ≠ []) as Hne.
  { simpl. destruct (Lobby.players lobby); [done|done]. }
  destruct (generateClue_spec env (completeTask taskId lobby)
              (Player.is_killer player) Hne)
    as (target & text & Hgen & Hin & Hdesc & Hfalse & Htrue).
  exists target, text. split_and!; [done | done | done | done | done |].
  unfold task_completed. rewrite Hl, Hst, Ht, Hc. simpl.
  change (Lobby.players (completeTask taskId lobby)) with (Lobby.players lobby).
  rewrite Hp, Hgen. reflexivity.
Qed.

(** The handler on an open task, called by a connection that is not a
    player of the lobby: the flag is set, and nothing else happens. *)
Lemma task_completed_by_stranger env sid lobbyId taskId (lobbies : Lobbies) lobby task :
  lobbies !! lobbyId = Some lobby →
  Lobby.status lobby = Status.playing →
  List.find (GameTask.has_id taskId) (Lobby.tasks lobby) = Some task →
  GameTask.completed task = false →
  List.find (Player.has_id sid) (Lobby.players lobby) = None →
  task_completed env sid lobbyId taskId lobbies =
  (<[lobbyId := completeTask taskId lobby]> lobbies, []).
Proof.
  intros Hl Hst Ht Hc Hp. unfold task_completed. rewrite Hl, Hst, Ht, Hc. simpl.
  change (Lobby.players (completeTask taskId lobby)) with (Lobby.players lobby).
  by rewrite Hp.
Qed.

(** The handler when there is nothing to complete. *)
Lemma task_completed_noop env sid lobbyId taskId (lobbies : Lobbies) :
  (∀ lobby task,
     lobbies !! lobbyId = Some lobby →
     Lobby.status lobby = Status.playing →
     List.find (GameTask.has_id taskId) (Lobby.tasks lobby) = Some task →
     GameTask.completed task = true) →
  task_completed env sid lobbyId taskId lobbies = (lobbies, []).
Proof.
  intros H. unfold task_completed.
  destruct (lobbies !! lobbyId) as [lobby|] eqn:Hl; [|done].
  destruct (Status.eqb (Lobby.status lobby) Status.playing) eqn:Hst; [|done].
  destruct (List.find _ (Lobby.tasks lobby)) as [task|] eqn:Ht; [|done].
  rewrite (H lobby task); [done | done | by destruct (Lobby.status lobby) | done].
Qed.

(** Whatever the first call did, a second call on the same task id finds
    nothing to complete. *)
Lemma task_completed_twice env1 env2 sid1 sid2 lobbyId taskId (lobbies : Lobbies) :
  task_completed env2 sid2 lobbyId taskId
    (task_completed env1 sid1 lobbyId taskId lobbies).1
  = ((task_completed env1 sid1 lobbyId taskId lobbies).1, []).
Proof.
  apply task_completed_noop. intros lobby' task' Hl' Hst' Ht'.
  unfold task_completed in Hl'.
  destruct (lobbies !! lobbyId) as [lobby|] eqn:Hl; [|simpl in Hl'; congruence].
  destruct (Status.eqb (Lobby.status lobby) Status.playing) eqn:Hst;
    [|simpl in Hl'; rewrite Hl in Hl'; injection Hl' as <-;
      rewrite Hst' in Hst; done].
  destruct (List.find _ (Lobby.tasks lobby)) as [task|] eqn:Ht;
    [|simpl in Hl'; congruence].
  destruct (GameTask.completed task) eqn:Hc; [simpl in Hl'; congruence|].
  pose proof (find_completeTask _ _ _ Ht) as Hdone.
  simpl in Hl'.
  change (Lobby.players (completeTask taskId lobby)) with (Lobby.players lobby) in Hl'.
  destruct (List.find (Player.has_id sid1) (Lobby.players lobby)) as [player|];
    [destruct (generateClue env1 (completeTask taskId lobby) (Player.is_killer player))|];
    simpl in Hl'; rewrite lookup_insert_eq in Hl'; injection Hl' as <-;
    simpl in Ht'; simpl in Hdone; rewrite Hdone in Ht'; by injection Ht' as <-.
Qed.

End clues.




(** C6: the flag is set before the caller is looked up.  A connection that
    is not a player of the lobby completes the open task [t1]: the task is
    marked completed, the clue list stays empty and nothing is broadcast. *)
Example task_completed_flag_without_clue :
  (λ l, (GameTask.completed <$> List.find (GameTask.has_id "t1") (Lobby.tasks l),
         Lobby.clues l))
    <$> (task_completed Sample.env "Z" "ROOM" "t1" (Sample.only Sample.playing3)).1
          !! "ROOM"
  = Some (Some true, []) ∧
  (task_completed Sample.env "Z" "ROOM" "t1" (Sample.only Sample.playing3)).2 = [] ∧
  List.find (Player.has_id "Z") (Lobby.players Sample.playing3) = None ∧
  GameTask.completed <$> List.find (GameTask.has_id "t1") (Lobby.tasks Sample.playing3)
  = Some false.
Proof. split_and!; reflexivity. Qed.

(** C7.  On an open task of a lobby in [playing], completed by a player of
    the lobby, two calls in succession append exactly one clue: the first
    appends it and sets the flag, the second (by any connection) changes
    nothing and emits nothing. *)
Theorem task_completed_idempotent env1 env2 sid sid2 lobbyId taskId
    (lobbies : Lobbies) lobby task player :
  lobbies !! lobbyId = Some lobby →
  Lobby.status lobby = Status.playing →
  List.find (GameTask.has_id taskId) (Lobby.tasks lobby) = Some task →
  GameTask.completed task = false →
  List.find (Player.has_id sid) (Lobby.players lobby) = Some player →
  ∃ lobby1 clue,
    (task_completed env1 sid lobbyId taskId lobbies).1 !! lobbyId = Some lobby1 ∧
    Lobby.clues lobby1 = Lobby.clues lobby ++ [clue] ∧
    GameTask.completed <$> List.find (GameTask.has_id taskId) (Lobby.tasks lobby1)
      = Some true ∧
    task_completed env2 sid2 lobbyId taskId
      (task_completed env1 sid lobbyId taskId lobbies).1
    = ((task_completed env1 sid lobbyId taskId lobbies).1, []).
Proof.
  intros Hl Hst Ht Hc Hp.
  destruct (task_completed_by_player env1 sid lobbyId taskId lobbies lobby task player
              Hl Hst Ht Hc Hp)
    as (target & text & _ & _ & _ & _ & _ & Heq).
  eexists _, _. split_and!.
  - rewrite Heq. apply lookup_insert_eq.
  - reflexivity.
  - simpl. by rewrite (find_updateFirst _ _ _ task).
  - apply task_completed_twice.
Qed.

Lemma task_completed_idempotent_witness :
  (Sample.only Sample.playing3 !! "ROOM" = Some Sample.playing3 ∧
   Lobby.status Sample.playing3 = Status.playing ∧
   List.find (GameTask.has_id "t1") (Lobby.tasks Sample.playing3)
     = Some Sample.task1 ∧
   GameTask.completed Sample.task1 = false ∧
   List.find (Player.has_id "B") (Lobby.players Sample.playing3)
     = Some Sample.playerB) ∧
  ∃ lobby1 clue,
    (task_completed Sample.env "B" "ROOM" "t1" (Sample.only Sample.playing3)).1
      !! "ROOM" = Some lobby1 ∧
    Lobby.clues lobby1 = Lobby.clues Sample.playing3 ++ [clue] ∧
    GameTask.completed <$> List.find (GameTask.has_id "t1") (Lobby.tasks lobby1)
      = Some true ∧
    task_completed Sample.env "B" "ROOM" "t1"
      (task_completed Sample.env "B" "ROOM" "t1" (Sample.only Sample.playing3)).1
    = ((task_completed Sample.env "B" "ROOM" "t1" (Sample.only Sample.playing3)).1, []).
Proof.
  split; [by split_and!|].
  apply (task_completed_idempotent Sample.env Sample.env "B" "B" "ROOM" "t1"
           (Sample.only Sample.playing3) Sample.playing3 Sample.task1 Sample.playerB);
    reflexivity.
Defined.

(** C7 as stated, for every task id, fails on a task that is already
    completed: both calls are ignored and no clue is appended. *)
Lemma task_completed_idempotent_counterexample :
  ¬ (∀ env1 env2 sid lobbyId taskId (lobbies : Lobbies) lobby,
       lobbies !! lobbyId = Some lobby →
       Lobby.status lobby = Status.playing →
       ∃ lobby2,
         (task_completed env2 sid lobbyId taskId
            (task_completed env1 sid lobbyId taskId lobbies).1).1 !! lobbyId
           = Some lobby2 ∧
         length (Lobby.clues lobby2) = S (length (Lobby.clues lobby))).
Proof.
  intros H.
  destruct (H Sample.env Sample.env "B" "ROOM" "t2" (Sample.only Sample.playing3)
              Sample.playing3)
    as (lobby2 & Hl & Hlen); try reflexivity.
  vm_compute in Hl. injection Hl as <-. discriminate Hlen.
Qed.

(** ** The steal ability *)

Section steal.

Lemma Status_eqb_eq a b : Status.eqb a b = true ↔ a = b.
Proof. destruct a, b; simpl; split; congruence. Qed.

Lemma Status_eqb_neq a b : Status.eqb a b = false ↔ a ≠ b.
Proof. destruct a, b; simpl; split; congruence. Qed.

Lemma list_alter_insert {A : Type} (f : A → A) (l : list A) i x :
  l !! i = Some x → alter f i l = <[i := f x]> l.
Proof.
  intros Hi. apply list_eq. intros j.
  rewrite list_lookup_alter. destruct (decide (i = j)) as [<-|Hne].
  - rewrite Hi. simpl. symmetry. apply list_lookup_insert_eq.
    by eapply lookup_lt_Some.
  - by rewrite list_lookup_insert_ne.
Qed.

Lemma filterIndices_elem {A : Type} (f : A → bool) i (xs : list A) j :
  j ∈ filterIndices f i xs → ∃ x, xs !! (j - i) = Some x ∧ f x = true ∧ i ≤ j.
Proof.
  revert i. induction xs as [|x xs IH]; intros i; simpl.
  - by intros ?%elem_of_nil.
  - assert (j ∈ filterIndices f (S i) xs →
            ∃ y, (x :: xs) !! (j - i) = Some y ∧ f y = true ∧ i ≤ j) as Htail.
    { intros Hin. destruct (IH (S i) Hin) as (y & Hy & Hf & Hle).
      exists y. replace (j - i) with (S (j - S i)) by lia. split_and!; [done|done|lia]. }
    destruct (f x) eqn:Hfx; [|done].
    intros [->|Hin]%elem_of_cons; [|auto].
    exists x. rewrite Nat.sub_diag. done.
Qed.

Lemma filterIndices_nil {A : Type} (f : A → bool) i (xs : list A) :
  (∀ x, x ∈ xs → f x = false) → filterIndices f i xs = [].
Proof.
  revert i. induction xs as [|x xs IH]; intros i H; simpl; [done|].
  rewrite (H x) by left. apply IH. intros y Hy. apply H. by right.
Qed.

Lemma filterIndices_nonempty {A : Type} (f : A → bool) i (xs : list A) x :
  x ∈ xs → f x = true → filterIndices f i xs ≠ [].
Proof.
  revert i. induction xs as [|y ys IH]; intros i Hin Hf; simpl.
  - by apply elem_of_nil in Hin.
  - destruct (f y) eqn:Hfy; [done|].
    apply elem_of_cons in Hin as [->|Hin]; [congruence|]. by apply IH.
Qed.

Lemma stealable_true target c :
  stealable target c = true ↔ Clue.foundBy c = target ∧ Clue.isTampered c = false.
Proof.
  unfold stealable. destruct (String.eqb_spec (Clue.foundBy c) target);
    destruct (Clue.isTampered c); simpl; split; (congruence || tauto || naive_solver).
Qed.

(** The two outcomes of an admissible call. *)
Lemma steal_clue_allowed env sid lobbyId target (lobbies : Lobbies) lobby thief victim :
  lobbies !! lobbyId = Some lobby →
  Lobby.status lobby = Status.playing →
  List.find (Player.has_id sid) (Lobby.players lobby) = Some thief →
  Player.is_killer thief = true →
  Player.hasStolenClue thief = false →
  List.find (Player.has_id target) (Lobby.players lobby) = Some victim →
  ∃ clues msg,
    steal_clue env sid lobbyId target lobbies =
    (let lobby' :=
       Lobby.with_players
         (updateFirst (Player.has_id sid) (Player.with_hasStolenClue true)
            (Lobby.players lobby))
         (Lobby.with_clues clues lobby) in
     (<[lobbyId := lobby']> lobbies,
      [to_room lobbyId (clue_found clues); to_room lobbyId (lobby_update lobby');
       callback (message msg)])) ∧
    ((∃ i c, Lobby.clues lobby !! i = Some c ∧ stealable target c = true ∧
             clues = <[i := Clue.with_isTampered true c]> (Lobby.clues lobby) ∧
             msg = "Clue from " +:+ Player.name victim +:+ " tampered!") ∨
     ((∀ c, c ∈ Lobby.clues lobby → stealable target c = false) ∧
      ∃ clue, clues = Lobby.clues lobby ++ [clue] ∧
              Clue.isTampered clue = true ∧ Clue.foundBy clue = target ∧
              msg = "Fake clue planted on " +:+ Player.name victim +:+ "!")).
Proof.
  intros Hl Hst Hthief Hk Hused Hvictim.
  unfold steal_clue. rewrite Hl, Hst, Hthief, Hk, Hused, Hvictim. simpl.
  destruct (filterIndices (stealable target) 0 (Lobby.clues lobby)) as [|i0 rest]
    eqn:Hidx.
  - simpl.
    assert (Lobby.players lobby ≠ []) as Hne by (by destruct (Lobby.players lobby)).
    destruct (generateClue_spec env lobby true Hne) as (_ & text & -> & _).
    eexists _, _. split; [reflexivity|]. right. split.
    + intros c Hc. destruct (stealable target c) eqn:Hs; [|done].
      by destruct (filterIndices_nonempty _ 0 _ _ Hc Hs).
    + eexists. split; [reflexivity|]. done.
  - change (0 <? length (i0 :: rest)) with true. cbv iota.
    destruct (randomElement_is_Some (Env.random env 0) (i0 :: rest)) as [i Hi]; [done|].
    rewrite Hi. apply randomElement_elem in Hi. rewrite <- Hidx in Hi.
    apply filterIndices_elem in Hi as (c & Hc & Hs & _).
    rewrite Nat.sub_0_r in Hc.
    eexists _, _. split; [reflexivity|]. left.
    exists i, c. split_and!; [done | done | by apply list_alter_insert | done].
Qed.

End steal.

(** C4.  An admissible call of [steal_clue] (lobby in [playing], caller the
    killer with the ability unused, target among the players) either flips
    one untampered clue attributed to the target to tampered, appending
    nothing, when such a clue exists, or else appends exactly one tampered
    clue attributed to the target.  The flipped clue has [isTampered] true
    afterwards and keeps its id, text and attribution, and the other clues
    are as they were.  Either way the caller's [hasStolenClue] is true
    afterwards and a confirmation message is sent back. *)
Theorem steal_clue_succeeds env sid lobbyId target (lobbies : Lobbies)
    lobby thief victim :
  lobbies !! lobbyId = Some lobby →
  Lobby.status lobby = Status.playing →
  List.find (Player.has_id sid) (Lobby.players lobby) = Some thief →
  Player.is_killer thief = true →
  Player.hasStolenClue thief = false →
  List.find (Player.has_id target) (Lobby.players lobby) = Some victim →
  ∃ lobby' msg,
    steal_clue env sid lobbyId target lobbies =
    (<[lobbyId := lobby']> lobbies,
     [to_room lobbyId (clue_found (Lobby.clues lobby'));
      to_room lobbyId (lobby_update lobby');
      callback (message msg)]) ∧
    List.find (Player.has_id sid) (Lobby.players lobby')
      = Some (Player.with_hasStolenClue true thief) ∧
    (∃ thief', List.find (Player.has_id sid) (Lobby.players lobby') = Some thief' ∧
               Player.hasStolenClue thief' = true ∧
               Player.id thief' = Player.id thief ∧
               Player.role thief' = Player.role thief) ∧
    ((∃ c, c ∈ Lobby.clues lobby ∧ Clue.foundBy c = target ∧
           Clue.isTampered c = false) →
     ∃ i c, Lobby.clues lobby !! i = Some c ∧ Clue.foundBy c = target ∧
            Clue.isTampered c = false ∧
            Lobby.clues lobby' = <[i := Clue.with_isTampered true c]> (Lobby.clues lobby) ∧
            (∃ c', Lobby.clues lobby' !! i = Some c' ∧
                   Clue.isTampered c' = true ∧
                   Clue.id c' = Clue.id c ∧ Clue.text c' = Clue.text c ∧
                   Clue.foundBy c' = target) ∧
            (∀ j, j ≠ i → Lobby.clues lobby' !! j = Lobby.clues lobby !! j) ∧
            length (Lobby.clues lobby') = length (Lobby.clues lobby) ∧
            msg = "Clue from " +:+ Player.name victim +:+ " tampered!") ∧
    ((∀ c, c ∈ Lobby.clues lobby → Clue.foundBy c = target →
           Clue.isTampered c = true) →
     ∃ clue, Lobby.clues lobby' = Lobby.clues lobby ++ [clue] ∧
             Clue.isTampered clue = true ∧ Clue.foundBy clue = target ∧
             msg = "Fake clue planted on " +:+ Player.name victim +:+ "!").
Proof.
  intros Hl Hst Hthief Hk Hused Hvictim.
  destruct (steal_clue_allowed env sid lobbyId target lobbies lobby thief victim
              Hl Hst Hthief Hk Hused Hvictim)
    as (clues & msg & -> & Hclues).
  exists (Lobby.with_players
            (updateFirst (Player.has_id sid) (Player.with_hasStolenClue true)
               (Lobby.players lobby))
            (Lobby.with_clues clues lobby)), msg.
  split; [reflexivity|]. simpl. split.
  { by apply find_updateFirst. }
  split.
  { exists (Player.with_hasStolenClue true thief).
    split; [by apply find_updateFirst | done]. }
  destruct Hclues as [(i & c & Hc & Hs & -> & Hmsg)
                     | (Hnone & clue & -> & Ht & Hf & Hmsg)].
  - apply stealable_true in Hs as [Hf Ht]. split.
    + intros _. exists i, c.
      split_and!; [done | done | done | done | | | | done].
      * exists (Clue.with_isTampered true c). split; [|done].
        apply list_lookup_insert_eq. by eapply lookup_lt_Some.
      * intros j Hj. by apply list_lookup_insert_ne.
      * apply length_insert.
    + intros Hall. apply list_elem_of_lookup_2 in Hc.
      rewrite (Hall c Hc Hf) in Ht. done.
  - split.
    + intros (c & Hc & Hf' & Ht'). specialize (Hnone c Hc).
      assert (stealable target c = true) as Hs by (by apply stealable_true).
      congruence.
    + intros _. eauto.
Qed.

Lemma steal_clue_succeeds_witness :
  (Sample.only Sample.withClues !! "ROOM" = Some Sample.withClues ∧
   Lobby.status Sample.withClues = Status.playing ∧
   List.find (Player.has_id "A") (Lobby.players Sample.withClues)
     = Some Sample.playerA ∧
   Player.is_killer Sample.playerA = true ∧
   Player.hasStolenClue Sample.playerA = false ∧
   List.find (Player.has_id "B") (Lobby.players Sample.withClues)
     = Some Sample.playerB) ∧
  ∃ lobby' msg,
    steal_clue Sample.env "A" "ROOM" "B" (Sample.only Sample.withClues) =
    (<["ROOM" := lobby']> (Sample.only Sample.withClues),
     [to_room "ROOM" (clue_found (Lobby.clues lobby'));
      to_room "ROOM" (lobby_update lobby');
      callback (message msg)]) ∧
    List.find (Player.has_id "A") (Lobby.players lobby')
      = Some (Player.with_hasStolenClue true Sample.playerA) ∧
    (∃ thief', List.find (Player.has_id "A") (Lobby.players lobby') = Some thief' ∧
               Player.hasStolenClue thief' = true) ∧
    (∃ i c', Lobby.clues lobby' !! i = Some c' ∧ Clue.isTampered c' = true ∧
             Clue.id c' = Clue.id Sample.clueB) ∧
    length (Lobby.clues lobby') = length (Lobby.clues Sample.withClues).
Proof.
  split; [by split_and!|].
  destruct (steal_clue_succeeds Sample.env "A" "ROOM" "B"
              (Sample.only Sample.withClues) Sample.withClues
              Sample.playerA Sample.playerB)
    as (lobby' & msg & Heq & Hthief & Hset & Hflip & _).
  - reflexivity.
  - reflexivity.
  - reflexivity.
  - reflexivity.
  - reflexivity.
  - reflexivity.
  - exists lobby', msg. split; [exact Heq|]. split; [exact Hthief|].
    destruct Hset as (thief' & Hfind & Hflag & _).
    split; [exists thief'; split; [exact Hfind | exact Hflag]|].
    destruct Hflip as (i & c & Hc & _ & Huntampered & _ & (c' & Hc' & Ht' & Hid' & _)
                       & _ & Hlen & _).
    { exists Sample.clueB. split; [|by split]. left. }
    split; [|exact Hlen].
    exists i, c'. split; [exact Hc'|]. split; [exact Ht'|].
    rewrite Hid'. destruct i as [|[|i]]; simpl in Hc.
    + injection Hc as <-. reflexivity.
    + injection Hc as <-. discriminate Huntampered.
    + discriminate Hc.
Defined.

(** C5.  A call of [steal_clue] that fails a precondition answers the
    caller with an error and leaves the registry as it was: "Game not
    active" when the lobby is missing or not in [playing], "Only the killer
    can do this" when the caller is not a player or not the killer,
    "Already used steal ability" when the caller's [hasStolenClue] is set,
    "Target not found" when the target is no player.  In particular a
    second call by a killer whose first call went through is answered
    "Already used steal ability" and changes nothing. *)
Theorem steal_clue_rejected env sid lobbyId target (lobbies : Lobbies) :
  ((lobbies !! lobbyId = None ∨
    ∃ lobby, lobbies !! lobbyId = Some lobby ∧ Lobby.status lobby ≠ Status.playing) →
   steal_clue env sid lobbyId target lobbies
   = (lobbies, [callback (error "Game not active")])) ∧
  (∀ lobby,
     lobbies !! lobbyId = Some lobby →
     Lobby.status lobby = Status.playing →
     (List.find (Player.has_id sid) (Lobby.players lobby) = None ∨
      ∃ thief, List.find (Player.has_id sid) (Lobby.players lobby) = Some thief ∧
               Player.is_killer thief = false) →
     steal_clue env sid lobbyId target lobbies
     = (lobbies, [callback (error "Only the killer can do this")])) ∧
  (∀ lobby thief,
     lobbies !! lobbyId = Some lobby →
     Lobby.status lobby = Status.playing →
     List.find (Player.has_id sid) (Lobby.players lobby) = Some thief →
     Player.is_killer thief = true →
     Player.hasStolenClue thief = true →
     steal_clue env sid lobbyId target lobbies
     = (lobbies, [callback (error "Already used steal ability")])) ∧
  (∀ lobby thief,
     lobbies !! lobbyId = Some lobby →
     Lobby.status lobby = Status.playing →
     List.find (Player.has_id sid) (Lobby.players lobby) = Some thief →
     Player.is_killer thief = true →
     Player.hasStolenClue thief = false →
     List.find (Player.has_id target) (Lobby.players lobby) = None →
     steal_clue env sid lobbyId target lobbies
     = (lobbies, [callback (error "Target not found")])) ∧
  (∀ lobby thief victim env' target',
     lobbies !! lobbyId = Some lobby →
     Lobby.status lobby = Status.playing →
     List.find (Player.has_id sid) (Lobby.players lobby) = Some thief →
     Player.is_killer thief = true →
     Player.hasStolenClue thief = false →
     List.find (Player.has_id target) (Lobby.players lobby) = Some victim →
     steal_clue env' sid lobbyId target' (steal_clue env sid lobbyId target lobbies).1
     = ((steal_clue env sid lobbyId target lobbies).1,
        [callback (error "Already used steal ability")])).
Proof.
  split_and!.
  - intros [Hl | (lobby & Hl & Hst)]; unfold steal_clue; rewrite Hl; [done|].
    apply Status_eqb_neq in Hst. by rewrite Hst.
  - intros lobby Hl Hst [Hthief | (thief & Hthief & Hk)];
      unfold steal_clue; rewrite Hl, Hst, Hthief; simpl; [done|]. by rewrite Hk.
  - intros lobby thief Hl Hst Hthief Hk Hused.
    unfold steal_clue. by rewrite Hl, Hst, Hthief, Hk, Hused.
  - intros lobby thief Hl Hst Hthief Hk Hused Htarget.
    unfold steal_clue. by rewrite Hl, Hst, Hthief, Hk, Hused, Htarget.
  - intros lobby thief victim env' target' Hl Hst Hthief Hk Hused Hvictim.
    destruct (steal_clue_allowed env sid lobbyId target lobbies lobby thief victim
                Hl Hst Hthief Hk Hused Hvictim)
      as (clues & msg & -> & _).
    cbn [fst]. unfold steal_clue at 1. rewrite lookup_insert_eq. simpl.
    rewrite Hst. simpl.
    rewrite (find_updateFirst _ _ _ thief) by done.
    change (Player.is_killer (Player.with_hasStolenClue true thief))
      with (Player.is_killer thief).
    by rewrite Hk.
Qed.

Lemma steal_clue_rejected_witness :
  (Sample.only Sample.withClues !! "ROOM" = Some Sample.withClues ∧
   Lobby.status Sample.withClues = Status.playing ∧
   List.find (Player.has_id "A") (Lobby.players Sample.withClues)
     = Some Sample.playerA ∧
   Player.is_killer Sample.playerA = true ∧
   Player.hasStolenClue Sample.playerA = false ∧
   List.find (Player.has_id "B") (Lobby.players Sample.withClues)
     = Some Sample.playerB ∧
   List.find (Player.has_id "Z") (Lobby.players Sample.withClues) = None ∧
   Player.is_killer Sample.playerB = false) ∧
  steal_clue Sample.env "A" "NOROOM" "B" (Sample.only Sample.withClues)
  = (Sample.only Sample.withClues, [callback (error "Game not active")]) ∧
  steal_clue Sample.env "B" "ROOM" "A" (Sample.only Sample.withClues)
  = (Sample.only Sample.withClues, [callback (error "Only the killer can do this")]) ∧
  steal_clue Sample.env "A" "ROOM" "Z" (Sample.only Sample.withClues)
  = (Sample.only Sample.withClues, [callback (error "Target not found")]) ∧
  steal_clue Sample.env "A" "ROOM" "C"
    (steal_clue Sample.env "A" "ROOM" "B" (Sample.only Sample.withClues)).1
  = ((steal_clue Sample.env "A" "ROOM" "B" (Sample.only Sample.withClues)).1,
     [callback (error "Already used steal ability")]).
Proof.
  split; [by split_and!|]. split_and!.
  - apply (steal_clue_rejected Sample.env "A" "NOROOM" "B" (Sample.only Sample.withClues)).
    left. reflexivity.
  - apply (proj1 (proj2 (steal_clue_rejected Sample.env "B" "ROOM" "A"
                           (Sample.only Sample.withClues))) Sample.withClues).
    + reflexivity.
    + reflexivity.
    + right. exists Sample.playerB. split; reflexivity.
  - apply (proj1 (proj2 (proj2 (proj2
             (steal_clue_rejected Sample.env "A" "ROOM" "Z"
                (Sample.only Sample.withClues)))))
             Sample.withClues Sample.playerA); reflexivity.
  - apply (proj2 (proj2 (proj2 (proj2
             (steal_clue_rejected Sample.env "A" "ROOM" "B"
                (Sample.only Sample.withClues)))))
             Sample.withClues Sample.playerA Sample.playerB Sample.env "C");
      reflexivity.
Defined.

(** ** Uniqueness of player ids *)

Section unique_ids.

Lemma updateFirst_ids (f : Player.t → bool) g players :
  (∀ p, Player.id (g p) = Player.id p) →
  Player.id <$> updateFirst f g players = Player.id <$> players.
Proof.
  intros Hg. induction players as [|p ps IH]; [done|].
  cbn [updateFirst]. destruct (f p); rewrite !fmap_cons, ?Hg, ?IH; done.
Qed.

Lemma assignRoles_ids env players :
  Player.id <$> assignRoles env players = Player.id <$> players.
Proof.
  unfold assignRoles. apply list_eq. intros i.
  rewrite !list_lookup_fmap, list_lookup_imap.
  by destruct (players !! i).
Qed.

Lemma promoteFirst_ids players :
  Player.id <$> promoteFirst players = Player.id <$> players.
Proof. by destruct players. Qed.

Lemma find_has_id_None sid players :
  List.find (Player.has_id sid) players = None → sid ∉ Player.id <$> players.
Proof.
  intros Hnone (p & -> & Hp)%list_elem_of_fmap.
  apply list_elem_of_In in Hp.
  pose proof (find_none _ _ Hnone p Hp) as Hf.
  unfold Player.has_id in Hf. by rewrite String.eqb_refl in Hf.
Qed.

Lemma uniqueIds_insert (lobbies : Lobbies) code lobby :
  uniqueIds lobbies → NoDup (playerIds lobby) → uniqueIds (<[code := lobby]> lobbies).
Proof.
  intros Hu Hnd code' lobby'. rewrite lookup_insert.
  case_decide; [intros [= <-]; done | apply Hu].
Qed.

Lemma uniqueIds_same (lobbies : Lobbies) code lobby lobby' :
  uniqueIds lobbies →
  lobbies !! code = Some lobby →
  playerIds lobby' = playerIds lobby →
  uniqueIds (<[code := lobby']> lobbies).
Proof.
  intros Hu Hl Hids. apply uniqueIds_insert; [done|].
  rewrite Hids. by apply (Hu code).
Qed.

Lemma uniqueIds_delete (lobbies : Lobbies) code :
  uniqueIds lobbies → uniqueIds (delete code lobbies).
Proof.
  intros Hu code' lobby'. rewrite lookup_delete.
  case_decide; [done | apply Hu].
Qed.

Lemma NoDup_delete_ids i players :
  NoDup (Player.id <$> players) → NoDup (Player.id <$> delete i players).
Proof.
  intros Hnd. rewrite list_fmap_delete.
  eapply sublist_NoDup; [done | apply sublist_delete].
Qed.

Ltac same_ids :=
  eapply uniqueIds_same; [done | done |];
  unfold playerIds, recordVote, completeTask; simpl;
  rewrite ?resolve_players; simpl;
  rewrite ?updateFirst_ids, ?assignRoles_ids by done; done.

Ltac handler_cases h :=
  intros Hu; unfold h; repeat case_match; simpl; try done; try same_ids.

Lemma create_lobby_uniqueIds env sid name (lobbies : Lobbies) :
  uniqueIds lobbies → uniqueIds (create_lobby env sid name lobbies).1.
Proof.
  intros Hu. simpl. apply uniqueIds_insert; [done|].
  unfold playerIds. simpl. apply NoDup_singleton.
Qed.

Lemma join_lobby_uniqueIds env sid lobbyId name (lobbies : Lobbies) :
  uniqueIds lobbies →
  (∀ lobby, lobbies !! lobbyId = Some lobby →
            List.find (Player.has_id sid) (Lobby.players lobby) = None) →
  uniqueIds (join_lobby env sid lobbyId name lobbies).1.
Proof.
  intros Hu Hfresh. unfold join_lobby.
  destruct (lobbies !! lobbyId) as [lobby|] eqn:Hl; [|by destruct (inherited _)].
  destruct (negb _); [done|]. simpl.
  apply uniqueIds_insert; [done|].
  unfold playerIds. simpl. rewrite fmap_app. simpl.
  apply NoDup_app. split_and!.
  - by apply (Hu lobbyId).
  - intros x Hx ->%list_elem_of_singleton.
    by apply (find_has_id_None _ _ (Hfresh lobby eq_refl)).
  - apply NoDup_singleton.
Qed.

Lemma leave_lobby_uniqueIds sid lobbyId (lobbies : Lobbies) :
  uniqueIds lobbies → uniqueIds (leave_lobby sid lobbyId lobbies).1.
Proof.
  intros Hu. unfold leave_lobby.
  destruct (lobbies !! lobbyId) as [lobby|] eqn:Hl; [|by destruct (inherited _)].
  destruct (findIndex _ _) as [i|]; [|done].
  destruct (length _ =? 0); simpl; [by apply uniqueIds_delete|].
  apply uniqueIds_insert; [done|]. unfold playerIds. simpl.
  destruct (Status.eqb _ _); rewrite ?promoteFirst_ids;
    apply NoDup_delete_ids; by apply (Hu lobbyId).
Qed.

Lemma disconnect_uniqueIds sid (lobbies : Lobbies) :
  uniqueIds lobbies → uniqueIds (disconnect sid lobbies).1.
Proof.
  intros Hu code lobby'. simpl. rewrite lookup_omap.
  destruct (lobbies !! code) as [lobby|] eqn:Hl; simpl; [|done].
  specialize (Hu code lobby Hl). unfold disconnect_lobby.
  destruct (findIndex _ _) as [i|]; simpl; [|by intros [= <-]].
  destruct (Status.eqb _ _); simpl; [|by intros [= <-]].
  destruct (length _ =? 0); simpl; [done|]. intros [= <-].
  unfold playerIds. simpl. rewrite promoteFirst_ids. by apply NoDup_delete_ids.
Qed.

Lemma start_game_uniqueIds env sid lobbyId (lobbies : Lobbies) :
  uniqueIds lobbies → uniqueIds (start_game env sid lobbyId lobbies).1.
Proof. handler_cases start_game. Qed.

Lemma timeout_uniqueIds lobbyId (lobbies : Lobbies) :
  uniqueIds lobbies → uniqueIds (timeout lobbyId lobbies).1.
Proof. handler_cases timeout. Qed.

Lemma move_uniqueIds sid lobbyId x y (lobbies : Lobbies) :
  uniqueIds lobbies → uniqueIds (move sid lobbyId x y lobbies).1.
Proof. handler_cases move. Qed.

Lemma task_completed_uniqueIds env sid lobbyId taskId (lobbies : Lobbies) :
  uniqueIds lobbies → uniqueIds (task_completed env sid lobbyId taskId lobbies).1.
Proof. handler_cases task_completed. Qed.

Lemma lock_task_uniqueIds sid lobbyId taskId (lobbies : Lobbies) :
  uniqueIds lobbies → uniqueIds (lock_task sid lobbyId taskId lobbies).1.
Proof. handler_cases lock_task. Qed.

Lemma steal_clue_uniqueIds env sid lobbyId target (lobbies : Lobbies) :
  uniqueIds lobbies → uniqueIds (steal_clue env sid lobbyId target lobbies).1.
Proof. handler_cases steal_clue. Qed.

Lemma vote_uniqueIds sid lobbyId target (lobbies : Lobbies) :
  uniqueIds lobbies → uniqueIds (vote sid lobbyId target lobbies).1.
Proof. handler_cases vote. Qed.

Lemma guess_witness_uniqueIds sid lobbyId target (lobbies : Lobbies) :
  uniqueIds lobbies → uniqueIds (guess_witness sid lobbyId target lobbies).1.
Proof. handler_cases guess_witness. Qed.

Lemma start_voting_uniqueIds sid lobbyId (lobbies : Lobbies) :
  uniqueIds lobbies → uniqueIds (start_voting sid lobbyId lobbies).1.
Proof. handler_cases start_voting. Qed.

(** Every request keeps the ids unique, a join provided the connection
    is not yet a player of the lobby it joins. *)
Lemma handle_uniqueIds env sid req (lobbies : Lobbies) :
  uniqueIds lobbies →
  freshJoin sid req lobbies →
  uniqueIds (handle env sid req lobbies).1.
Proof.
  intros Hu Hfresh. destruct req; cbn [handle freshJoin] in *.
  - by apply create_lobby_uniqueIds.
  - by apply join_lobby_uniqueIds.
  - by apply leave_lobby_uniqueIds.
  - by apply start_game_uniqueIds.
  - by apply move_uniqueIds.
  - by apply task_completed_uniqueIds.
  - by apply lock_task_uniqueIds.
  - by apply steal_clue_uniqueIds.
  - by apply vote_uniqueIds.
  - by apply guess_witness_uniqueIds.
  - by apply start_voting_uniqueIds.
  - by apply disconnect_uniqueIds.
  - by apply timeout_uniqueIds.
Qed.

End unique_ids.

(** C8.  In every state reached by requests in which no connection joins a
    lobby it is already a player of, no two players of a lobby have the same
    id: creating, leaving, disconnecting and every other request keep the
    ids of a lobby unique, and so does a join by a connection that is not
    yet in the lobby.  A join by a connection that is already a player of
    the lobby adds a second entry with its id. *)
Theorem unique_ids_without_rejoin :
  (∀ lobbies : Lobbies, reachableFresh lobbies → uniqueIds lobbies) ∧
  (∀ env sid req (lobbies : Lobbies),
     uniqueIds lobbies →
     freshJoin sid req lobbies →
     uniqueIds (handle env sid req lobbies).1) ∧
  (∀ env sid lobbyId name (lobbies : Lobbies) lobby,
     lobbies !! lobbyId = Some lobby →
     Lobby.status lobby = Status.lobby →
     is_Some (List.find (Player.has_id sid) (Lobby.players lobby)) →
     ∃ lobby',
       (join_lobby env sid lobbyId name lobbies).1 !! lobbyId = Some lobby' ∧
       playerIds lobby' = playerIds lobby ++ [sid] ∧
       ¬ NoDup (playerIds lobby')).
Proof.
  split_and!.
  - induction 1 as [|env sid req lobbies _ IH Hfresh].
    + intros code lobby. by rewrite lookup_empty.
    + by apply handle_uniqueIds.
  - apply handle_uniqueIds.
  - intros env sid lobbyId name lobbies lobby Hl Hst [p Hp].
    unfold join_lobby. rewrite Hl, Hst. simpl.
    eexists. split; [apply lookup_insert_eq|].
    unfold playerIds. simpl. rewrite fmap_app. simpl. split; [done|].
    intros (_ & Hdisj & _)%NoDup_app. apply (Hdisj sid); [|left].
    apply find_some in Hp as [Hin Hid].
    apply list_elem_of_fmap. exists p. split; [|by apply list_elem_of_In].
    unfold Player.has_id in Hid. by apply String.eqb_eq in Hid.
Qed.

Lemma unique_ids_without_rejoin_witness :
  uniqueIds
    (handle Sample.env "b" (req_join_lobby "ABC123" "Bo")
       (handle Sample.env "a" (req_create_lobby "Al") ∅).1).1 ∧
  ∃ lobby',
    (join_lobby Sample.env "a" "ROOM" "Al" (Sample.only Sample.waiting)).1 !! "ROOM"
      = Some lobby' ∧
    playerIds lobby' = playerIds Sample.waiting ++ ["a"] ∧
    ¬ NoDup (playerIds lobby').
Proof.
  split.
  - apply (proj1 unique_ids_without_rejoin).
    apply reachableFresh_step.
    + apply reachableFresh_step; [apply reachableFresh_init | exact I].
    + intros lobby Hl. vm_compute in Hl. injection Hl as <-. reflexivity.
  - apply (proj2 (proj2 unique_ids_without_rejoin) Sample.env "a" "ROOM" "Al"
             (Sample.only Sample.waiting) Sample.waiting).
    + reflexivity.
    + reflexivity.
    + eexists. reflexivity.
Defined.

(** C8 as stated fails: [join_lobby] does not look for the caller among the
    players, so the creator of a lobby who joins it is listed twice. *)
Lemma unique_ids_counterexample :
  ¬ (∀ lobbies : Lobbies, reachable lobbies → uniqueIds lobbies).
Proof.
  intros H.
  pose proof (H _ (reachable_step Sample.env "a" (req_join_lobby "ABC123" "Al") _
                     (reachable_step Sample.env "a" (req_create_lobby "Al") _
                        reachable_init))) as Hu.
  specialize (Hu "ABC123" _ eq_refl).
  vm_compute in Hu. apply NoDup_cons in Hu as [Hnotin _].
  apply Hnotin. left.
Qed.

(** ** Departures *)

Section departures.

Lemma hostCount_delete players i p :
  players !! i = Some p →
  hostCount players = (if Player.isHost p then 1 else 0) + hostCount (delete i players).
Proof.
  revert i. induction players as [|q qs IH]; intros i Hi; [done|].
  destruct i as [|i]; simpl in Hi.
  - injection Hi as ->. unfold hostCount. simpl. by destruct (Player.isHost p).
  - specialize (IH i Hi). unfold hostCount in *. simpl.
    destruct (Player.isHost q); simpl; lia.
Qed.

Lemma leave_lobby_unfold sid lobbyId (lobbies : Lobbies) lobby i first rest :
  lobbies !! lobbyId = Some lobby →
  findIndex (Player.has_id sid) (Lobby.players lobby) = Some i →
  delete i (Lobby.players lobby) = first :: rest →
  leave_lobby sid lobbyId lobbies =
  (let lobby' :=
     Lobby.with_players
       (if Status.eqb (Lobby.status lobby) Status.lobby
        then Player.with_isHost true first :: rest else first :: rest) lobby in
   (<[lobbyId := lobby']> lobbies,
    [to_socket left_lobby; to_room lobbyId (lobby_update lobby')])).
Proof.
  intros Hl Hi Hdel. unfold leave_lobby. rewrite Hl, Hi, Hdel. simpl.
  by destruct (Status.eqb _ _).
Qed.

Lemma delete_nonempty {A : Type} (xs : list A) i :
  is_Some (xs !! i) → 2 ≤ length xs → ∃ first rest, delete i xs = first :: rest.
Proof.
  intros Hi Hlen. destruct (delete i xs) as [|first rest] eqn:Hdel; [|eauto].
  pose proof (length_delete xs i Hi) as Hd.
  rewrite Hdel in Hd. simpl in Hd. lia.
Qed.

Lemma find_has_id_not_elem sid players :
  sid ∉ Player.id <$> players → List.find (Player.has_id sid) players = None.
Proof.
  intros Hnotin. destruct (List.find _ players) as [q|] eqn:Hq; [|done].
  apply find_some in Hq as [Hin Hid]. destruct Hnotin.
  apply list_elem_of_fmap. exists q. split; [|by apply list_elem_of_In].
  unfold Player.has_id in Hid. by apply String.eqb_eq in Hid.
Qed.

Lemma find_delete_self sid players i :
  NoDup (Player.id <$> players) →
  findIndex (Player.has_id sid) players = Some i →
  List.find (Player.has_id sid) (delete i players) = None.
Proof.
  revert i. induction players as [|p ps IH]; intros i Hnd Hi; [done|].
  rewrite fmap_cons in Hnd. apply NoDup_cons in Hnd as [Hp Hnd].
  simpl in Hi. destruct (Player.has_id sid p) eqn:Hid.
  - injection Hi as <-. simpl. apply find_has_id_not_elem.
    unfold Player.has_id in Hid. apply String.eqb_eq in Hid. by subst.
  - destruct (findIndex _ ps) as [j|] eqn:Hj; [|done]. injection Hi as <-.
    simpl. rewrite Hid. by apply IH.
Qed.

End departures.

(** C9.  When the only host leaves a lobby in status [lobby] that keeps at
    least one player, the first remaining player becomes the host and the
    lobby has exactly one host again.  A leave while the status is
    [playing] takes the caller's entry out of the player list, with its role
    and vote, changes no other player (so nobody is made host) and keeps
    every clue; a disconnect while the status is [playing] changes nothing. *)
Theorem departures_and_host (sid : string) (lobbies : Lobbies) :
  (∀ lobbyId lobby host,
     lobbies !! lobbyId = Some lobby →
     Lobby.status lobby = Status.lobby →
     List.find (Player.has_id sid) (Lobby.players lobby) = Some host →
     Player.isHost host = true →
     hostCount (Lobby.players lobby) = 1 →
     2 ≤ length (Lobby.players lobby) →
     ∃ i first rest lobby',
       findIndex (Player.has_id sid) (Lobby.players lobby) = Some i ∧
       delete i (Lobby.players lobby) = first :: rest ∧
       (leave_lobby sid lobbyId lobbies).1 !! lobbyId = Some lobby' ∧
       Lobby.players lobby' = Player.with_isHost true first :: rest ∧
       hostCount (Lobby.players lobby') = 1) ∧
  (∀ lobbyId lobby i,
     lobbies !! lobbyId = Some lobby →
     Lobby.status lobby = Status.playing →
     findIndex (Player.has_id sid) (Lobby.players lobby) = Some i →
     2 ≤ length (Lobby.players lobby) →
     ∃ lobby',
       (leave_lobby sid lobbyId lobbies).1 !! lobbyId = Some lobby' ∧
       Lobby.players lobby' = delete i (Lobby.players lobby) ∧
       Lobby.clues lobby' = Lobby.clues lobby ∧
       (NoDup (playerIds lobby) →
        List.find (Player.has_id sid) (Lobby.players lobby') = None)) ∧
  (∀ lobbyId lobby,
     lobbies !! lobbyId = Some lobby →
     Lobby.status lobby = Status.playing →
     (disconnect sid lobbies).1 !! lobbyId = Some lobby).
Proof.
  split_and!.
  - intros lobbyId lobby host Hl Hst Hhost Hflag Hcount Hlen.
    destruct (find_is_Some_findIndex _ _ _ Hhost) as [i Hi].
    destruct (findIndex_Some _ _ _ Hi) as (x & Hx & _ & Hfind).
    assert (x = host) as -> by congruence.
    destruct (delete_nonempty (Lobby.players lobby) i) as (first & rest & Hdel);
      [eauto | done |].
    exists i, first, rest. eexists. split_and!; [done | done | | |].
    + rewrite (leave_lobby_unfold _ _ _ lobby i first rest) by done.
      apply lookup_insert_eq.
    + simpl. by rewrite Hst.
    + simpl. rewrite Hst. simpl.
      pose proof (hostCount_delete _ _ _ Hx) as Hd.
      rewrite Hflag, Hcount, Hdel in Hd.
      unfold hostCount in *. simpl in *. destruct (Player.isHost first); simpl in *; lia.
  - intros lobbyId lobby i Hl Hst Hi Hlen.
    destruct (findIndex_Some _ _ _ Hi) as (x & Hx & _ & _).
    destruct (delete_nonempty (Lobby.players lobby) i) as (first & rest & Hdel);
      [eauto | done |].
    eexists. split_and!.
    + rewrite (leave_lobby_unfold _ _ _ lobby i first rest) by done.
      apply lookup_insert_eq.
    + simpl. by rewrite Hst, Hdel.
    + reflexivity.
    + cbn [Lobby.players Lobby.with_players]. rewrite Hst. cbn [Status.eqb].
      rewrite <- Hdel. intros Hnd. by apply find_delete_self.
  - intros lobbyId lobby Hl Hst. simpl. rewrite lookup_omap, Hl. simpl.
    unfold disconnect_lobby. destruct (findIndex _ _); [|done].
    by rewrite Hst.
Qed.

Lemma departures_and_host_witness :
  (Sample.only Sample.waiting !! "ROOM" = Some Sample.waiting ∧
   hostCount (Lobby.players Sample.waiting) = 1 ∧
   Sample.only Sample.playing3 !! "ROOM" = Some Sample.playing3 ∧
   NoDup (playerIds Sample.playing3)) ∧
  (∃ i first rest lobby',
     findIndex (Player.has_id "a") (Lobby.players Sample.waiting) = Some i ∧
     delete i (Lobby.players Sample.waiting) = first :: rest ∧
     (leave_lobby "a" "ROOM" (Sample.only Sample.waiting)).1 !! "ROOM" = Some lobby' ∧
     Lobby.players lobby' = Player.with_isHost true first :: rest ∧
     hostCount (Lobby.players lobby') = 1) ∧
  (∃ lobby',
     (leave_lobby "B" "ROOM" (Sample.only Sample.playing3)).1 !! "ROOM" = Some lobby' ∧
     Lobby.players lobby' = delete 1 (Lobby.players Sample.playing3) ∧
     Lobby.clues lobby' = Lobby.clues Sample.playing3 ∧
     List.find (Player.has_id "B") (Lobby.players lobby') = None) ∧
  (disconnect "B" (Sample.only Sample.playing3)).1 !! "ROOM" = Some Sample.playing3.
Proof.
  assert (NoDup (playerIds Sample.playing3)) as Hnd.
  { apply (NoDup_fmap_2_strong Player.id); [|repeat constructor; set_solver].
    intros p q Hp Hq. simpl in Hp, Hq.
    repeat (apply elem_of_cons in Hp as [->|Hp]);
      repeat (apply elem_of_cons in Hq as [->|Hq]);
      try (by apply elem_of_nil in Hp); try (by apply elem_of_nil in Hq);
      done. }
  split; [by split_and!|]. split_and!.
  - apply (proj1 (departures_and_host "a" (Sample.only Sample.waiting))
             "ROOM" Sample.waiting (Sample.player "a" None Sample.attrsA true None));
      [reflexivity | reflexivity | reflexivity | reflexivity | reflexivity | simpl; lia].
  - destruct (proj1 (proj2 (departures_and_host "B" (Sample.only Sample.playing3)))
                "ROOM" Sample.playing3 1)
      as (lobby' & H1 & H2 & H3 & H4);
      [reflexivity | reflexivity | reflexivity | simpl; lia |].
    exists lobby'. split_and!; [exact H1 | exact H2 | exact H3 | exact (H4 Hnd)].
  - apply (proj2 (proj2 (departures_and_host "B" (Sample.only Sample.playing3)))
             "ROOM" Sample.playing3); reflexivity.
Defined.

(** C9 as stated fails for a leave: the player who leaves during [playing]
    is taken out of the player list, and the role and vote recorded in the
    entry go with it. *)
Lemma departures_keep_data_counterexample :
  ¬ (∀ sid lobbyId (lobbies : Lobbies) lobby p,
       lobbies !! lobbyId = Some lobby →
       Lobby.status lobby = Status.playing →
       List.find (Player.has_id sid) (Lobby.players lobby) = Some p →
       2 ≤ length (Lobby.players lobby) →
       ∃ lobby',
         (leave_lobby sid lobbyId lobbies).1 !! lobbyId = Some lobby' ∧
         Lobby.clues lobby' = Lobby.clues lobby ∧
         ∃ q, q ∈ Lobby.players lobby' ∧ Player.id q = sid ∧
              Player.role q = Player.role p ∧
              Player.votedFor q = Player.votedFor p).
Proof.
  intros H.
  destruct (H "B" "ROOM" (Sample.only Sample.playing3) Sample.playing3 Sample.playerB)
    as (lobby' & Hl & _ & q & Hq & Hid & _);
    [reflexivity | reflexivity | reflexivity | simpl; lia |].
  vm_compute in Hl. injection Hl as <-. simpl in Hq.
  repeat (apply elem_of_cons in Hq as [->|Hq]; [discriminate Hid|]).
  by apply elem_of_nil in Hq.
Qed.

(** ** Name disambiguation and enumeration order *)

Section modelling.

Lemma append_inj (s a b : string) : s +:+ a = s +:+ b → a = b.
Proof. induction s as [|c s IH]; simpl; [done|]. intros [= ?]. auto. Qed.

Lemma append_ne_self (s a : string) : a ≠ EmptyString → s +:+ a ≠ s.
Proof.
  intros Ha. induction s as [|c s IH]; simpl; [done|]. intros [= ?]. auto.
Qed.

Lemma some_name_elem players c :
  some (λ p, String.eqb (Player.name p) c) players = true ↔ c ∈ Player.name <$> players.
Proof.
  unfold some. rewrite existsb_exists, list_elem_of_fmap. split.
  - intros (p & Hp & <-%String.eqb_eq). exists p. split; [done | by apply list_elem_of_In].
  - intros (p & -> & Hp). exists p. split; [by apply list_elem_of_In | apply String.eqb_refl].
Qed.

Lemma uniqueName_free_from fuel players name finalName counter (tried : list string) :
  NoDup tried →
  (∀ t, t ∈ tried → t ∈ Player.name <$> players) →
  finalName ∉ tried →
  (∀ k, counter ≤ k →
        (name +:+ " " +:+ pretty k ∉ tried) ∧
        name +:+ " " +:+ pretty k ≠ finalName) →
  length players ≤ length tried + fuel →
  uniqueName fuel players name finalName counter ∉ Player.name <$> players.
Proof.
  revert finalName counter tried.
  induction fuel as [|fuel IH]; intros finalName counter tried Hnd Hsub Hnew Hnext Hlen;
    simpl; destruct (some _ players) eqn:Htaken;
    try (by rewrite <- some_name_elem, Htaken).
  - apply some_name_elem in Htaken.
    assert (finalName :: tried ⊆+ Player.name <$> players) as Hle.
    { apply NoDup_submseteq; [by constructor|].
      intros t [->|Ht]%elem_of_cons; auto. }
    apply submseteq_length in Hle. rewrite length_fmap in Hle. simpl in Hle. lia.
  - apply some_name_elem in Htaken.
    apply (IH _ _ (finalName :: tried)).
    + by constructor.
    + intros t [->|Ht]%elem_of_cons; auto.
    + destruct (Hnext counter) as [Hk1 Hk2]; [lia|].
      intros [?|?]%elem_of_cons; done.
    + intros k Hk. destruct (Hnext k) as [Hk1 Hk2]; [lia|]. split.
      * intros [?|?]%elem_of_cons; done.
      * intros Heq%append_inj%append_inj%(inj pretty). lia.
    + simpl. lia.
Qed.

(** The loop of [join_lobby] ends within [length players] iterations with
    a name that no player of the lobby has. *)
Lemma uniqueName_free players name :
  uniqueName (length players) players name name 1 ∉ Player.name <$> players.
Proof.
  apply (uniqueName_free_from _ _ _ _ _ []).
  - constructor.
  - by intros t ?%elem_of_nil.
  - by intros ?%elem_of_nil.
  - intros k _. split; [by intros ?%elem_of_nil|]. by apply append_ne_self.
  - simpl. lia.
Qed.

(** The outcome of the scan does not depend on the order in which the
    entries of [votes] are enumerated: two enumerations of the same entries
    find the same top count, agree on [tie], and without a tie suspect the
    same id. *)
Lemma scan_order_irrelevant (votes votes' : list (string * Stored)) :
  votes ≡ₚ votes' →
  NoDup votes.*1 →
  (∀ k n, (k, number n) ∈ votes → 0 < n) →
  (scan votes').1.1 = (scan votes).1.1 ∧
  (scan votes').2 = (scan votes).2 ∧
  ((scan votes).2 = false → (scan votes').1.2 = (scan votes).1.2).
Proof.
  intros Hperm Hnd Hpos.
  assert (NoDup votes'.*1) as Hnd' by (by rewrite <- Hperm).
  assert (∀ k n, (k, number n) ∈ votes' → 0 < n) as Hpos'.
  { intros k n Hin. apply (Hpos k). by rewrite Hperm. }
  destruct (scan votes) as [[m s] t] eqn:Hs.
  destruct (scan votes') as [[m' s'] t'] eqn:Hs'. simpl.
  destruct (scan_spec _ _ _ _ Hnd Hpos Hs)
    as [(Hno & -> & -> & ->) | (k & -> & Hk & Hmax & Htie)];
    destruct (scan_spec _ _ _ _ Hnd' Hpos' Hs')
      as [(Hno' & -> & -> & ->) | (k' & -> & Hk' & Hmax' & Htie')].
  - done.
  - destruct (Hno k' m'). by rewrite Hperm.
  - destruct (Hno' k m). by rewrite <- Hperm.
  - assert (m' = m) as ->.
    { apply Nat.le_antisymm.
      - apply (Hmax k'). by rewrite Hperm.
      - apply (Hmax' k). by rewrite <- Hperm. }
    assert (t = true ↔ t' = true) as Htt.
    { rewrite Htie, Htie'. split.
      - intros (k1 & Hne & Hin). destruct (decide (k1 = k')) as [->|Hne'].
        + exists k. split; [done|]. by rewrite <- Hperm.
        + exists k1. split; [done|]. by rewrite <- Hperm.
      - intros (k1 & Hne & Hin). destruct (decide (k1 = k)) as [->|Hne'].
        + exists k'. split; [done|]. by rewrite Hperm.
        + exists k1. split; [done|]. by rewrite Hperm. }
    split_and!; [done | |].
    + destruct t, t'; try done; [by destruct (proj1 Htt) | by destruct (proj2 Htt)].
    + intros ->. destruct (decide (k' = k)) as [->|Hne]; [done|].
      assert (false = true); [|done]. apply Htie. exists k'. split; [done|].
      by rewrite Hperm.
Qed.

End modelling.

(** * Further properties of the handlers *)

(** ** Every request acts on a lobby by one of the steps *)

Section steps.

Lemma acts_insert env sid req (lobbies : Lobbies) lobbyId l x code l' :
  lobbies !! lobbyId = Some l →
  LobbyStep sid req l x →
  addressee req = Some lobbyId →
  <[lobbyId := x]> lobbies !! code = Some l' →
  Acts env sid req lobbies code l'.
Proof.
  intros Hl Hstep Haddr. rewrite lookup_insert. case_decide as Hc.
  - intros [= <-]. subst code. right. right. exists l. split_and!; [done | done |].
    intros ? ?. congruence.
  - intros ?. by left.
Qed.

Ltac unchanged := intros ?; by left.

Lemma join_lobby_acts env sid lobbyId name (lobbies : Lobbies) code l' :
  (join_lobby env sid lobbyId name lobbies).1 !! code = Some l' →
  Acts env sid (req_join_lobby lobbyId name) lobbies code l'.
Proof.
  unfold join_lobby.
  destruct (lobbies !! lobbyId) as [l|] eqn:Hl; [|destruct (inherited _); unchanged].
  destruct (Status.eqb (Lobby.status l) Status.lobby) eqn:Hst; [|unchanged].
  apply Status_eqb_eq in Hst. simpl.
  apply (acts_insert _ _ _ _ _ l); [done | | done].
  by apply (step_join sid env).
Qed.

Lemma leave_lobby_acts env sid lobbyId (lobbies : Lobbies) code l' :
  (leave_lobby sid lobbyId lobbies).1 !! code = Some l' →
  Acts env sid (req_leave_lobby lobbyId) lobbies code l'.
Proof.
  unfold leave_lobby.
  destruct (lobbies !! lobbyId) as [l|] eqn:Hl; [|destruct (inherited _); unchanged].
  destruct (findIndex _ _) as [i|] eqn:Hi; [|unchanged].
  destruct (length _ =? 0) eqn:Hlen; simpl.
  - intros [_ ?]%lookup_delete_Some. by left.
  - apply (acts_insert _ _ _ _ _ l); [done | | done].
    apply step_leave; [done|]. intros Hnil. by rewrite Hnil in Hlen.
Qed.

Lemma disconnect_acts env sid (lobbies : Lobbies) code l' :
  (disconnect sid lobbies).1 !! code = Some l' →
  Acts env sid req_disconnect lobbies code l'.
Proof.
  simpl. rewrite lookup_omap.
  destruct (lobbies !! code) as [l|] eqn:Hl; simpl; [|done].
  unfold disconnect_lobby.
  destruct (findIndex _ _) as [i|] eqn:Hi; simpl; [|intros [= <-]; by left].
  destruct (Status.eqb (Lobby.status l) Status.lobby) eqn:Hst; simpl;
    [|intros [= <-]; by left].
  destruct (length _ =? 0) eqn:Hlen; simpl; [done|]. intros [= <-].
  right. right. exists l. split_and!; [done | | done].
  replace (promoteFirst (delete i (Lobby.players l))) with (afterDeparture i l)
    by (unfold afterDeparture; by rewrite Hst).
  apply step_disconnect; [done | by apply Status_eqb_eq |].
  intros Hnil. by rewrite Hnil in Hlen.
Qed.

Lemma start_game_acts env sid lobbyId (lobbies : Lobbies) code l' :
  (start_game env sid lobbyId lobbies).1 !! code = Some l' →
  Acts env sid (req_start_game lobbyId) lobbies code l'.
Proof.
  unfold start_game.
  destruct (lobbies !! lobbyId) as [l|] eqn:Hl; [|destruct (inherited _); unchanged].
  destruct (callerIsHost sid l) eqn:Hhost; [|unchanged].
  destruct (length (Lobby.players l) <? 3) eqn:Hlen; [unchanged|].
  apply Nat.ltb_ge in Hlen.
  apply (acts_insert _ _ _ _ _ l); [done | | done]. by apply step_start_game.
Qed.

Lemma timeout_acts env sid lobbyId (lobbies : Lobbies) code l' :
  (timeout lobbyId lobbies).1 !! code = Some l' →
  Acts env sid (req_timeout lobbyId) lobbies code l'.
Proof.
  unfold timeout. destruct (lobbies !! lobbyId) as [l|] eqn:Hl; [|unchanged].
  destruct (Status.eqb (Lobby.status l) Status.playing) eqn:Hst; [|unchanged].
  apply Status_eqb_eq in Hst.
  apply (acts_insert _ _ _ _ _ l); [done | | done]. by apply step_timeout.
Qed.

Lemma move_acts env sid lobbyId x y (lobbies : Lobbies) code l' :
  (move sid lobbyId x y lobbies).1 !! code = Some l' →
  Acts env sid (req_move lobbyId x y) lobbies code l'.
Proof.
  unfold move. destruct (lobbies !! lobbyId) as [l|] eqn:Hl; [|unchanged].
  destruct (Status.eqb (Lobby.status l) Status.playing) eqn:Hst; [|unchanged].
  apply Status_eqb_eq in Hst.
  destruct (List.find _ _) as [p|] eqn:Hp; [|unchanged].
  apply (acts_insert _ _ _ _ _ l); [done | | done]. apply step_move; eauto.
Qed.

Lemma task_completed_acts env sid lobbyId taskId (lobbies : Lobbies) code l' :
  (task_completed env sid lobbyId taskId lobbies).1 !! code = Some l' →
  Acts env sid (req_task_completed lobbyId taskId) lobbies code l'.
Proof.
  destruct (lobbies !! lobbyId) as [l|] eqn:Hl;
    [|unfold task_completed; rewrite Hl; unchanged].
  destruct (Status.eqb (Lobby.status l) Status.playing) eqn:Hst;
    [|unfold task_completed; rewrite Hl, Hst; unchanged].
  apply Status_eqb_eq in Hst.
  destruct (List.find (GameTask.has_id taskId) (Lobby.tasks l)) as [task|] eqn:Ht;
    [|unfold task_completed; rewrite Hl, Hst, Ht; unchanged].
  destruct (GameTask.completed task) eqn:Hc;
    [unfold task_completed; rewrite Hl, Hst, Ht, Hc; unchanged|].
  destruct (List.find (Player.has_id sid) (Lobby.players l)) as [player|] eqn:Hp.
  - destruct (task_completed_by_player env sid lobbyId taskId lobbies l task player
                Hl Hst Ht Hc Hp) as (_ & text & _ & _ & _ & _ & _ & ->).
    apply (acts_insert _ _ _ _ _ l); [done | | done].
    by eapply step_task_clue.
  - rewrite (task_completed_by_stranger env sid lobbyId taskId lobbies l task) by done.
    apply (acts_insert _ _ _ _ _ l); [done | | done].
    by eapply step_task_flag.
Qed.

Lemma lock_task_acts env sid lobbyId taskId (lobbies : Lobbies) code l' :
  (lock_task sid lobbyId taskId lobbies).1 !! code = Some l' →
  Acts env sid (req_lock_task lobbyId taskId) lobbies code l'.
Proof.
  unfold lock_task. destruct (lobbies !! lobbyId) as [l|] eqn:Hl; [|unchanged].
  destruct (Status.eqb (Lobby.status l) Status.playing) eqn:Hst; [|unchanged].
  apply Status_eqb_eq in Hst.
  destruct (List.find _ _) as [task|] eqn:Ht; [|unchanged].
  destruct (includes sid (GameTask.lockedFor task)) eqn:Hinc; [unchanged|].
  apply (acts_insert _ _ _ _ _ l); [done | | done]. by eapply step_lock_task.
Qed.

Lemma steal_clue_acts env sid lobbyId target (lobbies : Lobbies) code l' :
  (steal_clue env sid lobbyId target lobbies).1 !! code = Some l' →
  Acts env sid (req_steal_clue lobbyId target) lobbies code l'.
Proof.
  destruct (lobbies !! lobbyId) as [l|] eqn:Hl;
    [|unfold steal_clue; rewrite Hl; unchanged].
  destruct (Status.eqb (Lobby.status l) Status.playing) eqn:Hst;
    [|unfold steal_clue; rewrite Hl, Hst; unchanged].
  apply Status_eqb_eq in Hst.
  destruct (List.find (Player.has_id sid) (Lobby.players l)) as [thief|] eqn:Hthief;
    [|unfold steal_clue; rewrite Hl, Hst, Hthief; unchanged].
  destruct (Player.is_killer thief) eqn:Hk;
    [|unfold steal_clue; rewrite Hl, Hst, Hthief, Hk; unchanged].
  destruct (Player.hasStolenClue thief) eqn:Hused;
    [unfold steal_clue; rewrite Hl, Hst, Hthief, Hk, Hused; unchanged|].
  destruct (List.find (Player.has_id target) (Lobby.players l)) as [victim|] eqn:Hv;
    [|unfold steal_clue; rewrite Hl, Hst, Hthief, Hk, Hused, Hv; unchanged].
  destruct (steal_clue_allowed env sid lobbyId target lobbies l thief victim
              Hl Hst Hthief Hk Hused Hv) as (clues & msg & -> & Hclues).
  apply (acts_insert _ _ _ _ _ l); [done | | done].
  destruct Hclues as [(i & c & Hc & Hs & -> & _) | (_ & clue & -> & Ht & Hf & _)].
  - by eapply step_steal_tamper.
  - by eapply step_steal_plant.
Qed.

Lemma vote_acts env sid lobbyId target (lobbies : Lobbies) code l' :
  (vote sid lobbyId target lobbies).1 !! code = Some l' →
  Acts env sid (req_vote lobbyId target) lobbies code l'.
Proof.
  destruct (lobbies !! lobbyId) as [l|] eqn:Hl;
    [|unfold vote; rewrite Hl; unchanged].
  destruct (Status.eqb (Lobby.status l) Status.voting) eqn:Hst;
    [|unfold vote; rewrite Hl, Hst; unchanged].
  apply Status_eqb_eq in Hst.
  destruct (List.find (Player.has_id sid) (Lobby.players l)) as [p|] eqn:Hp;
    [|unfold vote; rewrite Hl, Hst, Hp; unchanged].
  rewrite (vote_unfold _ _ _ _ l) by eauto.
  apply (acts_insert _ _ _ _ _ l); [done | | done].
  destruct (every _ _) eqn:Hall; [apply step_vote_resolve | apply step_vote]; eauto.
Qed.

Lemma guess_witness_acts env sid lobbyId target (lobbies : Lobbies) code l' :
  (guess_witness sid lobbyId target lobbies).1 !! code = Some l' →
  Acts env sid (req_guess_witness lobbyId target) lobbies code l'.
Proof.
  unfold guess_witness. destruct (lobbies !! lobbyId) as [l|] eqn:Hl; [|unchanged].
  destruct (Status.eqb (Lobby.status l) Status.witness_guessing) eqn:Hst; [|unchanged].
  apply Status_eqb_eq in Hst.
  destruct (List.find (Player.has_id sid) _) as [p|] eqn:Hp; [|unchanged].
  destruct (Player.is_killer p) eqn:Hk; [|unchanged].
  apply (acts_insert _ _ _ _ _ l); [done | | done]. by eapply step_guess_witness.
Qed.

Lemma start_voting_acts env sid lobbyId (lobbies : Lobbies) code l' :
  (start_voting sid lobbyId lobbies).1 !! code = Some l' →
  Acts env sid (req_start_voting lobbyId) lobbies code l'.
Proof.
  unfold start_voting. destruct (lobbies !! lobbyId) as [l|] eqn:Hl; [|unchanged].
  destruct (Status.eqb (Lobby.status l) Status.discussion) eqn:Hst; [|unchanged].
  apply Status_eqb_eq in Hst.
  destruct (callerIsHost sid l) eqn:Hhost; [|unchanged].
  apply (acts_insert _ _ _ _ _ l); [done | | done]. by apply step_start_voting.
Qed.

Lemma create_lobby_acts env sid name (lobbies : Lobbies) code l' :
  (create_lobby env sid name lobbies).1 !! code = Some l' →
  Acts env sid (req_create_lobby name) lobbies code l'.
Proof.
  simpl. rewrite lookup_insert. case_decide as Hc.
  - intros [= <-]. right. left. exists name. done.
  - unchanged.
Qed.

(** Whatever the request, a lobby found in the registry afterwards was
    there unchanged, was just created, or comes from a lobby with the same
    code by one step of the request. *)
Lemma handle_acts env sid req (lobbies : Lobbies) code l' :
  (handle env sid req lobbies).1 !! code = Some l' →
  Acts env sid req lobbies code l'.
Proof.
  destruct req; cbn [handle].
  - apply create_lobby_acts.
  - apply join_lobby_acts.
  - apply leave_lobby_acts.
  - apply start_game_acts.
  - apply move_acts.
  - apply task_completed_acts.
  - apply lock_task_acts.
  - apply steal_clue_acts.
  - apply vote_acts.
  - apply guess_witness_acts.
  - apply start_voting_acts.
  - apply disconnect_acts.
  - apply timeout_acts.
Qed.

End steps.

(** ** Invariants of the registry *)

Section invariants.

Lemma updateFirst_fmap {B : Type} (proj : Player.t → B) (f : Player.t → bool) g players :
  (∀ p, proj (g p) = proj p) →
  proj <$> updateFirst f g players = proj <$> players.
Proof.
  intros Hg. induction players as [|p ps IH]; [done|].
  cbn [updateFirst]. destruct (f p); rewrite !fmap_cons, ?Hg, ?IH; done.
Qed.

Lemma assignRoles_fmap {B : Type} (proj : Player.t → B) env players :
  (∀ r p, proj (Player.with_role r p) = proj p) →
  proj <$> assignRoles env players = proj <$> players.
Proof.
  intros Hproj. unfold assignRoles. apply list_eq. intros i.
  rewrite !list_lookup_fmap, list_lookup_imap.
  destruct (players !! i); simpl; by rewrite ?Hproj.
Qed.

Lemma promoteFirst_fmap {B : Type} (proj : Player.t → B) players :
  (∀ b p, proj (Player.with_isHost b p) = proj p) →
  proj <$> promoteFirst players = proj <$> players.
Proof. intros Hproj. destruct players; [done|]. simpl. by rewrite Hproj. Qed.

Lemma hostCount_ext (players players' : list Player.t) :
  Player.isHost <$> players' = Player.isHost <$> players →
  hostCount players' = hostCount players.
Proof.
  revert players'. induction players as [|p ps IH]; intros [|q qs] Heq;
    try done.
  rewrite !fmap_cons in Heq. injection Heq as Hq Hqs.
  unfold hostCount in *. simpl. rewrite Hq.
  destruct (Player.isHost p); simpl; by rewrite (IH qs).
Qed.

Lemma countRole_ext r (players players' : list Player.t) :
  Player.role <$> players' = Player.role <$> players →
  countRole r players' = countRole r players.
Proof. intros Heq. by rewrite !countRole_count_occ, Heq. Qed.

Lemma roles_ext (Q : option Role.t → Prop) (players players' : list Player.t) :
  Player.role <$> players' = Player.role <$> players →
  (∀ p, p ∈ players → Q (Player.role p)) →
  ∀ p, p ∈ players' → Q (Player.role p).
Proof.
  intros Heq H p Hp.
  assert (Player.role p ∈ Player.role <$> players) as (q & -> & Hq)%list_elem_of_fmap.
  { rewrite <- Heq. apply list_elem_of_fmap. eauto. }
  by apply H.
Qed.

Lemma head_host_ext (players players' : list Player.t) p ps :
  Player.isHost <$> players' = Player.isHost <$> players →
  players = p :: ps → Player.isHost p = true →
  ∃ q qs, players' = q :: qs ∧ Player.isHost q = true.
Proof.
  intros Heq -> Hp. destruct players' as [|q qs]; [done|].
  rewrite !fmap_cons in Heq. injection Heq as Hq _. exists q, qs. split; congruence.
Qed.

(** A step that keeps the id, the names, the host marks and the roles of
    the players, does not enter or leave the status [lobby], and keeps the
    number of tasks. *)
Lemma wf_update code l l' :
  WellFormed code l →
  Lobby.id l' = Lobby.id l →
  Player.name <$> Lobby.players l' = Player.name <$> Lobby.players l →
  Player.isHost <$> Lobby.players l' = Player.isHost <$> Lobby.players l →
  Player.role <$> Lobby.players l' = Player.role <$> Lobby.players l →
  (Lobby.status l = Status.lobby →
   Lobby.status l' = Status.lobby ∧ Lobby.tasks l' = Lobby.tasks l ∧
   Lobby.clues l' = Lobby.clues l ∧ Lobby.winner l' = Lobby.winner l ∧
   Lobby.startTime l' = Lobby.startTime l) →
  (Lobby.status l ≠ Status.lobby → Lobby.status l' ≠ Status.lobby) →
  length (Lobby.tasks l') = length (Lobby.tasks l) →
  (∀ task, task ∈ Lobby.tasks l' → NoDup (GameTask.lockedFor task)) →
  (Lobby.status l' = Status.game_over → is_Some (Lobby.winner l')) →
  WellFormed code l'.
Proof.
  intros [] Hid Hnames Hhosts Hroles Hlobby Hgame Htasks Hlocked Hwinner.
  assert (Lobby.status l' = Status.lobby → Lobby.status l = Status.lobby) as Hback.
  { intros Hst. destruct (Status.eqb (Lobby.status l) Status.lobby) eqn:Hl;
      [by apply Status_eqb_eq|].
    apply Status_eqb_neq in Hl. by destruct (Hgame Hl). }
  assert (Lobby.status l' ≠ Status.lobby → Lobby.status l ≠ Status.lobby) as Hforth.
  { intros Hne Hst. destruct (Hlobby Hst) as [? _]. done. }
  split.
  - congruence.
  - intros Hnil. rewrite Hnil in Hnames. by destruct (Lobby.players l).
  - unfold playerNames in *. by rewrite Hnames.
  - by rewrite (hostCount_ext _ _ Hhosts).
  - intros Hst. destruct (wf_host_first0 (Hback Hst)) as (p & ps & Hps & Hp).
    by eapply head_host_ext.
  - intros Hst. apply (roles_ext (λ r, r = None) _ _ Hroles). auto.
  - intros Hst. apply (roles_ext is_Some _ _ Hroles). auto.
  - by rewrite (countRole_ext _ _ _ Hroles).
  - by rewrite (countRole_ext _ _ _ Hroles).
  - done.
  - intros Hst. destruct (Hlobby (Hback Hst)) as (_ & -> & -> & -> & ->). auto.
  - intros Hst. rewrite Htasks. auto.
  - done.
Qed.

Lemma updateFirst_elem {A : Type} (f : A → bool) g (xs : list A) x :
  x ∈ updateFirst f g xs → x ∈ xs ∨ ∃ k, List.find f xs = Some k ∧ x = g k.
Proof.
  induction xs as [|k ks IH]; simpl; [by intros ?%elem_of_nil|].
  destruct (f k) eqn:Hk.
  - intros [->|?]%elem_of_cons; [right; eauto | left; by right].
  - intros [->|Hin]%elem_of_cons; [left; left|].
    destruct (IH Hin) as [?|?]; [left; by right | by right].
Qed.

Lemma includes_false sid (xs : list string) : includes sid xs = false → sid ∉ xs.
Proof.
  unfold includes. intros Hf Hin.
  assert (existsb (String.eqb sid) xs = true); [|congruence].
  apply existsb_exists. exists sid. split; [by apply list_elem_of_In|].
  apply String.eqb_refl.
Qed.

Lemma resolve_cases l :
  resolve l = Lobby.with_status Status.game_over
                (Lobby.with_winner (Some Winner.killer) l) ∨
  resolve l = Lobby.with_status Status.witness_guessing l.
Proof.
  unfold resolve. destruct (scan _) as [[? ?] ?]. destruct (_ || _); auto.
Qed.

Lemma filter_delete_le {A : Type} (f : A → bool) (xs : list A) i :
  length (List.filter f (delete i xs)) ≤ length (List.filter f xs).
Proof.
  revert i. induction xs as [|x xs IH]; intros [|i]; simpl; try lia.
  - destruct (f x); simpl; lia.
  - specialize (IH i). destruct (f x); simpl; lia.
Qed.

Lemma elem_of_delete {A : Type} (xs : list A) i x : x ∈ delete i xs → x ∈ xs.
Proof. apply list_elem_of_delete_inv. Qed.

Lemma countRole_snoc_None r players p :
  Player.role p = None → countRole r (players ++ [p]) = countRole r players.
Proof.
  intros Hp. unfold countRole. rewrite List.filter_app, length_app. simpl.
  rewrite Hp. case_bool_decide; [done|]. simpl. lia.
Qed.

Lemma wf_newLobby env sid name :
  WellFormed (Env.randomCode env 0) (newLobby env sid name).
Proof.
  split; simpl.
  - done.
  - done.
  - unfold playerNames. simpl. apply NoDup_singleton.
  - unfold hostCount. simpl. lia.
  - eauto.
  - by intros _ p ->%list_elem_of_singleton.
  - done.
  - unfold countRole. simpl. lia.
  - unfold countRole. simpl. lia.
  - done.
  - done.
  - done.
  - by intros task ?%elem_of_nil.
Qed.

Lemma wf_join code env sid name l :
  WellFormed code l →
  Lobby.status l = Status.lobby →
  WellFormed code (Lobby.with_players (Lobby.players l ++ [joiner env sid name l]) l).
Proof.
  intros [] Hst. split; simpl.
  - done.
  - by destruct (Lobby.players l).
  - unfold playerNames in *. simpl. rewrite fmap_app. apply NoDup_app.
    split_and!; [done | | apply NoDup_singleton].
    intros x Hx ->%list_elem_of_singleton.
    by apply (uniqueName_free (Lobby.players l) name).
  - unfold hostCount in *. rewrite List.filter_app, length_app. simpl. lia.
  - intros _. destruct (wf_host_first0 Hst) as (p & ps & -> & Hp). simpl. eauto.
  - intros _ p [Hp| ->%list_elem_of_singleton]%elem_of_app; [auto | done].
  - done.
  - by rewrite countRole_snoc_None.
  - by rewrite countRole_snoc_None.
  - done.
  - done.
  - done.
  - done.
Qed.

Lemma wf_departure code l i :
  WellFormed code l →
  is_Some (Lobby.players l !! i) →
  delete i (Lobby.players l) ≠ [] →
  WellFormed code (Lobby.with_players (afterDeparture i l) l).
Proof.
  intros [] Hi Hne.
  assert (Player.name <$> afterDeparture i l
          = Player.name <$> delete i (Lobby.players l)) as Hnames.
  { unfold afterDeparture. destruct (Status.eqb _ _); [|done].
    by apply promoteFirst_fmap. }
  assert (Player.role <$> afterDeparture i l
          = Player.role <$> delete i (Lobby.players l)) as Hroles.
  { unfold afterDeparture. destruct (Status.eqb _ _); [|done].
    by apply promoteFirst_fmap. }
  assert (∀ r, countRole r (afterDeparture i l) ≤ countRole r (Lobby.players l))
    as Hcount.
  { intros r. rewrite (countRole_ext _ _ _ Hroles). apply filter_delete_le. }
  split; simpl.
  - done.
  - unfold afterDeparture. destruct (Status.eqb _ _); [|done].
    destruct (delete i (Lobby.players l)); done.
  - unfold playerNames in *. simpl. rewrite Hnames, list_fmap_delete.
    eapply sublist_NoDup; [done | apply sublist_delete].
  - unfold afterDeparture.
    destruct (Status.eqb (Lobby.status l) Status.lobby) eqn:Hst.
    + apply Status_eqb_eq in Hst.
      destruct (wf_host_first0 Hst) as (p & ps & Hps & Hp).
      rewrite Hps in *. unfold hostCount in *. simpl in wf_hosts0.
      rewrite Hp in wf_hosts0. simpl in wf_hosts0.
      destruct i as [|i]; simpl.
      * simpl in Hne. destruct ps as [|q qs]; [done|]. simpl in *.
        destruct (Player.isHost q); simpl in *; lia.
      * pose proof (filter_delete_le Player.isHost ps i). lia.
    + unfold hostCount in *.
      pose proof (filter_delete_le Player.isHost (Lobby.players l) i). lia.
  - intros Hst. unfold afterDeparture. rewrite Hst. simpl.
    destruct (delete i (Lobby.players l)) as [|q qs]; [done|]. simpl. eauto.
  - intros Hst. apply (roles_ext (λ r, r = None) (delete i (Lobby.players l))); [done|].
    intros p Hp%elem_of_delete. auto.
  - intros Hst. apply (roles_ext is_Some (delete i (Lobby.players l))); [done|].
    intros p Hp%elem_of_delete. auto.
  - specialize (Hcount Role.killer). lia.
  - specialize (Hcount Role.witness). lia.
  - done.
  - done.
  - done.
  - done.
Qed.

Lemma generateTasks_length env : length (generateTasks env) = 15.
Proof. reflexivity. Qed.

Lemma wf_start_game code env l :
  WellFormed code l →
  3 ≤ length (Lobby.players l) →
  WellFormed code (run (start_game_steps env l) l).
Proof.
  intros [] Hlen.
  assert ((Player.role <$> assignRoles env (Lobby.players l))
            ≡ₚ (Some <$> expectedRoles (length (Lobby.players l)))) as Hperm.
  { rewrite assignRoles_roles by done. apply fmap_Permutation.
    unfold shuffledRoles. rewrite shuffle_Permutation. by apply rolePool_expected. }
  split; simpl.
  - done.
  - intros Hnil. apply (f_equal length) in Hnil.
    rewrite assignRoles_length in Hnil. simpl in Hnil. lia.
  - unfold playerNames in *. simpl. by rewrite assignRoles_fmap.
  - rewrite (hostCount_ext (Lobby.players l)); [done|]. by apply assignRoles_fmap.
  - done.
  - done.
  - intros _ p Hp.
    assert (Player.role p ∈ Some <$> expectedRoles (length (Lobby.players l)))
      as (r & -> & _)%list_elem_of_fmap; [|done].
    rewrite <- Hperm. apply list_elem_of_fmap. eauto.
  - rewrite countRole_count_occ, (proj1 (Permutation_count_occ _ _ _) Hperm).
    by rewrite count_occ_expected.
  - rewrite countRole_count_occ, (proj1 (Permutation_count_occ _ _ _) Hperm).
    by rewrite count_occ_expected.
  - done.
  - done.
  - done.
  - intros task Htask. unfold generateTasks in Htask.
    apply list_elem_of_In, in_map_iff in Htask as (i & <- & _). simpl. constructor.
Qed.

Ltac wf_side Hwf :=
  simpl; rewrite ?find_updateFirst_length;
  first [ done | congruence | by apply updateFirst_fmap
        | by apply (wf_locked _ _ Hwf) | by eauto ].

Lemma wf_step code sid req l l' :
  WellFormed code l → LobbyStep sid req l l' → WellFormed code l'.
Proof.
  intros Hwf Hstep. destruct Hstep.
  - by apply wf_join.
  - apply wf_departure; [done | | done].
    destruct (findIndex_Some _ _ _ H) as (x & ? & _). eauto.
  - apply wf_departure; [done | | done].
    destruct (findIndex_Some _ _ _ H) as (x & ? & _). eauto.
  - by apply wf_start_game.
  - apply (wf_update code l); [exact Hwf | wf_side Hwf ..].
  - apply (wf_update code l); [exact Hwf | wf_side Hwf ..].
  - apply (wf_update code l); [exact Hwf | try wf_side Hwf ..].
    simpl. intros k [Hk|(k' & Hk' & ->)]%updateFirst_elem.
    + by apply (wf_locked _ _ Hwf).
    + simpl. apply (wf_locked _ _ Hwf). apply find_some in Hk' as [Hin _].
      by apply list_elem_of_In.
  - apply (wf_update code l); [exact Hwf | try wf_side Hwf ..].
    simpl. intros k [Hk|(k' & Hk' & ->)]%updateFirst_elem.
    + by apply (wf_locked _ _ Hwf).
    + simpl. apply (wf_locked _ _ Hwf). apply find_some in Hk' as [Hin _].
      by apply list_elem_of_In.
  - apply (wf_update code l); [exact Hwf | try wf_side Hwf ..].
    simpl. intros k [Hk|(k' & Hk' & ->)]%updateFirst_elem.
    + by apply (wf_locked _ _ Hwf).
    + assert (k' = task) as -> by congruence. simpl.
      apply NoDup_app. split_and!.
      * apply (wf_locked _ _ Hwf). apply find_some in H0 as [Hin _].
        by apply list_elem_of_In.
      * intros x Hx ->%list_elem_of_singleton. by apply (includes_false _ _ H1).
      * apply NoDup_singleton.
  - apply (wf_update code l); [exact Hwf | wf_side Hwf ..].
  - apply (wf_update code l); [exact Hwf | wf_side Hwf ..].
  - apply (wf_update code l); [exact Hwf | wf_side Hwf ..].
  - assert (WellFormed code (recordVote sid target l)) as Hwf'.
    { apply (wf_update code l); [exact Hwf | wf_side Hwf ..]. }
    destruct (resolve_cases (recordVote sid target l)) as [-> | ->];
      (apply (wf_update code (recordVote sid target l));
       [exact Hwf' | wf_side Hwf' ..]).
  - apply (wf_update code l); [exact Hwf | wf_side Hwf ..].
  - apply (wf_update code l); [exact Hwf | wf_side Hwf ..].
Qed.

(** Every lobby of a reachable registry is well formed. *)
Lemma reachable_wellFormed (lobbies : Lobbies) code l :
  reachable lobbies → lobbies !! code = Some l → WellFormed code l.
Proof.
  intros Hreach. revert code l.
  induction Hreach as [|env sid req lobbies _ IH]; intros code l'.
  - by rewrite lookup_empty.
  - intros [Hsame | [(name & -> & -> & ->) | (l & Hl & Hstep & _)]]%(handle_acts env).
    + by apply IH.
    + apply wf_newLobby.
    + eapply wf_step; [by apply IH | done].
Qed.

End invariants.

Lemma sample_afterJoins_reachable : reachable Sample.afterJoins.
Proof. repeat apply reachable_step. apply reachable_init. Qed.

Lemma sample_afterStart_reachable : reachable Sample.afterStart.
Proof. apply reachable_step. apply sample_afterJoins_reachable. Qed.

(** X1.  The registry never holds an empty lobby, and every lobby is
    stored under its own id. *)
Theorem registry_lobbies_keyed_and_inhabited (lobbies : Lobbies) code l :
  reachable lobbies →
  lobbies !! code = Some l →
  Lobby.id l = code ∧ Lobby.players l ≠ [].
Proof.
  intros Hreach Hl. destruct (reachable_wellFormed _ _ _ Hreach Hl). done.
Qed.

Lemma registry_lobbies_keyed_and_inhabited_witness :
  ∃ l, Sample.afterStart !! "ABC123" = Some l ∧
       Lobby.id l = "ABC123" ∧ Lobby.players l ≠ [].
Proof.
  eexists. split; [vm_compute; reflexivity|].
  apply (registry_lobbies_keyed_and_inhabited Sample.afterStart).
  - apply sample_afterStart_reachable.
  - vm_compute. reflexivity.
Defined.

(** X2.  The display names of the players of a lobby are pairwise
    distinct in every reachable state. *)
Theorem names_unique (lobbies : Lobbies) code l :
  reachable lobbies →
  lobbies !! code = Some l →
  NoDup (playerNames l).
Proof.
  intros Hreach Hl. destruct (reachable_wellFormed _ _ _ Hreach Hl). done.
Qed.

Lemma names_unique_witness :
  ∃ l, Sample.afterJoins !! "ABC123" = Some l ∧
       playerNames l = ["Alex"; "Alex 1"; "Alex 2"] ∧ NoDup (playerNames l).
Proof.
  eexists. split; [vm_compute; reflexivity|]. split; [reflexivity|].
  apply (names_unique Sample.afterJoins "ABC123").
  - apply sample_afterJoins_reachable.
  - vm_compute. reflexivity.
Defined.

(** X3.  A lobby never has two hosts; while it is in status [lobby] it has
    exactly one, its first player. *)
Theorem host_invariant (lobbies : Lobbies) code l :
  reachable lobbies →
  lobbies !! code = Some l →
  hostCount (Lobby.players l) ≤ 1 ∧
  (Lobby.status l = Status.lobby →
   hostCount (Lobby.players l) = 1 ∧
   ∃ p ps, Lobby.players l = p :: ps ∧ Player.isHost p = true).
Proof.
  intros Hreach Hl. destruct (reachable_wellFormed _ _ _ Hreach Hl).
  split; [done|]. intros Hst.
  destruct (wf_host_first0 Hst) as (p & ps & Hps & Hp). split; [|eauto].
  rewrite Hps in *. unfold hostCount in *. simpl in *. rewrite Hp in *.
  simpl in *. lia.
Qed.

Lemma host_invariant_witness :
  ∃ l, Sample.afterJoins !! "ABC123" = Some l ∧
       Lobby.status l = Status.lobby ∧
       hostCount (Lobby.players l) = 1.
Proof.
  eexists. split; [vm_compute; reflexivity|]. split; [reflexivity|].
  apply (host_invariant Sample.afterJoins "ABC123").
  - apply sample_afterJoins_reachable.
  - vm_compute. reflexivity.
  - reflexivity.
Defined.

(** X4.  Roles and status go together: no player has a role while the lobby
    is in status [lobby], every player has one in any later status, and at
    no time is there more than one killer or more than one witness. *)
Theorem roles_invariant (lobbies : Lobbies) code l :
  reachable lobbies →
  lobbies !! code = Some l →
  (Lobby.status l = Status.lobby →
   ∀ p, p ∈ Lobby.players l → Player.role p = None) ∧
  (Lobby.status l ≠ Status.lobby →
   ∀ p, p ∈ Lobby.players l → is_Some (Player.role p)) ∧
  countRole Role.killer (Lobby.players l) ≤ 1 ∧
  countRole Role.witness (Lobby.players l) ≤ 1.
Proof.
  intros Hreach Hl. destruct (reachable_wellFormed _ _ _ Hreach Hl). done.
Qed.

Lemma roles_invariant_witness :
  ∃ l, Sample.afterStart !! "ABC123" = Some l ∧
       Lobby.status l = Status.playing ∧
       (∀ p, p ∈ Lobby.players l → is_Some (Player.role p)) ∧
       countRole Role.killer (Lobby.players l) ≤ 1.
Proof.
  eexists. split; [vm_compute; reflexivity|]. split; [reflexivity|].
  edestruct (roles_invariant Sample.afterStart "ABC123") as (_ & Hroles & Hk & _).
  - apply sample_afterStart_reachable.
  - vm_compute. reflexivity.
  - split; [|exact Hk]. apply Hroles. discriminate.
Defined.

(** X5.  A lobby in status [game_over] has a winner, and a lobby still in
    status [lobby] has no winner, no start time, no task and no clue. *)
Theorem winner_and_phase (lobbies : Lobbies) code l :
  reachable lobbies →
  lobbies !! code = Some l →
  (Lobby.status l = Status.game_over → is_Some (Lobby.winner l)) ∧
  (Lobby.status l = Status.lobby →
   Lobby.tasks l = [] ∧ Lobby.clues l = [] ∧ Lobby.winner l = None ∧
   Lobby.startTime l = None).
Proof.
  intros Hreach Hl. destruct (reachable_wellFormed _ _ _ Hreach Hl). done.
Qed.

Lemma winner_and_phase_witness :
  ∃ l, Sample.afterJoins !! "ABC123" = Some l ∧
       Lobby.tasks l = [] ∧ Lobby.clues l = [] ∧ Lobby.winner l = None ∧
       Lobby.startTime l = None.
Proof.
  eexists. split; [vm_compute; reflexivity|].
  apply (winner_and_phase Sample.afterJoins "ABC123").
  - apply sample_afterJoins_reachable.
  - vm_compute. reflexivity.
  - reflexivity.
Defined.

(** X6.  Once a game has started the lobby has exactly 15 tasks, whatever
    happens to them, and no task lists a connection twice in
    [lockedFor]. *)
Theorem tasks_invariant (lobbies : Lobbies) code l :
  reachable lobbies →
  lobbies !! code = Some l →
  (Lobby.status l ≠ Status.lobby → length (Lobby.tasks l) = 15) ∧
  (∀ task, task ∈ Lobby.tasks l → NoDup (GameTask.lockedFor task)).
Proof.
  intros Hreach Hl. destruct (reachable_wellFormed _ _ _ Hreach Hl). done.
Qed.

Lemma tasks_invariant_witness :
  ∃ l, Sample.afterStart !! "ABC123" = Some l ∧ length (Lobby.tasks l) = 15.
Proof.
  eexists. split; [vm_compute; reflexivity|].
  apply (tasks_invariant Sample.afterStart "ABC123").
  - apply sample_afterStart_reachable.
  - vm_compute. reflexivity.
  - discriminate.
Defined.

(** ** One request at a time *)

Section one_request.

(** The registry after a request addressed to [lobbyId]: as before, with
    the lobby under [lobbyId] replaced, or (when the last player leaves)
    without it. *)
Lemma handle_shape env sid req (lobbies : Lobbies) lobbyId :
  addressee req = Some lobbyId →
  (handle env sid req lobbies).1 = lobbies ∨
  (∃ x, (handle env sid req lobbies).1 = <[lobbyId := x]> lobbies ∧
        is_Some (lobbies !! lobbyId)) ∨
  ((handle env sid req lobbies).1 = delete lobbyId lobbies ∧
   req = req_leave_lobby lobbyId ∧
   ∃ l p, lobbies !! lobbyId = Some l ∧ Lobby.players l = [p] ∧
          Player.id p = sid).
Proof.
  destruct req; simpl; intros [= ->];
    try (match goal with
         | |- context [(?h _).1] => idtac
         end);
    try (unfold join_lobby, start_game, move, task_completed, lock_task, steal_clue,
           vote, guess_witness, start_voting, timeout;
         repeat case_match; simpl; eauto 6; fail).
  (* leave_lobby *)
  unfold leave_lobby.
  destruct (lobbies !! lobbyId) as [l|] eqn:Hl; [|destruct (inherited _); by left].
  destruct (findIndex _ _) as [i|] eqn:Hi; [|by left].
  destruct (length _ =? 0) eqn:Hlen; simpl; [|eauto 6].
  right. right. split_and!; [done | done |].
  destruct (findIndex_Some _ _ _ Hi) as (p & Hp & Hid & _).
  exists l, p. split; [done|].
  apply Nat.eqb_eq in Hlen. rewrite length_delete in Hlen by eauto.
  apply lookup_lt_Some in Hp as Hlt.
  destruct (Lobby.players l) as [|q [|q' qs]]; simpl in *; try lia.
  destruct i as [|i]; simpl in *; [|lia]. injection Hp as ->.
  split; [done|]. unfold Player.has_id in Hid. by apply String.eqb_eq.
Qed.

End one_request.

(** X7.  A request addressed to one lobby leaves every other lobby of the
    registry as it is; [create_lobby] touches only the code it draws, where
    it stores the new lobby even if a lobby was there. *)
Theorem requests_touch_one_lobby env sid req (lobbies : Lobbies) code :
  (∀ lobbyId, addressee req = Some lobbyId → lobbyId ≠ code →
     (handle env sid req lobbies).1 !! code = lobbies !! code) ∧
  (∀ name, req = req_create_lobby name →
     (handle env sid req lobbies).1 !! (Env.randomCode env 0)
       = Some (newLobby env sid name) ∧
     (code ≠ Env.randomCode env 0 →
      (handle env sid req lobbies).1 !! code = lobbies !! code)).
Proof.
  split.
  - intros lobbyId Haddr Hne.
    destruct (handle_shape env sid req lobbies lobbyId Haddr)
      as [-> | [(x & -> & _) | (-> & _)]].
    + done.
    + by rewrite lookup_insert_ne.
    + by rewrite lookup_delete_ne.
  - intros name ->. simpl. split.
    + apply lookup_insert_eq.
    + intros Hne. by rewrite lookup_insert_ne.
Qed.

Lemma requests_touch_one_lobby_witness :
  (start_game Sample.env "a" "ROOM"
     (<["OTHER" := Sample.lastVote]> (Sample.only Sample.waiting))).1 !! "OTHER"
  = (<["OTHER" := Sample.lastVote]> (Sample.only Sample.waiting)) !! "OTHER".
Proof.
  apply (proj1 (requests_touch_one_lobby Sample.env "a" (req_start_game "ROOM")
                  (<["OTHER" := Sample.lastVote]> (Sample.only Sample.waiting))
                  "OTHER") "ROOM").
  - reflexivity.
  - discriminate.
Defined.

(** X8.  A lobby leaves the registry only when its last player leaves it:
    by [leave_lobby], or by a disconnect while the lobby is in status
    [lobby]. *)
Theorem lobby_deleted_only_when_empty env sid req (lobbies : Lobbies) code l :
  lobbies !! code = Some l →
  (handle env sid req lobbies).1 !! code = None →
  (∃ p, Lobby.players l = [p] ∧ Player.id p = sid) ∧
  (req = req_leave_lobby code ∨
   (req = req_disconnect ∧ Lobby.status l = Status.lobby)).
Proof.
  intros Hl Hnone.
  destruct (addressee req) as [lobbyId|] eqn:Haddr.
  - destruct (handle_shape env sid req lobbies lobbyId Haddr)
      as [Heq | [(x & Heq & _) | (Heq & -> & l0 & p & Hl0 & Hps & Hid)]];
      rewrite Heq in Hnone.
    + congruence.
    + rewrite lookup_insert in Hnone. case_decide; congruence.
    + rewrite lookup_delete in Hnone. case_decide as Hc; [|congruence].
      subst lobbyId. assert (l0 = l) as -> by congruence. eauto.
  - destruct req; try discriminate Haddr; simpl in Hnone.
    + rewrite lookup_insert in Hnone. case_decide; congruence.
    + rewrite lookup_omap, Hl in Hnone. simpl in Hnone.
      unfold disconnect_lobby in Hnone.
      destruct (findIndex _ _) as [i|] eqn:Hi; [|done].
      destruct (Status.eqb (Lobby.status l) Status.lobby) eqn:Hst; [|done].
      destruct (length _ =? 0) eqn:Hlen; [|done].
      apply Status_eqb_eq in Hst. split; [|auto].
      destruct (findIndex_Some _ _ _ Hi) as (p & Hp & Hid & _).
      exists p. apply Nat.eqb_eq in Hlen. rewrite length_delete in Hlen by eauto.
      apply lookup_lt_Some in Hp as Hlt.
      destruct (Lobby.players l) as [|q [|q' qs]]; simpl in *; try lia.
      destruct i as [|i]; simpl in *; [|lia]. injection Hp as ->.
      split; [done|]. unfold Player.has_id in Hid. by apply String.eqb_eq.
Qed.

Lemma lobby_deleted_only_when_empty_witness :
  (Sample.afterCreate !! "ABC123" = Some (newLobby Sample.env "a" "Alex") ∧
   (handle Sample.env "a" (req_leave_lobby "ABC123") Sample.afterCreate).1 !! "ABC123"
     = None) ∧
  (∃ p, Lobby.players (newLobby Sample.env "a" "Alex") = [p] ∧ Player.id p = "a") ∧
  (req_leave_lobby "ABC123" = req_leave_lobby "ABC123" ∨
   (req_leave_lobby "ABC123" = req_disconnect ∧
    Lobby.status (newLobby Sample.env "a" "Alex") = Status.lobby)).
Proof.
  split; [split; reflexivity|].
  apply (lobby_deleted_only_when_empty Sample.env "a" (req_leave_lobby "ABC123")
           Sample.afterCreate "ABC123"); reflexivity.
Defined.

(** X9.  A disconnect does to every lobby in status [lobby] what
    [leave_lobby] would do to it, and leaves every other lobby as it is. *)
Theorem disconnect_is_leave_in_lobby sid (lobbies : Lobbies) code l :
  lobbies !! code = Some l →
  (disconnect sid lobbies).1 !! code =
  if Status.eqb (Lobby.status l) Status.lobby
  then (leave_lobby sid code lobbies).1 !! code
  else Some l.
Proof.
  intros Hl. simpl. rewrite lookup_omap, Hl. simpl.
  unfold disconnect_lobby, leave_lobby. rewrite Hl.
  destruct (findIndex _ _) as [i|] eqn:Hi; simpl.
  - destruct (Status.eqb _ _) eqn:Hst; [|done].
    destruct (length _ =? 0); simpl.
    + by rewrite lookup_delete_eq.
    + by rewrite lookup_insert_eq.
  - by destruct (Status.eqb _ _).
Qed.

Lemma disconnect_is_leave_in_lobby_witness :
  (disconnect "a" (Sample.only Sample.waiting)).1 !! "ROOM"
  = (leave_lobby "a" "ROOM" (Sample.only Sample.waiting)).1 !! "ROOM" ∧
  (disconnect "A" (Sample.only Sample.playing3)).1 !! "ROOM"
  = Some Sample.playing3.
Proof.
  split.
  - apply (disconnect_is_leave_in_lobby "a" (Sample.only Sample.waiting) "ROOM"
             Sample.waiting). reflexivity.
  - apply (disconnect_is_leave_in_lobby "A" (Sample.only Sample.playing3) "ROOM"
             Sample.playing3). reflexivity.
Defined.

(** ** What a step keeps *)

Section kept.

Lemma resolve_status l :
  Lobby.status (resolve l) = Status.game_over ∨
  Lobby.status (resolve l) = Status.witness_guessing.
Proof. destruct (resolve_cases l) as [-> | ->]; auto. Qed.

Lemma resolve_clues l : Lobby.clues (resolve l) = Lobby.clues l.
Proof. by destruct (resolve_cases l) as [-> | ->]. Qed.

Lemma resolve_tasks l : Lobby.tasks (resolve l) = Lobby.tasks l.
Proof. by destruct (resolve_cases l) as [-> | ->]. Qed.

Lemma step_status sid req l l' :
  LobbyStep sid req l l' →
  Lobby.status l' = Lobby.status l ∨
  arrow (Lobby.status l) (Lobby.status l') = true ∨
  (∃ lobbyId, req = req_start_game lobbyId ∧ Lobby.status l' = Status.playing).
Proof.
  intros Hstep. destruct Hstep; simpl;
    try (left; reflexivity);
    try (right; left; match goal with H : Lobby.status _ = _ |- _ => by rewrite H end).
  - right. right. eauto.
  - right. left. rewrite H.
    destruct (resolve_status (recordVote sid target l)) as [Hs | Hs];
      simpl in Hs; by rewrite Hs.
Qed.

Lemma callerIsHost_hostCount sid l :
  callerIsHost sid l = true → 0 < hostCount (Lobby.players l).
Proof.
  unfold callerIsHost. destruct (List.find _ _) as [p|] eqn:Hp; [|done].
  intros Hhost. apply find_some in Hp as [Hin _].
  unfold hostCount. induction (Lobby.players l) as [|q qs IH]; [done|].
  simpl. destruct Hin as [-> | Hin].
  - rewrite Hhost. simpl. lia.
  - specialize (IH Hin). destruct (Player.isHost q); simpl; lia.
Qed.

Lemma step_clues sid req l l' :
  LobbyStep sid req l l' →
  ∀ i c, Lobby.clues l !! i = Some c →
  ∃ c', Lobby.clues l' !! i = Some c' ∧
        Clue.id c' = Clue.id c ∧ Clue.text c' = Clue.text c ∧
        Clue.foundBy c' = Clue.foundBy c ∧
        (Clue.isTampered c = true → Clue.isTampered c' = true).
Proof.
  intros Hstep i c Hc. destruct Hstep; simpl; rewrite ?resolve_clues; simpl;
    try (exists c; split_and!; done).
  - exists c. split_and!; try done. by apply lookup_app_l_Some.
  - destruct (decide (i = i0)) as [->|Hne].
    + assert (c0 = c) as -> by congruence.
      exists (Clue.with_isTampered true c). split_and!; try done.
      apply list_lookup_insert_eq. by eapply lookup_lt_Some.
    + exists c. split_and!; try done. by rewrite list_lookup_insert_ne.
  - exists c. split_and!; try done. by apply lookup_app_l_Some.
Qed.

Lemma updateFirst_lookup {A : Type} (f : A → bool) g (xs : list A) i x :
  xs !! i = Some x →
  updateFirst f g xs !! i = Some x ∨ updateFirst f g xs !! i = Some (g x).
Proof.
  revert i. induction xs as [|y ys IH]; intros i Hi; [done|]. simpl.
  destruct (f y); destruct i as [|i]; simpl in *; auto.
  injection Hi as ->. auto.
Qed.

Lemma step_tasks sid req l l' :
  LobbyStep sid req l l' →
  (∀ lobbyId, req ≠ req_start_game lobbyId) →
  length (Lobby.tasks l') = length (Lobby.tasks l) ∧
  ∀ i t, Lobby.tasks l !! i = Some t →
  ∃ t', Lobby.tasks l' !! i = Some t' ∧
        GameTask.id t' = GameTask.id t ∧ GameTask.x t' = GameTask.x t ∧
        GameTask.y t' = GameTask.y t ∧ GameTask.type t' = GameTask.type t ∧
        (GameTask.completed t = true → GameTask.completed t' = true) ∧
        GameTask.lockedFor t `prefix_of` GameTask.lockedFor t'.
Proof.
  intros Hstep Hreq.
  assert (∀ f g,
            (∀ t, GameTask.id (g t) = GameTask.id t ∧ GameTask.x (g t) = GameTask.x t ∧
                  GameTask.y (g t) = GameTask.y t ∧
                  GameTask.type (g t) = GameTask.type t ∧
                  (GameTask.completed t = true → GameTask.completed (g t) = true) ∧
                  GameTask.lockedFor t `prefix_of` GameTask.lockedFor (g t)) →
            length (updateFirst f g (Lobby.tasks l)) = length (Lobby.tasks l) ∧
            ∀ i t, Lobby.tasks l !! i = Some t →
            ∃ t', updateFirst f g (Lobby.tasks l) !! i = Some t' ∧
                  GameTask.id t' = GameTask.id t ∧ GameTask.x t' = GameTask.x t ∧
                  GameTask.y t' = GameTask.y t ∧ GameTask.type t' = GameTask.type t ∧
                  (GameTask.completed t = true → GameTask.completed t' = true) ∧
                  GameTask.lockedFor t `prefix_of` GameTask.lockedFor t') as Hupd.
  { intros f g Hg. split; [apply find_updateFirst_length|].
    intros i t Ht. destruct (updateFirst_lookup f g _ _ _ Ht) as [Hi | Hi].
    - exists t. split_and!; first [done | reflexivity].
    - exists (g t). split; [done | apply Hg]. }
  destruct Hstep; simpl; rewrite ?resolve_tasks; simpl;
    try (split; [done|]; intros ? t Ht; exists t; split_and!;
         first [done | reflexivity]).
  - exfalso. by eapply Hreq.
  - apply Hupd. intros t. split_and!; first [done | reflexivity].
  - apply Hupd. intros t. split_and!; first [done | reflexivity].
  - apply Hupd. intros t. split_and!; try done. by apply prefix_app_r.
Qed.

End kept.

(** X10.  Within one lobby the status moves only along the arrows
    lobby -> playing -> discussion -> voting -> witness_guessing or
    game_over, and witness_guessing -> game_over; the one exception is
    [start_game], which does not look at the status and sets it to
    [playing] from wherever it is.  ([create_lobby] drawing a code in use
    replaces the lobby by a new one in status [lobby].) *)
Theorem status_transitions env sid req (lobbies : Lobbies) code l l' :
  lobbies !! code = Some l →
  (handle env sid req lobbies).1 !! code = Some l' →
  Lobby.status l' = Lobby.status l ∨
  arrow (Lobby.status l) (Lobby.status l') = true ∨
  (∃ lobbyId, req = req_start_game lobbyId ∧ Lobby.status l' = Status.playing) ∨
  (∃ name, req = req_create_lobby name ∧ l' = newLobby env sid name).
Proof.
  intros Hl [Hsame | [(name & -> & -> & ->) | (l0 & Hl0 & Hstep & _)]]%handle_acts.
  - left. congruence.
  - right. right. right. eauto.
  - assert (l0 = l) as -> by congruence.
    destruct (step_status _ _ _ _ Hstep) as [? | [? | ?]]; auto.
Qed.

Lemma status_transitions_witness :
  (Sample.only Sample.lastVote !! "ROOM" = Some Sample.lastVote ∧
   ∃ l', (handle Sample.env "D" (req_vote "ROOM" "C")
            (Sample.only Sample.lastVote)).1 !! "ROOM" = Some l' ∧
         arrow (Lobby.status Sample.lastVote) (Lobby.status l') = true) ∧
  (∃ l', (handle Sample.env "a" (req_start_game "ROOM")
            (Sample.only Sample.finished)).1 !! "ROOM" = Some l' ∧
         Lobby.status Sample.finished = Status.game_over ∧
         Lobby.status l' = Status.playing).
Proof.
  split; [split; [reflexivity|]|].
  - eexists. split; [vm_compute; reflexivity|].
    edestruct (status_transitions Sample.env "D" (req_vote "ROOM" "C")
                 (Sample.only Sample.lastVote) "ROOM")
      as [H | [H | [(x & H & _) | (x & H & _)]]];
      [reflexivity | vm_compute; reflexivity | discriminate H | exact H
      | discriminate H | discriminate H].
  - eexists. split; [vm_compute; reflexivity|]. split; [reflexivity|].
    edestruct (status_transitions Sample.env "a" (req_start_game "ROOM")
                 (Sample.only Sample.finished) "ROOM")
      as [H | [H | [(x & _ & H) | (x & H & _)]]];
      [reflexivity | vm_compute; reflexivity | discriminate H | discriminate H
      | exact H | discriminate H].
Defined.

(** X11.  No request removes or rewrites a clue: a clue keeps its position,
    id, text and attribution, and once tampered stays tampered; the list of
    clues only grows.  The exceptions are the removal of the whole lobby
    and its replacement by [create_lobby]. *)
Theorem clues_are_kept env sid req (lobbies : Lobbies) code l l' :
  lobbies !! code = Some l →
  (handle env sid req lobbies).1 !! code = Some l' →
  (∀ name, req ≠ req_create_lobby name) →
  length (Lobby.clues l) ≤ length (Lobby.clues l') ∧
  ∀ i c, Lobby.clues l !! i = Some c →
  ∃ c', Lobby.clues l' !! i = Some c' ∧
        Clue.id c' = Clue.id c ∧ Clue.text c' = Clue.text c ∧
        Clue.foundBy c' = Clue.foundBy c ∧
        (Clue.isTampered c = true → Clue.isTampered c' = true).
Proof.
  intros Hl Hacts Hreq.
  assert (∀ i c, Lobby.clues l !! i = Some c →
          ∃ c', Lobby.clues l' !! i = Some c' ∧
                Clue.id c' = Clue.id c ∧ Clue.text c' = Clue.text c ∧
                Clue.foundBy c' = Clue.foundBy c ∧
                (Clue.isTampered c = true → Clue.isTampered c' = true)) as Hkept.
  { apply handle_acts in Hacts
      as [Hsame | [(name & -> & _) | (l0 & Hl0 & Hstep & _)]].
    - assert (l' = l) as -> by congruence. intros i c Hc. exists c. done.
    - exfalso. by eapply Hreq.
    - assert (l0 = l) as -> by congruence. by eapply step_clues. }
  split; [|done].
  destruct (length (Lobby.clues l)) as [|n] eqn:Hn; [lia|].
  destruct (lookup_lt_is_Some_2 (Lobby.clues l) n) as [c Hc]; [lia|].
  destruct (Hkept n c Hc) as (c' & Hc' & _).
  apply lookup_lt_Some in Hc'. lia.
Qed.

Lemma clues_are_kept_witness :
  Sample.only Sample.withClues !! "ROOM" = Some Sample.withClues ∧
  ∃ l', (handle Sample.env "A" (req_steal_clue "ROOM" "B")
           (Sample.only Sample.withClues)).1 !! "ROOM" = Some l' ∧
        length (Lobby.clues Sample.withClues) ≤ length (Lobby.clues l').
Proof.
  split; [reflexivity|]. eexists. split; [vm_compute; reflexivity|].
  eapply (proj1 (clues_are_kept Sample.env "A" (req_steal_clue "ROOM" "B")
                   (Sample.only Sample.withClues) "ROOM" Sample.withClues _
                   eq_refl _ _)).
  Unshelve.
  - vm_compute. reflexivity.
  - intros name. discriminate.
Defined.

(** X12.  Outside [start_game] (and the replacement of the lobby by
    [create_lobby]), the task list of a lobby keeps its length; every task
    keeps its position, id, place and type; a completed task stays
    completed; and [lockedFor] only grows at its end. *)
Theorem tasks_are_kept env sid req (lobbies : Lobbies) code l l' :
  lobbies !! code = Some l →
  (handle env sid req lobbies).1 !! code = Some l' →
  (∀ name, req ≠ req_create_lobby name) →
  (∀ lobbyId, req ≠ req_start_game lobbyId) →
  length (Lobby.tasks l') = length (Lobby.tasks l) ∧
  ∀ i t, Lobby.tasks l !! i = Some t →
  ∃ t', Lobby.tasks l' !! i = Some t' ∧
        GameTask.id t' = GameTask.id t ∧ GameTask.x t' = GameTask.x t ∧
        GameTask.y t' = GameTask.y t ∧ GameTask.type t' = GameTask.type t ∧
        (GameTask.completed t = true → GameTask.completed t' = true) ∧
        GameTask.lockedFor t `prefix_of` GameTask.lockedFor t'.
Proof.
  intros Hl Hacts Hcreate Hstart.
  apply handle_acts in Hacts
    as [Hsame | [(name & -> & _) | (l0 & Hl0 & Hstep & _)]].
  - assert (l' = l) as -> by congruence. split; [done|].
    intros i t Ht. exists t. split_and!; first [done | reflexivity].
  - exfalso. by eapply Hcreate.
  - assert (l0 = l) as -> by congruence. by eapply step_tasks.
Qed.

Lemma tasks_are_kept_witness :
  Sample.only Sample.playing3 !! "ROOM" = Some Sample.playing3 ∧
  ∃ l', (handle Sample.env "B" (req_lock_task "ROOM" "t2")
           (Sample.only Sample.playing3)).1 !! "ROOM" = Some l' ∧
        length (Lobby.tasks l') = length (Lobby.tasks Sample.playing3).
Proof.
  split; [reflexivity|]. eexists. split; [vm_compute; reflexivity|].
  eapply (proj1 (tasks_are_kept Sample.env "B" (req_lock_task "ROOM" "t2")
                   (Sample.only Sample.playing3) "ROOM" Sample.playing3 _
                   eq_refl _ _ _)).
  Unshelve.
  - vm_compute. reflexivity.
  - intros name. discriminate.
  - intros lobbyId. discriminate.
Defined.

Section causes.

Lemma step_cause sid req l l' :
  LobbyStep sid req l l' →
  Lobby.status l' ≠ Lobby.status l →
  match req with
  | req_start_game _ =>
      callerIsHost sid l = true ∧ 3 ≤ length (Lobby.players l) ∧
      Lobby.status l' = Status.playing
  | req_timeout _ =>
      Lobby.status l = Status.playing ∧ Lobby.status l' = Status.discussion
  | req_start_voting _ =>
      callerIsHost sid l = true ∧ Lobby.status l = Status.discussion ∧
      Lobby.status l' = Status.voting
  | req_vote _ target =>
      Lobby.status l = Status.voting ∧
      is_Some (List.find (Player.has_id sid) (Lobby.players l)) ∧
      every (λ p, truthy (Player.votedFor p))
        (Lobby.players (recordVote sid target l)) = true ∧
      l' = resolve (recordVote sid target l)
  | req_guess_witness _ _ =>
      Lobby.status l = Status.witness_guessing ∧
      (∃ killer, List.find (Player.has_id sid) (Lobby.players l) = Some killer ∧
                 Player.is_killer killer = true) ∧
      Lobby.status l' = Status.game_over
  | _ => False
  end.
Proof.
  intros Hstep Hne. destruct Hstep; simpl in *; try done; eauto 6.
Qed.

End causes.

(** X13.  Who can move a lobby from one status to another: the host by
    [start_game] (with three players or more, from any status) and by
    [start_voting] (from [discussion]); the timer (from [playing]); a
    player whose vote completes the ballot (from [voting]); the killer by
    [guess_witness] (from [witness_guessing]).  No other request, and
    nobody else, changes the status of a lobby that stays in the
    registry. *)
Theorem status_change_cause env sid req (lobbies : Lobbies) code l l' :
  lobbies !! code = Some l →
  (handle env sid req lobbies).1 !! code = Some l' →
  Lobby.status l' ≠ Lobby.status l →
  match req with
  | req_create_lobby name => code = Env.randomCode env 0 ∧ l' = newLobby env sid name
  | req_start_game lobbyId =>
      lobbyId = code ∧
      callerIsHost sid l = true ∧ 3 ≤ length (Lobby.players l) ∧
      Lobby.status l' = Status.playing
  | req_timeout lobbyId =>
      lobbyId = code ∧
      Lobby.status l = Status.playing ∧ Lobby.status l' = Status.discussion
  | req_start_voting lobbyId =>
      lobbyId = code ∧
      callerIsHost sid l = true ∧ Lobby.status l = Status.discussion ∧
      Lobby.status l' = Status.voting
  | req_vote lobbyId target =>
      lobbyId = code ∧
      Lobby.status l = Status.voting ∧
      is_Some (List.find (Player.has_id sid) (Lobby.players l)) ∧
      every (λ p, truthy (Player.votedFor p))
        (Lobby.players (recordVote sid target l)) = true ∧
      l' = resolve (recordVote sid target l)
  | req_guess_witness lobbyId _ =>
      lobbyId = code ∧
      Lobby.status l = Status.witness_guessing ∧
      (∃ killer, List.find (Player.has_id sid) (Lobby.players l) = Some killer ∧
                 Player.is_killer killer = true) ∧
      Lobby.status l' = Status.game_over
  | _ => False
  end.
Proof.
  intros Hl Hacts Hne.
  apply handle_acts in Hacts
    as [Hsame | [(name & -> & -> & ->) | (l0 & Hl0 & Hstep & Haddr)]].
  - destruct Hne. congruence.
  - done.
  - assert (l0 = l) as -> by congruence.
    pose proof (step_cause _ _ _ _ Hstep Hne) as Hcause.
    destruct req; try done; (split; [by apply Haddr | exact Hcause]).
Qed.

Lemma status_change_cause_witness :
  callerIsHost "a" Sample.finished = true ∧
  3 ≤ length (Lobby.players Sample.finished).
Proof.
  pose proof (status_change_cause Sample.env "a" (req_start_game "ROOM")
                (Sample.only Sample.finished) "ROOM" Sample.finished
                (run (start_game_steps Sample.env Sample.finished) Sample.finished)
                eq_refl) as H.
  simpl in H. destruct H as (_ & Hhost & Hlen & _); [| discriminate | done].
  vm_compute. reflexivity.
Defined.

Section hostless.

Lemma step_hostless sid req l l' :
  LobbyStep sid req l l' →
  beforeVote (Lobby.status l) = true →
  hostCount (Lobby.players l) = 0 →
  beforeVote (Lobby.status l') = true ∧ hostCount (Lobby.players l') = 0.
Proof.
  intros Hstep Hst Hhost.
  assert (∀ players' : list Player.t,
            Player.isHost <$> players' = Player.isHost <$> Lobby.players l →
            hostCount players' = 0) as Hext.
  { intros players' Heq. by rewrite (hostCount_ext _ _ Heq). }
  assert (∀ i, hostCount (delete i (Lobby.players l)) = 0) as Hdel.
  { intros i. unfold hostCount in *.
    pose proof (filter_delete_le Player.isHost (Lobby.players l) i). lia. }
  destruct Hstep; simpl in *;
    try (match goal with
         | H : Lobby.status _ = _ |- _ =>
             pose proof Hst as Hst'; rewrite H in Hst'; discriminate Hst'
         end);
    try (match goal with
         | H : callerIsHost _ _ = true |- _ =>
             apply callerIsHost_hostCount in H; lia
         end);
    try (split; [done|]; first [exact Hhost | apply Hext; by apply updateFirst_fmap]).
  - split; [done|]. unfold afterDeparture.
    destruct (Status.eqb (Lobby.status l) Status.lobby) eqn:Heq; [|apply Hdel].
    apply Status_eqb_eq in Heq. rewrite Heq in Hst. discriminate.
Qed.

End hostless.

(** X14.  A game whose host is gone never reaches the vote.  Once a lobby
    in status [playing] or [discussion] has no player marked as host, no
    sequence of requests gives it one or takes it out of these two
    statuses: only the timer still moves it, from [playing] to
    [discussion].  (The lobby may lose all its players and be deleted, or
    be replaced when [create_lobby] draws its code.) *)
Theorem hostless_game_never_votes (reqs : list (Env.t * string * Request))
    (lobbies : Lobbies) code l :
  lobbies !! code = Some l →
  beforeVote (Lobby.status l) = true →
  hostCount (Lobby.players l) = 0 →
  (∀ env sid name, (env, sid, req_create_lobby name) ∈ reqs →
                   Env.randomCode env 0 ≠ code) →
  ∀ l', handleAll reqs lobbies !! code = Some l' →
        beforeVote (Lobby.status l') = true ∧ hostCount (Lobby.players l') = 0.
Proof.
  revert lobbies l. induction reqs as [|[[env sid] req] reqs IH];
    intros lobbies l Hl Hst Hhost Hcodes l' Hl'.
  - simpl in Hl'. assert (l' = l) as -> by congruence. done.
  - simpl in Hl'.
    destruct ((handle env sid req lobbies).1 !! code) as [l1|] eqn:Hl1.
    + apply handle_acts in Hl1 as Hacts.
      assert (beforeVote (Lobby.status l1) = true ∧
              hostCount (Lobby.players l1) = 0) as [Hst1 Hhost1].
      { destruct Hacts as [Hsame | [(name & -> & -> & _) | (l0 & Hl0 & Hstep & _)]].
        - assert (l1 = l) as -> by congruence. done.
        - destruct (Hcodes env sid name); [by left | done].
        - assert (l0 = l) as -> by congruence. by eapply step_hostless. }
      eapply (IH _ l1); try done.
      intros env' sid' name' Hin. apply Hcodes with sid' name'. by right.
    + exfalso. clear IH Hl Hst Hhost l.
      assert (∀ lobbies : Lobbies,
                lobbies !! code = None →
                handleAll reqs lobbies !! code = None) as Hgone.
      { clear lobbies Hl1 Hl'. 
        assert (∀ env sid name, (env, sid, req_create_lobby name) ∈ reqs →
                                Env.randomCode env 0 ≠ code) as Hcodes'.
        { intros env' sid' name' Hin. apply Hcodes with sid' name'. by right. }
        clear Hcodes. induction reqs as [|[[env' sid'] req'] reqs IH];
          intros lobbies Hnone; [done|].
        simpl. apply IH.
        - intros env2 sid2 name2 Hin. apply Hcodes' with sid2 name2. by right.
        - destruct ((handle env' sid' req' lobbies).1 !! code) as [x|] eqn:Hx; [|done].
          apply handle_acts in Hx
            as [Hsame | [(name & -> & -> & _) | (l0 & Hl0 & _)]]; [congruence| |congruence].
          destruct (Hcodes' env' sid' name); [by left | done]. }
      rewrite (Hgone _ Hl1) in Hl'. discriminate.
Qed.

Lemma hostless_game_never_votes_witness :
  ∃ l', handleAll [(Sample.env, "B", req_timeout "ROOM");
                   (Sample.env, "B", req_start_voting "ROOM");
                   (Sample.env, "B", req_start_game "ROOM")]
          (Sample.only Sample.killerGone) !! "ROOM" = Some l' ∧
        beforeVote (Lobby.status l') = true ∧ hostCount (Lobby.players l') = 0.
Proof.
  eexists. split; [vm_compute; reflexivity|].
  eapply (hostless_game_never_votes
            [(Sample.env, "B", req_timeout "ROOM");
             (Sample.env, "B", req_start_voting "ROOM");
             (Sample.env, "B", req_start_game "ROOM")]
            (Sample.only Sample.killerGone) "ROOM" Sample.killerGone).
  - reflexivity.
  - reflexivity.
  - reflexivity.
  - intros env sid name Hin.
    repeat (apply elem_of_cons in Hin as [Hin | Hin]; [discriminate Hin|]).
    by apply elem_of_nil in Hin.
  - vm_compute. reflexivity.
Defined.

(** ** Requests in sequence *)

Section sequences.

Lemma updateFirst_twice {A : Type} (f : A → bool) g g' (xs : list A) :
  (∀ x, f (g x) = f x) →
  (∀ x, g' (g x) = g' x) →
  updateFirst f g' (updateFirst f g xs) = updateFirst f g' xs.
Proof.
  intros Hf Hg. induction xs as [|x xs IH]; [done|]. simpl.
  destruct (f x) eqn:Hx; simpl.
  - by rewrite Hf, Hx, Hg.
  - by rewrite Hx, IH.
Qed.

Lemma has_id_eq sid p : Player.has_id sid p = true → Player.id p = sid.
Proof. unfold Player.has_id. by intros ?%String.eqb_eq. Qed.

Lemma find_has_id sid players p :
  List.find (Player.has_id sid) players = Some p → Player.id p = sid.
Proof. intros [_ H]%find_some. by apply has_id_eq. Qed.

End sequences.

(** X15.  [lockedFor] binds nobody on the server: a player who has just
    locked an open task for themself by [lock_task] still completes it by
    [task_completed], and gets the clue for it. *)
Theorem lock_does_not_bind env sid lobbyId taskId (lobbies : Lobbies) l task player :
  lobbies !! lobbyId = Some l →
  Lobby.status l = Status.playing →
  List.find (GameTask.has_id taskId) (Lobby.tasks l) = Some task →
  GameTask.completed task = false →
  includes sid (GameTask.lockedFor task) = false →
  List.find (Player.has_id sid) (Lobby.players l) = Some player →
  ∃ l' task' clue,
    (task_completed env sid lobbyId taskId
       (lock_task sid lobbyId taskId lobbies).1).1 !! lobbyId = Some l' ∧
    List.find (GameTask.has_id taskId) (Lobby.tasks l') = Some task' ∧
    GameTask.completed task' = true ∧
    sid ∈ GameTask.lockedFor task' ∧
    Lobby.clues l' = Lobby.clues l ++ [clue] ∧
    Clue.foundBy clue = sid.
Proof.
  intros Hl Hst Ht Hc Hincl Hp.
  set (lock := λ k, GameTask.with_lockedFor (GameTask.lockedFor k ++ [sid]) k).
  set (l1 := Lobby.with_tasks
               (updateFirst (GameTask.has_id taskId) lock (Lobby.tasks l)) l).
  assert ((lock_task sid lobbyId taskId lobbies).1 = <[lobbyId := l1]> lobbies)
    as ->.
  { unfold lock_task. rewrite Hl, Hst, Ht, Hincl. simpl. reflexivity. }
  assert (List.find (GameTask.has_id taskId) (Lobby.tasks l1) = Some (lock task))
    as Ht1.
  { simpl. by apply find_updateFirst. }
  destruct (task_completed_by_player env sid lobbyId taskId
              (<[lobbyId := l1]> lobbies) l1 (lock task) player)
    as (target & text & _ & _ & _ & _ & _ & ->);
    [by rewrite lookup_insert_eq | done | done | done | done |].
  eexists _, _, _. simpl. rewrite lookup_insert_eq. split; [reflexivity|].
  split; [simpl; apply (find_completeTask taskId l1 _ Ht1)|].
  split; [done|]. split; [simpl; set_solver|].
  split; [reflexivity|]. simpl. by eapply find_has_id.
Qed.

Lemma lock_does_not_bind_witness :
  ∃ l' task' clue,
    (task_completed Sample.env "B" "ROOM" "t1"
       (lock_task "B" "ROOM" "t1" (Sample.only Sample.playing3)).1).1 !! "ROOM"
      = Some l' ∧
    List.find (GameTask.has_id "t1") (Lobby.tasks l') = Some task' ∧
    GameTask.completed task' = true ∧
    "B" ∈ GameTask.lockedFor task' ∧
    Lobby.clues l' = Lobby.clues Sample.playing3 ++ [clue] ∧
    Clue.foundBy clue = "B".
Proof.
  apply (lock_does_not_bind Sample.env "B" "ROOM" "t1" (Sample.only Sample.playing3)
           Sample.playing3 Sample.task1 Sample.playerB); reflexivity.
Defined.

(** X16.  Until the ballot is complete a player may change their vote: a
    second [vote] of the same connection replaces the first, and the
    registry is as if only the second had been cast. *)
Theorem vote_overwrite sid lobbyId first second (lobbies : Lobbies) l :
  lobbies !! lobbyId = Some l →
  Lobby.status l = Status.voting →
  is_Some (List.find (Player.has_id sid) (Lobby.players l)) →
  every (λ p, truthy (Player.votedFor p)) (Lobby.players (recordVote sid first l))
    = false →
  (vote sid lobbyId second (vote sid lobbyId first lobbies).1).1 =
  (vote sid lobbyId second lobbies).1.
Proof.
  intros Hl Hst [p Hp] Hopen.
  rewrite (vote_unfold sid lobbyId first lobbies l Hl Hst) by eauto.
  rewrite Hopen.
  rewrite (vote_unfold sid lobbyId second _ (recordVote sid first l)).
  - rewrite (vote_unfold sid lobbyId second lobbies l Hl Hst) by eauto.
    rewrite insert_insert_eq.
    assert (recordVote sid second (recordVote sid first l) = recordVote sid second l)
      as ->; [|done].
    unfold recordVote. simpl. by rewrite updateFirst_twice.
  - by rewrite lookup_insert_eq.
  - done.
  - simpl. erewrite find_updateFirst; eauto.
Qed.

Lemma vote_overwrite_witness :
  (vote "C" "ROOM" "B" (vote "C" "ROOM" "D" (Sample.only Sample.lastVote)).1).1 =
  (vote "C" "ROOM" "B" (Sample.only Sample.lastVote)).1.
Proof.
  apply (vote_overwrite "C" "ROOM" "D" "B" (Sample.only Sample.lastVote)
           Sample.lastVote); [reflexivity | reflexivity | | reflexivity].
  vm_compute. eauto.
Defined.

(** X17.  [start_game] does not look at the status and resets only the
    roles, the task pool, the status and the two times.  Sent by the host
    of a lobby of three players or more in any status, it puts the lobby in
    status [playing] with a fresh pool of open, unlocked tasks, and keeps
    the clues, the winner, the votes, the used steal abilities and the
    positions of the game before. *)
Theorem start_game_keeps env sid lobbyId (lobbies : Lobbies) l :
  lobbies !! lobbyId = Some l →
  callerIsHost sid l = true →
  3 ≤ length (Lobby.players l) →
  ∃ l', (start_game env sid lobbyId lobbies).1 !! lobbyId = Some l' ∧
        Lobby.status l' = Status.playing ∧
        Lobby.clues l' = Lobby.clues l ∧
        Lobby.winner l' = Lobby.winner l ∧
        Player.votedFor <$> Lobby.players l' = Player.votedFor <$> Lobby.players l ∧
        Player.hasStolenClue <$> Lobby.players l'
          = Player.hasStolenClue <$> Lobby.players l ∧
        Player.isHost <$> Lobby.players l' = Player.isHost <$> Lobby.players l ∧
        (λ p, (Player.x p, Player.y p)) <$> Lobby.players l'
          = (λ p, (Player.x p, Player.y p)) <$> Lobby.players l ∧
        length (Lobby.tasks l') = 15 ∧
        ∀ t, t ∈ Lobby.tasks l' →
             GameTask.completed t = false ∧ GameTask.lockedFor t = [].
Proof.
  intros Hl Hhost Hlen. unfold start_game. rewrite Hl, Hhost.
  destruct (length (Lobby.players l) <? 3) eqn:Hlt; [apply Nat.ltb_lt in Hlt; lia|].
  eexists. simpl. rewrite lookup_insert_eq. split; [reflexivity|]. simpl.
  split_and!; try done; try (by apply assignRoles_fmap).
  intros t (i & <- & _)%list_elem_of_In%in_map_iff. done.
Qed.

Lemma start_game_keeps_witness :
  ∃ l', (start_game Sample.env "a" "ROOM" (Sample.only Sample.finished)).1 !! "ROOM"
          = Some l' ∧
        Lobby.status l' = Status.playing ∧
        Lobby.clues l' = [Sample.clueB] ∧
        Lobby.winner l' = Some Winner.investigators.
Proof.
  destruct (start_game_keeps Sample.env "a" "ROOM" (Sample.only Sample.finished)
              Sample.finished) as (l' & Hl' & Hst & Hclues & Hwin & _);
    [reflexivity | reflexivity | simpl; lia |].
  exists l'. split_and!; done.
Defined.

(** X18.  A request that names a code with no lobby changes nothing in the
    registry.  When the code is not the name of a member that objects
    inherit, only [join_lobby] and [steal_clue] answer it, with an error.
    When it is, [lobbies[lobbyId]] is a truthy value that is no lobby:
    [join_lobby] answers that the game is in progress, [leave_lobby] and
    [start_game] end in a [TypeError], and the other handlers do what they
    do for any code with no lobby. *)
Theorem unknown_lobby env sid req (lobbies : Lobbies) lobbyId :
  addressee req = Some lobbyId →
  lobbies !! lobbyId = None →
  handle env sid req lobbies =
  (lobbies,
   match req with
   | req_join_lobby _ _ =>
       [callback (error (if inherited lobbyId then "Game already in progress"
                         else "Lobby not found"))]
   | req_steal_clue _ _ => [callback (error "Game not active")]
   | req_leave_lobby _ | req_start_game _ =>
       if inherited lobbyId then [type_error] else []
   | _ => []
   end).
Proof.
  intros Haddr Hl. destruct req; simpl in *; try discriminate Haddr;
    injection Haddr as ->;
    unfold join_lobby, leave_lobby, start_game, move, task_completed, lock_task,
      steal_clue, vote, guess_witness, start_voting, timeout;
    rewrite Hl; try done; by destruct (inherited lobbyId).
Qed.

Lemma unknown_lobby_witness :
  handle Sample.env "a" (req_join_lobby "NOROOM" "Alex") (Sample.only Sample.waiting) =
  (Sample.only Sample.waiting, [callback (error "Lobby not found")]) ∧
  handle Sample.env "a" (req_join_lobby "constructor" "Alex")
    (Sample.only Sample.waiting) =
  (Sample.only Sample.waiting, [callback (error "Game already in progress")]) ∧
  handle Sample.env "a" (req_leave_lobby "toString") (Sample.only Sample.waiting) =
  (Sample.only Sample.waiting, [type_error]).
Proof.
  split_and!.
  - apply (unknown_lobby Sample.env "a" (req_join_lobby "NOROOM" "Alex")
             (Sample.only Sample.waiting) "NOROOM"); reflexivity.
  - apply (unknown_lobby Sample.env "a" (req_join_lobby "constructor" "Alex")
             (Sample.only Sample.waiting) "constructor"); reflexivity.
  - apply (unknown_lobby Sample.env "a" (req_leave_lobby "toString")
             (Sample.only Sample.waiting) "toString"); reflexivity.
Defined.

Section membership.

Lemma step_membership sid req l l' :
  LobbyStep sid req l l' →
  identity <$> Lobby.players l' = identity <$> Lobby.players l ∨
  (∃ i p, Lobby.players l !! i = Some p ∧ Player.id p = sid ∧
          (req = req_disconnect ∨ ∃ lobbyId, req = req_leave_lobby lobbyId) ∧
          identity <$> Lobby.players l' = delete i (identity <$> Lobby.players l)) ∨
  (∃ lobbyId name p, req = req_join_lobby lobbyId name ∧
                     Lobby.status l = Status.lobby ∧
                     Player.id p = sid ∧
                     Lobby.players l' = Lobby.players l ++ [p]).
Proof.
  assert (∀ i, identity <$> afterDeparture i l
               = delete i (identity <$> Lobby.players l)) as Hdep.
  { intros i. unfold afterDeparture.
    destruct (Status.eqb _ _); rewrite ?promoteFirst_fmap by done;
      apply list_fmap_delete. }
  intros Hstep. destruct Hstep; simpl; rewrite ?resolve_players; simpl;
    try (left; first [reflexivity | by apply updateFirst_fmap
                     | by apply assignRoles_fmap]).
  - right. right. exists lobbyId, name, (joiner env sid name l). split_and!; done.
  - right. left. destruct (findIndex_Some _ _ _ H) as (p & Hp & Hid & _).
    exists i, p. split_and!; eauto using has_id_eq.
  - right. left. destruct (findIndex_Some _ _ _ H) as (p & Hp & Hid & _).
    exists i, p. split_and!; eauto using has_id_eq.
Qed.

End membership.

(** X19.  Who is in a lobby.  A request leaves the players of a lobby that
    stays in the registry in their order and with their id, name,
    attributes and colour, with at most one change: the sender is taken
    out (by [leave_lobby] or [disconnect]), or is added at the end (by
    [join_lobby], and only while the status is [lobby]). *)
Theorem membership_changes env sid req (lobbies : Lobbies) code l l' :
  lobbies !! code = Some l →
  (handle env sid req lobbies).1 !! code = Some l' →
  (∀ name, req ≠ req_create_lobby name) →
  identity <$> Lobby.players l' = identity <$> Lobby.players l ∨
  (∃ i p, Lobby.players l !! i = Some p ∧ Player.id p = sid ∧
          (req = req_disconnect ∨ ∃ lobbyId, req = req_leave_lobby lobbyId) ∧
          identity <$> Lobby.players l' = delete i (identity <$> Lobby.players l)) ∨
  (∃ lobbyId name p, req = req_join_lobby lobbyId name ∧
                     Lobby.status l = Status.lobby ∧
                     Player.id p = sid ∧
                     Lobby.players l' = Lobby.players l ++ [p]).
Proof.
  intros Hl Hacts Hcreate.
  apply handle_acts in Hacts
    as [Hsame | [(name & -> & _) | (l0 & Hl0 & Hstep & _)]].
  - left. congruence.
  - exfalso. by eapply Hcreate.
  - assert (l0 = l) as -> by congruence. by apply step_membership.
Qed.

Lemma membership_changes_witness :
  ∃ l', (handle Sample.env "d" (req_join_lobby "ROOM" "Dana")
           (Sample.only Sample.playing3)).1 !! "ROOM" = Some l' ∧
        identity <$> Lobby.players l' = identity <$> Lobby.players Sample.playing3.
Proof.
  eexists. split; [vm_compute; reflexivity|].
  edestruct (membership_changes Sample.env "d" (req_join_lobby "ROOM" "Dana")
               (Sample.only Sample.playing3) "ROOM" Sample.playing3)
    as [H | [(i & p & _ & _ & [H | (x & H)] & _) | (x & y & p & _ & H & _)]];
    [reflexivity | vm_compute; reflexivity | intros name; discriminate
    | exact H | discriminate H | discriminate H | discriminate H].
Defined.

(** ** The generators *)

Section generators.

Lemma uniqueName_shape fuel players name finalName counter :
  uniqueName fuel players name finalName counter = finalName ∨
  ∃ k, counter ≤ k < counter + fuel ∧
       uniqueName fuel players name finalName counter = name +:+ " " +:+ pretty k ∧
       finalName ∈ Player.name <$> players ∧
       ∀ j, counter ≤ j < k → name +:+ " " +:+ pretty j ∈ Player.name <$> players.
Proof.
  revert finalName counter. induction fuel as [|fuel IH]; intros finalName counter;
    simpl; destruct (some _ players) eqn:Htaken; try (by left).
  apply some_name_elem in Htaken. right.
  destruct (IH (name +:+ " " +:+ pretty counter) (S counter))
    as [Heq | (k & Hk & Heq & Hin & Hbelow)].
  - exists counter. split_and!; [lia | lia | done | done | intros j ?; lia].
  - exists k. split_and!; [lia | lia | done | done |].
    intros j Hj. destruct (decide (j = counter)) as [-> | Hne]; [done|].
    apply Hbelow. lia.
Qed.


(** The bucket of a height of [n + 48] inches, as [generateAttributes]
    writes it. *)
Lemma height_clue_of_inches n :
  n < 37 →
  getHeightClue
    (pretty ((n + 48) / 12) +:+ "'" +:+ pretty ((n + 48) mod 12) +:+ doubleQuote) =
  if n + 48 <? 60 then "Short" else if n + 48 <? 72 then "Average" else "Tall".
Proof.
  intros Hn.
  do 37 (destruct n as [|n]; [vm_compute; reflexivity|]). lia.
Qed.


End generators.

(** X20.  The name given by [join_lobby]: the requested name when no player
    of the lobby has it; otherwise the requested name followed by a space
    and the least counter, from 1, that gives a name no player has.  The
    counter is at most the number of players, and the new name differs
    from every name in the lobby. *)
Theorem join_name_is_first_free env sid lobbyId name (lobbies : Lobbies) l :
  lobbies !! lobbyId = Some l →
  Lobby.status l = Status.lobby →
  ∃ l' p,
    (join_lobby env sid lobbyId name lobbies).1 !! lobbyId = Some l' ∧
    Lobby.players l' = Lobby.players l ++ [p] ∧
    (Player.name p ∉ playerNames l) ∧
    (name ∉ playerNames l → Player.name p = name) ∧
    (name ∈ playerNames l →
     ∃ k, 1 ≤ k ≤ length (Lobby.players l) ∧
          Player.name p = name +:+ " " +:+ pretty k ∧
          ∀ j, 1 ≤ j < k → name +:+ " " +:+ pretty j ∈ playerNames l).
Proof.
  intros Hl Hst. unfold join_lobby. rewrite Hl, Hst. simpl.
  rewrite lookup_insert_eq. eexists _, _. split; [reflexivity|]. simpl.
  split; [reflexivity|]. simpl.
  pose proof (uniqueName_free (Lobby.players l) name) as Hfree.
  fold (playerNames l) in Hfree.
  destruct (uniqueName_shape (length (Lobby.players l)) (Lobby.players l) name name 1)
    as [Heq | (k & Hk & Heq & Hin & Hbelow)].
  - split_and!; [done | done |]. intros Hin. rewrite Heq in Hfree. done.
  - split_and!; [done | by intros [] |]. intros _. exists k.
    split_and!; [lia | lia | done | done].
Qed.

Lemma join_name_is_first_free_witness :
  ∃ l' p,
    (join_lobby Sample.env "d" "ABC123" "Alex" Sample.afterJoins).1 !! "ABC123"
      = Some l' ∧
    last (Lobby.players l') = Some p ∧
    Player.name p = "Alex 3".
Proof.
  assert (∃ l, Sample.afterJoins !! "ABC123" = Some l ∧
               Lobby.status l = Status.lobby ∧
               playerNames l = ["Alex"; "Alex 1"; "Alex 2"]) as (l & Hl & Hst & Hnames).
  { eexists. split; [vm_compute; reflexivity|]. split; reflexivity. }
  destruct (join_name_is_first_free Sample.env "d" "ABC123" "Alex" Sample.afterJoins
              l Hl Hst) as (l' & p & Hl' & Hps & Hfree & _ & Htaken).
  exists l', p. split; [done|]. split; [by rewrite Hps, last_snoc|].
  rewrite Hnames in Htaken, Hfree.
  destruct Htaken as (k & Hk & Hname & _); [set_solver|].
  assert (length (Lobby.players l) = 3) as Hlen.
  { unfold playerNames in Hnames. apply (f_equal length) in Hnames.
    by rewrite length_fmap in Hnames. }
  rewrite Hname in Hfree |- *.
  destruct k as [|[|[|[|k]]]]; [lia | | | reflexivity | lia];
    exfalso; apply Hfree; vm_compute; set_solver.
Defined.

(** X21.  The clue drawn from a generated height is never ["Unknown"]:
    [generateAttributes] writes a height of 48 to 84 inches as feet and
    inches, and [getHeightClue] reads the feet back: below 5 feet it
    answers ["Short"], at 5 feet ["Average"], above ["Tall"]. *)
Theorem generated_height_clue env :
  getHeightClue (Attributes.height (generateAttributes env)) =
  let heightInches := floorRandom (Env.random env 0) 37 + 48 in
  if heightInches <? 60 then "Short"
  else if heightInches <? 72 then "Average"
  else "Tall".
Proof.
  unfold generateAttributes. cbn [Attributes.height].
  apply height_clue_of_inches. apply floorRandom_lt. lia.
Qed.



(** X23.  The task pool of [generateTasks]: fifteen tasks, the i-th with
    the i-th id drawn, a place in the square from 200 to 1799 on both
    axes, one of the four types, open and locked for nobody. *)
Theorem generated_tasks env :
  length (generateTasks env) = 15 ∧
  ∀ i t, generateTasks env !! i = Some t →
         GameTask.id t = Env.uuidv4 env i ∧
         (200 ≤ GameTask.x t < 1800)%Z ∧
         (200 ≤ GameTask.y t < 1800)%Z ∧
         GameTask.type t ∈ types ∧
         GameTask.completed t = false ∧
         GameTask.lockedFor t = [].
Proof.
  split; [apply generateTasks_length|].
  intros i t Ht. unfold generateTasks in Ht.
  change (map (generateTask env) (seq 0 15)) with (generateTask env <$> seq 0 15) in Ht.
  rewrite list_lookup_fmap in Ht.
  destruct (seq 0 15 !! i) as [j|] eqn:Hj; [|done].
  apply lookup_seq in Hj as [-> _]. simpl in Ht. injection Ht as <-. simpl.
  pose proof (floorRandom_lt (Env.random env (i + (i + (i + 0)))) 1600 ltac:(lia)).
  pose proof (floorRandom_lt (Env.random env (i + (i + (i + 0)) + 1)) 1600 ltac:(lia)).
  split_and!; try done; try lia.
  destruct (randomElement_is_Some (Env.random env (i + (i + (i + 0)) + 2)) types)
    as [ty Hty]; [done|].
  rewrite Hty. simpl. by eapply randomElement_elem.
Qed.

(** ** The end of the game, the broadcasts, and the other players *)

Section endgame.

Lemma step_winner sid req l l' :
  LobbyStep sid req l l' →
  Lobby.winner l' ≠ Lobby.winner l →
  match req with
  | req_vote _ _ =>
      Lobby.status l = Status.voting ∧ Lobby.status l' = Status.game_over ∧
      Lobby.winner l' = Some Winner.killer
  | req_guess_witness _ _ => True
  | _ => False
  end.
Proof.
  intros Hstep Hne. destruct Hstep; simpl in *; try done.
  destruct (resolve_cases (recordVote sid target l)) as [Heq | Heq];
    rewrite Heq in Hne |- *; simpl in *; done.
Qed.

Lemma updateFirst_lookup_other {A : Type} (f : A → bool) g (xs : list A) i x :
  xs !! i = Some x → f x = false → updateFirst f g xs !! i = Some x.
Proof.
  revert i. induction xs as [|y ys IH]; intros i Hi Hx; [done|]. simpl.
  destruct i as [|i]; simpl in *.
  - injection Hi as ->. by rewrite Hx.
  - destruct (f y); simpl; auto.
Qed.

Lemma step_others sid req l l' :
  LobbyStep sid req l l' →
  (∀ lobbyId, req ≠ req_start_game lobbyId) →
  (∀ lobbyId, req ≠ req_leave_lobby lobbyId) →
  req ≠ req_disconnect →
  ∀ i p, Lobby.players l !! i = Some p → Player.id p ≠ sid →
         Lobby.players l' !! i = Some p.
Proof.
  intros Hstep Hstart Hleave Hdisc i p Hp Hid.
  assert (Player.has_id sid p = false) as Hother.
  { unfold Player.has_id. by apply String.eqb_neq. }
  destruct Hstep; simpl; rewrite ?resolve_players; simpl;
    try done; try (by apply updateFirst_lookup_other).
  - by apply lookup_app_l_Some.
  - exfalso. by eapply Hleave.
  - exfalso. by eapply Hstart.
Qed.

End endgame.

(** X24.  How a winner is set.  The winner of a lobby changes only when the
    vote that completes the ballot misses (the killer wins at once), and
    when the killer makes the final guess: the killer wins if the first
    player with the named id is the witness, the investigators win in every
    other case, an id that is no player's included.  The investigators
    cannot win in any other way. *)
Theorem winner_set_by env sid req (lobbies : Lobbies) code l l' :
  lobbies !! code = Some l →
  (handle env sid req lobbies).1 !! code = Some l' →
  Lobby.winner l' ≠ Lobby.winner l →
  match req with
  | req_create_lobby name => l' = newLobby env sid name
  | req_vote lobbyId _ =>
      lobbyId = code ∧
      Lobby.status l = Status.voting ∧ Lobby.status l' = Status.game_over ∧
      Lobby.winner l' = Some Winner.killer
  | req_guess_witness lobbyId target =>
      lobbyId = code ∧
      Lobby.status l = Status.witness_guessing ∧
      Lobby.status l' = Status.game_over ∧
      (∃ killer, List.find (Player.has_id sid) (Lobby.players l) = Some killer ∧
                 Player.is_killer killer = true) ∧
      Lobby.winner l' =
        Some (match List.find (Player.has_id target) (Lobby.players l) with
              | Some t => if Player.is_witness t then Winner.killer
                          else Winner.investigators
              | None => Winner.investigators
              end)
  | _ => False
  end.
Proof.
  intros Hl Hl' Hne.
  assert ((∃ lobbyId target, req = req_guess_witness lobbyId target) ∨
          (∀ lobbyId target, req ≠ req_guess_witness lobbyId target))
    as [(lobbyId & target & ->) | Hreq].
  { destruct req; eauto; right; intros; discriminate. }
  - simpl in Hl'. unfold guess_witness in Hl'.
    destruct (decide (lobbyId = code)) as [-> | Hcode].
    + rewrite Hl in Hl'.
      destruct (Status.eqb (Lobby.status l) Status.witness_guessing) eqn:Hst;
        [|simpl in Hl'; congruence].
      apply Status_eqb_eq in Hst.
      destruct (List.find (Player.has_id sid) (Lobby.players l)) as [k|] eqn:Hk;
        [|simpl in Hl'; congruence].
      destruct (Player.is_killer k) eqn:Hkiller; [|simpl in Hl'; congruence].
      simpl in Hl'. rewrite lookup_insert_eq in Hl'. injection Hl' as <-.
      simpl. split_and!; eauto.
    + exfalso. apply Hne. f_equal.
      repeat case_match; simpl in Hl'; rewrite ?lookup_insert_ne in Hl' by done;
        congruence.
  - apply handle_acts in Hl'
      as [Hsame | [(name & -> & -> & ->) | (l0 & Hl0 & Hstep & Haddr)]].
    + destruct Hne. congruence.
    + done.
    + assert (l0 = l) as -> by congruence.
      pose proof (step_winner _ _ _ _ Hstep Hne) as Hw.
      destruct req; try done.
      * split; [by apply Haddr | done].
      * exfalso. by eapply Hreq.
Qed.

Lemma winner_set_by_witness :
  ∃ l', (handle Sample.env "A" (req_guess_witness "ROOM" "nobody")
           (Sample.only Sample.guessing)).1 !! "ROOM" = Some l' ∧
        Lobby.winner l' = Some Winner.investigators.
Proof.
  eexists. split; [vm_compute; reflexivity|].
  edestruct (winner_set_by Sample.env "A" (req_guess_witness "ROOM" "nobody")
               (Sample.only Sample.guessing) "ROOM" Sample.guessing)
    as (_ & _ & _ & _ & H);
    [reflexivity | vm_compute; reflexivity | discriminate | exact H].
Defined.

(** X25.  What a request addressed to a lobby sends goes to the room of
    that lobby, or back to the sender: no broadcast and no timer names
    another lobby. *)
Theorem broadcasts_stay_in_room env sid req (lobbies : Lobbies) lobbyId e :
  addressee req = Some lobbyId →
  e ∈ (handle env sid req lobbies).2 →
  match e with
  | to_room id _ | to_others id _ | set_timeout id _ => id = lobbyId
  | callback _ | to_socket _ | type_error => True
  end.
Proof.
  intros Haddr. revert e. apply Forall_forall.
  destruct req; simpl in Haddr; try discriminate Haddr; injection Haddr as ->;
    simpl;
    unfold join_lobby, leave_lobby, start_game, move, task_completed, lock_task,
      steal_clue, vote, guess_witness, start_voting, timeout;
    repeat case_match; simpl;
    repeat (apply Forall_cons; split; [done|]); apply Forall_nil_2.
Qed.

Lemma broadcasts_stay_in_room_witness :
  set_timeout "ROOM" 300000%Z
    ∈ (handle Sample.env "a" (req_start_game "ROOM") (Sample.only Sample.waiting)).2 ∧
  match set_timeout "ROOM" 300000%Z with
  | to_room id _ | to_others id _ | set_timeout id _ => id = "ROOM"
  | callback _ | to_socket _ | type_error => True
  end.
Proof.
  assert (set_timeout "ROOM" 300000%Z
            ∈ (handle Sample.env "a" (req_start_game "ROOM")
                 (Sample.only Sample.waiting)).2) as Hin.
  { vm_compute. apply list_elem_of_further, list_elem_of_here. }
  split; [exact Hin|].
  exact (broadcasts_stay_in_room Sample.env "a" (req_start_game "ROOM")
           (Sample.only Sample.waiting) "ROOM" _ eq_refl Hin).
Defined.

(** X26.  A request changes no player but the sender's own: apart from
    [start_game], which deals new roles to everybody, and the departures,
    which shift the players after the one who goes and may promote the
    first, every player of another connection stays at their place with
    every field as it was. *)
Theorem others_untouched env sid req (lobbies : Lobbies) code l l' :
  lobbies !! code = Some l →
  (handle env sid req lobbies).1 !! code = Some l' →
  (∀ name, req ≠ req_create_lobby name) →
  (∀ lobbyId, req ≠ req_start_game lobbyId) →
  (∀ lobbyId, req ≠ req_leave_lobby lobbyId) →
  req ≠ req_disconnect →
  ∀ i p, Lobby.players l !! i = Some p → Player.id p ≠ sid →
         Lobby.players l' !! i = Some p.
Proof.
  intros Hl Hacts Hcreate Hstart Hleave Hdisc.
  apply handle_acts in Hacts
    as [Hsame | [(name & -> & _) | (l0 & Hl0 & Hstep & _)]].
  - assert (l' = l) as -> by congruence. done.
  - exfalso. by eapply Hcreate.
  - assert (l0 = l) as -> by congruence. by apply (step_others sid req).
Qed.

Lemma others_untouched_witness :
  ∃ l', (handle Sample.env "D" (req_vote "ROOM" "C")
           (Sample.only Sample.lastVote)).1 !! "ROOM" = Some l' ∧
        Lobby.players l' !! 1
          = Some (Sample.player "B" (Some Role.witness) Sample.attrsB false (Some "A")).
Proof.
  eexists. split; [vm_compute; reflexivity|].
  eapply (others_untouched Sample.env "D" (req_vote "ROOM" "C")
            (Sample.only Sample.lastVote) "ROOM" Sample.lastVote).
  - reflexivity.
  - vm_compute. reflexivity.
  - intros name. discriminate.
  - intros lobbyId. discriminate.
  - intros lobbyId. discriminate.
  - discriminate.
  - reflexivity.
  - simpl. discriminate.
Defined.

(** ** A second game in the same lobby *)

Section restart.

Lemma callerIsHost_ext sid (l l' : Lobby.t) :
  Player.id <$> Lobby.players l' = Player.id <$> Lobby.players l →
  Player.isHost <$> Lobby.players l' = Player.isHost <$> Lobby.players l →
  callerIsHost sid l' = callerIsHost sid l.
Proof.
  unfold callerIsHost. generalize (Lobby.players l') as ps'.
  induction (Lobby.players l) as [|p ps IH]; intros [|p' ps'] Hid Hhost; try done.
  rewrite !fmap_cons in Hid. rewrite !fmap_cons in Hhost. injection Hid as Hid Hids.
  injection Hhost as Hhost Hhosts. simpl. unfold Player.has_id at 1 3.
  rewrite Hid. destruct (String.eqb (Player.id p) sid); [done|]. by apply IH.
Qed.

Lemma find_has_id_ext sid (players players' : list Player.t) :
  Player.id <$> players' = Player.id <$> players →
  is_Some (List.find (Player.has_id sid) players) →
  is_Some (List.find (Player.has_id sid) players').
Proof.
  revert players'. induction players as [|p ps IH]; intros [|p' ps'] Hid; try done.
  rewrite !fmap_cons in Hid. injection Hid as Hid Hids. simpl.
  unfold Player.has_id at 1 3. rewrite Hid.
  destruct (String.eqb (Player.id p) sid); [eauto|]. by apply IH.
Qed.

Lemma every_votes_ext (players players' : list Player.t) :
  Player.votedFor <$> players' = Player.votedFor <$> players →
  every (λ p, truthy (Player.votedFor p)) players'
  = every (λ p, truthy (Player.votedFor p)) players.
Proof.
  revert players'. induction players as [|p ps IH]; intros [|p' ps'] Hv; try done.
  rewrite !fmap_cons in Hv. injection Hv as Hv Hvs. simpl.
  rewrite Hv. f_equal. by apply IH.
Qed.

Lemma every_updateFirst {A : Type} (P f : A → bool) g (xs : list A) :
  (∀ x, P (g x) = true) →
  every P xs = true → every P (updateFirst f g xs) = true.
Proof.
  intros Hg. unfold every. induction xs as [|x xs IH]; [done|]. simpl.
  intros [Hx Hxs]%andb_prop. destruct (f x); simpl.
  - by rewrite Hg, Hxs.
  - by rewrite Hx, IH.
Qed.

Lemma start_game_unfold env sid lobbyId (lobbies : Lobbies) l :
  lobbies !! lobbyId = Some l →
  callerIsHost sid l = true →
  3 ≤ length (Lobby.players l) →
  (start_game env sid lobbyId lobbies).1
  = <[lobbyId := run (start_game_steps env l) l]> lobbies.
Proof.
  intros Hl Hhost Hlen. unfold start_game. rewrite Hl, Hhost.
  destruct (length (Lobby.players l) <? 3) eqn:Hlt; [apply Nat.ltb_lt in Hlt; lia|].
  reflexivity.
Qed.

End restart.

(** X27.  The votes of one game are still there in the next.  When every
    player of a lobby has a recorded vote and the host starts a game in
    it again, the new game's ballot is complete from its first vote on:
    after [start_game], the timer, and [start_voting], the first [vote]
    of any player closes the accusation at once. *)
Theorem restart_keeps_old_ballot env1 env2 env3 env4 host timer voter target
    (lobbies : Lobbies) code l :
  lobbies !! code = Some l →
  callerIsHost host l = true →
  3 ≤ length (Lobby.players l) →
  every (λ p, truthy (Player.votedFor p)) (Lobby.players l) = true →
  is_Some (List.find (Player.has_id voter) (Lobby.players l)) →
  target ≠ EmptyString →
  ∃ l', handleAll [(env1, host, req_start_game code);
                   (env2, timer, req_timeout code);
                   (env3, host, req_start_voting code);
                   (env4, voter, req_vote code target)] lobbies !! code = Some l' ∧
        (Lobby.status l' = Status.game_over ∨
         Lobby.status l' = Status.witness_guessing).
Proof.
  intros Hl Hhost Hlen Hvotes Hvoter Htarget.
  set (l1 := run (start_game_steps env1 l) l).
  assert (Player.id <$> Lobby.players l1 = Player.id <$> Lobby.players l) as Hids
    by by apply assignRoles_fmap.
  assert (Player.isHost <$> Lobby.players l1 = Player.isHost <$> Lobby.players l)
    as Hhosts by by apply assignRoles_fmap.
  assert (Player.votedFor <$> Lobby.players l1 = Player.votedFor <$> Lobby.players l)
    as Hvoted by by apply assignRoles_fmap.
  set (l2 := Lobby.with_status Status.discussion l1).
  set (l3 := Lobby.with_status Status.voting l2).
  unfold handleAll. cbn [foldl handle].
  rewrite (start_game_unfold env1 host code lobbies l Hl Hhost Hlen). fold l1.
  assert ((timeout code (<[code := l1]> lobbies)).1
          = <[code := l2]> (<[code := l1]> lobbies)) as ->.
  { unfold timeout. by rewrite lookup_insert_eq. }
  assert ((start_voting host code (<[code := l2]> (<[code := l1]> lobbies))).1
          = <[code := l3]> (<[code := l2]> (<[code := l1]> lobbies))) as ->.
  { unfold start_voting. rewrite lookup_insert_eq. simpl.
    replace (callerIsHost host l2) with true; [done|].
    symmetry. rewrite <- Hhost. by apply callerIsHost_ext. }
  rewrite (vote_unfold voter code target _ l3);
    [| by rewrite lookup_insert_eq | done | by apply (find_has_id_ext voter _ _ Hids)].
  rewrite lookup_insert_eq.
  assert (every (λ p, truthy (Player.votedFor p))
            (Lobby.players (recordVote voter target l3)) = true) as ->.
  { simpl. apply every_updateFirst.
    - intros p. simpl. by destruct (String.eqb_spec target EmptyString).
    - change (assignRoles env1 (Lobby.players l)) with (Lobby.players l1).
      by rewrite (every_votes_ext _ _ Hvoted). }
  eexists. split; [reflexivity|]. apply resolve_status.
Qed.

Lemma restart_keeps_old_ballot_witness :
  ∃ l', handleAll [(Sample.env, "a", req_start_game "ROOM");
                   (Sample.env, "a", req_timeout "ROOM");
                   (Sample.env, "a", req_start_voting "ROOM");
                   (Sample.env, "b", req_vote "ROOM" "c")]
          (Sample.only Sample.finished) !! "ROOM" = Some l' ∧
        (Lobby.status l' = Status.game_over ∨
         Lobby.status l' = Status.witness_guessing).
Proof.
  apply (restart_keeps_old_ballot Sample.env Sample.env Sample.env Sample.env
           "a" "a" "b" "c" (Sample.only Sample.finished) "ROOM" Sample.finished);
    [reflexivity | reflexivity | simpl; lia | reflexivity | vm_compute; eauto
    | discriminate].
Defined.

(** ** Reading back a printed number *)

Section printed_numbers.

Lemma digitValue_pretty_N_char d :
  (d < 10)%N → digitValue (pretty_N_char d) = Some (Z.of_N d).
Proof.
  intros Hd.
  assert (d = 0 ∨ d = 1 ∨ d = 2 ∨ d = 3 ∨ d = 4 ∨ d = 5 ∨ d = 6 ∨ d = 7 ∨ d = 8
          ∨ d = 9)%N as Hcases by lia.
  repeat (destruct Hcases as [-> | Hcases]; [reflexivity|]). by subst.
Qed.

Lemma readDigits_pretty_N_go x s :
  (0 < x)%N →
  readDigits 10 None (pretty_N_go x s) = readDigits 10 (Some (Z.of_N x)) s.
Proof.
  revert s. induction (N.lt_wf_0 x) as [x _ IH]. intros s Hx.
  rewrite pretty_N_go_step by done.
  assert (x `mod` 10 < 10)%N as Hmod by (apply N.mod_lt; lia).
  pose proof (N.div_mod x 10 ltac:(lia)) as Hdiv.
  destruct (decide (x `div` 10 = 0)%N) as [Hzero | Hpos].
  - rewrite Hzero, pretty_N_go_0. simpl.
    rewrite (digitValue_pretty_N_char _ Hmod).
    replace (Z.of_N (x `mod` 10) <? 10)%Z with true by (symmetry; apply Z.ltb_lt; lia).
    f_equal. f_equal. lia.
  - rewrite IH; [| apply N.div_lt; lia | lia]. simpl.
    rewrite (digitValue_pretty_N_char _ Hmod).
    replace (Z.of_N (x `mod` 10) <? 10)%Z with true by (symmetry; apply Z.ltb_lt; lia).
    f_equal. f_equal. lia.
Qed.

(** A printed positive number starts with a digit from 1 to 9. *)
Lemma pretty_N_go_head x s :
  (0 < x)%N →
  ∃ d tl, pretty_N_go x s = String (pretty_N_char d) tl ∧ (0 < d < 10)%N.
Proof.
  revert s. induction (N.lt_wf_0 x) as [x _ IH]. intros s Hx.
  rewrite pretty_N_go_step by done.
  destruct (decide (x `div` 10 = 0)%N) as [Hzero | Hpos].
  - rewrite Hzero, pretty_N_go_0. exists (x `mod` 10)%N, s. split; [done|].
    pose proof (N.div_mod x 10 ltac:(lia)).
    assert (x `mod` 10 < 10)%N by (apply N.mod_lt; lia). lia.
  - apply IH; [apply N.div_lt; lia | by apply N.neq_0_lt_0].
Qed.

Lemma parseInt_pretty_N (x : N) : parseInt (pretty x) = Some (Z.of_N x).
Proof.
  unfold pretty, pretty_N. destruct (decide (x = 0)%N) as [-> | Hx]; [reflexivity|].
  assert (0 < x)%N as Hpos by lia.
  destruct (pretty_N_go_head x EmptyString Hpos) as (d & tl & Hgo & Hd).
  assert (parseInt (pretty_N_go x EmptyString)
          = Z.mul 1 <$> readDigits 10 None (pretty_N_go x EmptyString)) as ->.
  { rewrite Hgo.
    assert (d = 1 ∨ d = 2 ∨ d = 3 ∨ d = 4 ∨ d = 5 ∨ d = 6 ∨ d = 7 ∨ d = 8 ∨ d = 9)%N
      as Hcases by lia.
    repeat (destruct Hcases as [-> | Hcases]; [reflexivity|]). by subst. }
  rewrite (readDigits_pretty_N_go x EmptyString Hpos). simpl. f_equal. lia.
Qed.

Lemma splitHead_pretty_N_go x s rest :
  splitHead "'" (s +:+ String "'" rest) = s →
  splitHead "'" (pretty_N_go x s +:+ String "'" rest) = pretty_N_go x s.
Proof.
  revert s. induction (N.lt_wf_0 x) as [x _ IH]. intros s Hs.
  destruct (decide (x = 0)%N) as [-> | Hx]; [by rewrite pretty_N_go_0|].
  rewrite pretty_N_go_step by lia. apply IH; [apply N.div_lt; lia|].
  simpl. rewrite Hs. unfold pretty_N_char. by repeat case_match.
Qed.

Lemma splitHead_pretty_N (x : N) rest :
  splitHead "'" (pretty x +:+ String "'" rest) = pretty x.
Proof.
  unfold pretty, pretty_N. destruct (decide (x = 0)%N); [reflexivity|].
  by apply splitHead_pretty_N_go.
Qed.

End printed_numbers.

(** X28.  [getHeightClue] reads the feet of any height written as the
    generator writes it, a number, an apostrophe, and whatever follows:
    it answers ["Short"] below 5 feet, ["Average"] at 5 feet and ["Tall"]
    above, and never ["Unknown"]. *)
Theorem height_clue_reads_feet (feet : nat) (rest : string) :
  getHeightClue (pretty feet +:+ "'" +:+ rest) =
  if feet <? 5 then "Short" else if feet =? 5 then "Average" else "Tall".
Proof.
  unfold getHeightClue.
  change (pretty feet +:+ "'" +:+ rest)
    with (pretty (N.of_nat feet) +:+ String "'" rest).
  rewrite splitHead_pretty_N, parseInt_pretty_N.
  destruct (Nat.ltb_spec feet 5), (Z.ltb_spec (Z.of_N (N.of_nat feet)) 5); try lia;
    [done|].
  destruct (Nat.eqb_spec feet 5), (Z.eqb_spec (Z.of_N (N.of_nat feet)) 5); try lia;
    [done|].
  destruct (Z.ltb_spec 5 (Z.of_N (N.of_nat feet))); [done | lia].
Qed.
